(** * Digestive database: tiered store and chunked blob layer

    A shallow embedding of [digestive_database.cpp] (class
    [DigestiveDatabase]) and [chunking_engine.cpp] (class [ChunkingEngine])
    together with the properties of their insert / read / remove /
    eviction paths, of reorganization, statistics and persistence, and of
    sequences of calls.

    Conventions.
    - [uint64_t] and [size_t] are [N] with the wrap-around written out
      ([wrap64]); [uint32_t] likewise ([wrap32]).
    - [double] is Rocq's primitive binary64 [float]; conversions from
      integers round to nearest as [static_cast<double>] does.
    - [std::map<K,V>] is a key-ordered association list ([StdMap]):
      iteration order is key order, as in the source.
    - The LZ4 / ZSTD entry points and [std::sort] are external: they are
      section variables, constrained only where a theorem needs it.
    - [current_timestamp()] is the argument [now] of every public call; a
      call is taken to complete within one clock second.
    - A file on disk is represented by the record sequence it encodes and
      its byte size. [data.db] is also modelled byte by byte ([DiskImage]),
      short images included; integers are stored least significant byte
      first. *)

From Stdlib Require Import NArith ZArith List Bool Lia String Ascii.
From Stdlib Require Import Floats SpecFloat.
From Stdlib Require Import Permutation Sorted OrderedTypeEx.
Import ListNotations.

Set Warnings "-inexact-float".
#[local] Open Scope N_scope.

(* ================================================================== *)
(** * Machine integers, bytes, outcomes *)

Definition bytes := list Byte.byte.

Definition wrap64 (x : N) : N := x mod 2 ^ 64.
Definition wrap32 (x : N) : N := x mod 2 ^ 32.

(** [a - b] on [size_t] / [uint64_t]. *)
Definition sub64 (a b : N) : N :=
  if b <=? a then a - b else 2 ^ 64 - (b - a).

Definition size_of {A} (l : list A) : N := N.of_nat (List.length l).

(** [static_cast<double>(n)] for an unsigned integer [n]. *)
Definition double_of_N (n : N) : float :=
  SF2Prim (binary_normalize prec emax (Z.of_N n) 0 false).

(** What a call does: it returns, it throws a C++ exception, or it runs
    into behaviour the language leaves undefined. *)
Inductive outcome (A : Type) : Type :=
| Ok (a : A)
| Throws (what : string)
| Undefined.
Arguments Ok {A} a.
Arguments Throws {A} what.
Arguments Undefined {A}.

Definition bind {A B} (m : outcome A) (f : A -> outcome B) : outcome B :=
  match m with
  | Ok a => f a
  | Throws w => Throws w
  | Undefined => Undefined
  end.

Notation "x <- m ;; k" := (bind m (fun x => k))
  (at level 61, m at next level, right associativity).

(* ================================================================== *)
(** * [std::map]: key-ordered association lists *)

Class Ord (K : Type) := key_compare : K -> K -> comparison.
#[global] Instance string_Ord : Ord string := String.compare.
#[global] Instance N_Ord : Ord N := N.compare.

Module StdMap.
Section Defs.
Context {K V : Type} `{Ord K}.

Definition t := list (K * V).

(** [m.find(k)]; [None] is [m.end()]. *)
Fixpoint find (k : K) (m : list (K * V)) : option V :=
  match m with
  | [] => None
  | (k', v) :: m' =>
      match key_compare k k' with
      | Eq => Some v
      | _ => find k m'
      end
  end.

(** [m[k] = v]. *)
Fixpoint insert (k : K) (v : V) (m : list (K * V)) : list (K * V) :=
  match m with
  | [] => [(k, v)]
  | (k', v') :: m' =>
      match key_compare k k' with
      | Eq => (k, v) :: m'
      | Lt => (k, v) :: (k', v') :: m'
      | Gt => (k', v') :: insert k v m'
      end
  end.

(** [m.erase(k)]: the map without [k]. *)
Fixpoint erase (k : K) (m : list (K * V)) : list (K * V) :=
  match m with
  | [] => []
  | (k', v') :: m' =>
      match key_compare k k' with
      | Eq => erase k m'
      | _ => (k', v') :: erase k m'
      end
  end.

(** [m.count(k) > 0]; also whether [m.erase(k)] returns a positive count. *)
Definition mem (k : K) (m : list (K * V)) : bool :=
  match find k m with Some _ => true | None => false end.

Definition size (m : list (K * V)) : N := size_of m.

(** Keys strictly increase along the list. *)
Fixpoint sorted (m : list (K * V)) : bool :=
  match m with
  | [] => true
  | (k, _) :: m' =>
      match m' with
      | [] => true
      | (k', _) :: _ =>
          match key_compare k k' with
          | Lt => sorted m'
          | _ => false
          end
      end
  end.
End Defs.
Arguments t : clear implicits.
End StdMap.

(* ================================================================== *)
(** * Compression back ends *)

Inductive CompressionTier := TIER_0 | TIER_1 | TIER_2 | TIER_3 | TIER_4.

Inductive CompressionAlgo :=
  NONE | LZ4_FAST | LZ4_HIGH | ZSTD_FAST | ZSTD_MEDIUM | ZSTD_MAX.

Definition CompressionTier_eqb (a b : CompressionTier) : bool :=
  match a, b with
  | TIER_0, TIER_0 | TIER_1, TIER_1 | TIER_2, TIER_2
  | TIER_3, TIER_3 | TIER_4, TIER_4 => true
  | _, _ => false
  end.

Definition CompressionAlgo_eqb (a b : CompressionAlgo) : bool :=
  match a, b with
  | NONE, NONE | LZ4_FAST, LZ4_FAST | LZ4_HIGH, LZ4_HIGH
  | ZSTD_FAST, ZSTD_FAST | ZSTD_MEDIUM, ZSTD_MEDIUM | ZSTD_MAX, ZSTD_MAX => true
  | _, _ => false
  end.

(** The library calls of [lz4.h], [lz4hc.h] and [zstd.h] the store makes.
    A compressor gives [None] where the C function reports failure (a
    non-positive size, [ZSTD_isError]); a decompressor gives the bytes it
    wrote into the destination buffer of the given capacity, or [None] on a
    negative / error result. A call is taken to return: what the C
    functions do when handed the null [data()] of an empty vector is
    outside the model, and so is every statement here about a call of the
    store that did not return. *)
Record CodecLib := {
  LZ4_compress_default : bytes -> option bytes;
  LZ4_compress_HC : bytes -> option bytes;          (* at LZ4HC_CLEVEL_MAX *)
  ZSTD_compress : N -> bytes -> option bytes;       (* level, source *)
  LZ4_decompress_safe : bytes -> N -> option bytes; (* source, capacity *)
  ZSTD_decompress : bytes -> N -> option bytes
}.

(** [std::vector<uint8_t> v(n)] after the library wrote [out] at its start. *)
Definition filled_buffer (n : N) (out : bytes) : bytes :=
  firstn (N.to_nat n) out ++ repeat Byte.x00 (N.to_nat n - List.length out).

Section Codec.
Variable lib : CodecLib.

Definition compress_with_algo (data : bytes) (algo : CompressionAlgo) : bytes :=
  match algo with
  | NONE => data
  | LZ4_FAST =>
      match LZ4_compress_default lib data with
      | Some c => c
      | None => data
      end
  | LZ4_HIGH =>
      match LZ4_compress_HC lib data with
      | Some c => c
      | None => data
      end
  | ZSTD_FAST =>
      match ZSTD_compress lib 3 data with
      | Some c => c
      | None => data
      end
  | ZSTD_MEDIUM =>
      match ZSTD_compress lib 10 data with
      | Some c => c
      | None => data
      end
  | ZSTD_MAX =>
      match ZSTD_compress lib 19 data with
      | Some c => c
      | None => data
      end
  end.

Definition decompress_with_algo
    (data : bytes) (algo : CompressionAlgo) (original_size : N) : bytes :=
  match algo with
  | NONE => data
  | LZ4_FAST | LZ4_HIGH =>
      match LZ4_decompress_safe lib data original_size with
      | Some out => filled_buffer original_size out
      | None => data
      end
  | ZSTD_FAST | ZSTD_MEDIUM | ZSTD_MAX =>
      match ZSTD_decompress lib data original_size with
      | Some out => filled_buffer original_size out
      | None => data
      end
  end.
End Codec.

(* ================================================================== *)
(** * The inline store: [DigestiveDatabase] *)

Module DigestiveDatabase.

Record TierConfig := {
  tier_algorithm : CompressionAlgo;           (* TierConfig::algorithm *)
  compress_fn : option (bytes -> bytes);
  decompress_fn : option (bytes -> N -> bytes);
  allow_lossy : bool
}.

Record NodeMetadata := {
  access_count : N;
  last_access : N;
  tier : CompressionTier;
  algorithm : CompressionAlgo;
  original_size : N;
  compressed_size : N
}.

Inductive ReorgStrategy := MANUAL | EVERY_N_OPS | PERIODIC | ADAPTIVE.

Record DbConfig := {
  allow_deletion : bool;
  max_size_bytes : N;
  compression_enabled : bool;
  tier_configs : CompressionTier -> TierConfig;   (* TierConfig tier_configs[5] *)
  reorg_strategy : ReorgStrategy;
  reorg_operation_threshold : N;
  reorg_time_threshold : N;
  reorg_change_threshold : float;
  lazy_persistence : bool;
  write_buffer_size : N;
  use_mmap : bool
}.

Definition SIZE_MAX : N := 2 ^ 64 - 1.

Definition TierConfig_of (algo : CompressionAlgo) (lossy : bool) : TierConfig :=
  {| tier_algorithm := algo; compress_fn := None; decompress_fn := None;
     allow_lossy := lossy |}.

Definition default_tier_configs (t : CompressionTier) : TierConfig :=
  match t with
  | TIER_0 => TierConfig_of NONE false
  | TIER_1 => TierConfig_of LZ4_FAST false
  | TIER_2 => TierConfig_of LZ4_HIGH false
  | TIER_3 => TierConfig_of ZSTD_MEDIUM false
  | TIER_4 => TierConfig_of ZSTD_MAX false
  end.

Definition default_config : DbConfig :=
  {| allow_deletion := false;
     max_size_bytes := SIZE_MAX;
     compression_enabled := true;
     tier_configs := default_tier_configs;
     reorg_strategy := ADAPTIVE;
     reorg_operation_threshold := 100;
     reorg_time_threshold := 300;
     reorg_change_threshold := 0.2%float;
     lazy_persistence := false;
     write_buffer_size := 10 * 1024 * 1024;
     use_mmap := false |}.

(** ** The store directory [<name>.db/] *)

(** What [metadata.db] encodes: three global counters, then one record
    per key. *)
Record MetadataImage := {
  img_total_accesses : N;
  img_operations_since_reorg : N;
  img_last_reorg_time : N;
  img_entries : list (string * NodeMetadata)
}.

(** The regular files of the directory: [data.db] and [metadata.db] when
    they exist, and the total size of whatever else lies beside them. *)
Record Disk := {
  data_db : option (list (string * bytes));
  metadata_db : option MetadataImage;
  other_files : N
}.

Definition empty_dir : Disk :=
  {| data_db := None; metadata_db := None; other_files := 0 |}.

(** [key_len:u32 | key | val_len:u32 | val] per record. *)
Definition data_db_size (recs : list (string * bytes)) : N :=
  fold_right
    (fun kv acc =>
       4 + wrap32 (N.of_nat (String.length (fst kv)))
       + 4 + wrap32 (size_of (snd kv)) + acc)
    0 recs.

(** Header 8+8+8+4 bytes; per record [key_len:u32 | key], two [uint64_t],
    the two enums (an [int] each), two [size_t]. *)
Definition metadata_db_size (img : MetadataImage) : N :=
  28 + fold_right
         (fun kv acc =>
            4 + wrap32 (N.of_nat (String.length (fst kv)))
            + 8 + 8 + 4 + 4 + 8 + 8 + acc)
         0 (img_entries img).

Record state := {
  db_path_ : Disk;
  config_ : DbConfig;
  total_accesses_ : N;
  operations_since_reorg_ : N;
  last_reorg_time_ : N;
  data_store_ : StdMap.t string bytes;
  metadata_store_ : StdMap.t string NodeMetadata;
  write_buffer_ : StdMap.t string bytes;
  write_buffer_current_size_ : N
}.

Definition with_disk (d : Disk) (s : state) : state :=
  {| db_path_ := d; config_ := config_ s;
     total_accesses_ := total_accesses_ s;
     operations_since_reorg_ := operations_since_reorg_ s;
     last_reorg_time_ := last_reorg_time_ s;
     data_store_ := data_store_ s; metadata_store_ := metadata_store_ s;
     write_buffer_ := write_buffer_ s;
     write_buffer_current_size_ := write_buffer_current_size_ s |}.

Definition with_total_accesses (n : N) (s : state) : state :=
  {| db_path_ := db_path_ s; config_ := config_ s;
     total_accesses_ := n;
     operations_since_reorg_ := operations_since_reorg_ s;
     last_reorg_time_ := last_reorg_time_ s;
     data_store_ := data_store_ s; metadata_store_ := metadata_store_ s;
     write_buffer_ := write_buffer_ s;
     write_buffer_current_size_ := write_buffer_current_size_ s |}.

Definition with_operations_since_reorg (n : N) (s : state) : state :=
  {| db_path_ := db_path_ s; config_ := config_ s;
     total_accesses_ := total_accesses_ s;
     operations_since_reorg_ := n;
     last_reorg_time_ := last_reorg_time_ s;
     data_store_ := data_store_ s; metadata_store_ := metadata_store_ s;
     write_buffer_ := write_buffer_ s;
     write_buffer_current_size_ := write_buffer_current_size_ s |}.

Definition with_last_reorg_time (n : N) (s : state) : state :=
  {| db_path_ := db_path_ s; config_ := config_ s;
     total_accesses_ := total_accesses_ s;
     operations_since_reorg_ := operations_since_reorg_ s;
     last_reorg_time_ := n;
     data_store_ := data_store_ s; metadata_store_ := metadata_store_ s;
     write_buffer_ := write_buffer_ s;
     write_buffer_current_size_ := write_buffer_current_size_ s |}.

Definition with_data_store (m : StdMap.t string bytes) (s : state) : state :=
  {| db_path_ := db_path_ s; config_ := config_ s;
     total_accesses_ := total_accesses_ s;
     operations_since_reorg_ := operations_since_reorg_ s;
     last_reorg_time_ := last_reorg_time_ s;
     data_store_ := m; metadata_store_ := metadata_store_ s;
     write_buffer_ := write_buffer_ s;
     write_buffer_current_size_ := write_buffer_current_size_ s |}.

Definition with_metadata_store
    (m : StdMap.t string NodeMetadata) (s : state) : state :=
  {| db_path_ := db_path_ s; config_ := config_ s;
     total_accesses_ := total_accesses_ s;
     operations_since_reorg_ := operations_since_reorg_ s;
     last_reorg_time_ := last_reorg_time_ s;
     data_store_ := data_store_ s; metadata_store_ := m;
     write_buffer_ := write_buffer_ s;
     write_buffer_current_size_ := write_buffer_current_size_ s |}.

Definition with_write_buffer
    (m : StdMap.t string bytes) (n : N) (s : state) : state :=
  {| db_path_ := db_path_ s; config_ := config_ s;
     total_accesses_ := total_accesses_ s;
     operations_since_reorg_ := operations_since_reorg_ s;
     last_reorg_time_ := last_reorg_time_ s;
     data_store_ := data_store_ s; metadata_store_ := metadata_store_ s;
     write_buffer_ := m;
     write_buffer_current_size_ := n |}.

(** A [NodeMetadata] after a read hit: [access_count++], [last_access]
    stamped. *)
Definition touched (now : N) (m : NodeMetadata) : NodeMetadata :=
  {| access_count := wrap64 (access_count m + 1);
     last_access := now;
     tier := tier m; algorithm := algorithm m;
     original_size := original_size m;
     compressed_size := compressed_size m |}.

(** A [NodeMetadata] after reorganization rewrote its blob. *)
Definition retiered (t : CompressionTier) (a : CompressionAlgo) (csize : N)
    (m : NodeMetadata) : NodeMetadata :=
  {| access_count := access_count m;
     last_access := last_access m;
     tier := t; algorithm := a;
     original_size := original_size m;
     compressed_size := csize |}.

(** ** Persistence *)

Definition get_size_on_disk (s : state) : N :=
  let d := db_path_ s in
  wrap64
    (match data_db d with Some recs => data_db_size recs | None => 0 end
     + match metadata_db d with Some img => metadata_db_size img | None => 0 end
     + other_files d).

(** [data.db] after [save_to_disk], as the entries it holds. The length
    fields of a record are [uint32_t]: the file gives the entries of the
    data map back when every key and blob is shorter than 2^32 bytes
    ([DiskImage.fits]), the case the theorems that read an image back
    assume; [DiskImage] has the bytes. *)
Definition save_to_disk (s : state) : state :=
  with_disk
    {| data_db := Some (data_store_ s);
       metadata_db := metadata_db (db_path_ s);
       other_files := other_files (db_path_ s) |} s.

Definition save_metadata (s : state) : state :=
  with_disk
    {| data_db := data_db (db_path_ s);
       metadata_db :=
         Some {| img_total_accesses := total_accesses_ s;
                 img_operations_since_reorg := operations_since_reorg_ s;
                 img_last_reorg_time := last_reorg_time_ s;
                 img_entries := metadata_store_ s |};
       other_files := other_files (db_path_ s) |} s.

Definition load_from_disk (s : state) : state :=
  match data_db (db_path_ s) with
  | None => s
  | Some recs =>
      with_data_store
        (fold_left (fun m kv => StdMap.insert (fst kv) (snd kv) m)
                   recs (data_store_ s)) s
  end.

Definition load_metadata (s : state) : state :=
  match metadata_db (db_path_ s) with
  | None => s
  | Some img =>
      with_metadata_store
        (fold_left (fun m kv => StdMap.insert (fst kv) (snd kv) m)
                   (img_entries img) (metadata_store_ s))
        (with_last_reorg_time (img_last_reorg_time img)
           (with_operations_since_reorg (img_operations_since_reorg img)
              (with_total_accesses (img_total_accesses img) s)))
  end.

(** The constructor: open the directory [dir] under [config]. *)
Definition open (dir : Disk) (config : DbConfig) (now : N) : state :=
  load_metadata
    (load_from_disk
       {| db_path_ := dir; config_ := config;
          total_accesses_ := 0;
          operations_since_reorg_ := 0;
          last_reorg_time_ := now;
          data_store_ := []; metadata_store_ := [];
          write_buffer_ := [];
          write_buffer_current_size_ := 0 |}).

Definition flush (s : state) : state :=
  match write_buffer_ s with
  | [] => s
  | buffered =>
      with_write_buffer [] 0
        (with_data_store
           (fold_left (fun m kv => StdMap.insert (fst kv) (snd kv) m)
                      buffered (data_store_ s)) s)
  end.

(** The destructor leaves this directory behind. *)
Definition close (s : state) : Disk :=
  db_path_ (save_metadata (save_to_disk (flush s))).

(** ** Tiering *)

Definition calculate_tier (s : state) (count : N) : CompressionTier :=
  if total_accesses_ s =? 0 then TIER_4
  else
    let frequency_ratio :=
      (double_of_N count / double_of_N (total_accesses_ s))%float in
    if (0.3 <? frequency_ratio)%float then TIER_0
    else if (0.15 <? frequency_ratio)%float then TIER_1
    else if (0.05 <? frequency_ratio)%float then TIER_2
    else if (0.01 <? frequency_ratio)%float then TIER_3
    else TIER_4.

Definition calculate_access_pattern_change (s : state) : float :=
  match metadata_store_ s with
  | [] => 0%float
  | _ =>
      (double_of_N (operations_since_reorg_ s)
       / double_of_N (StdMap.size (metadata_store_ s)))%float
  end.

Definition should_reorganize (s : state) (now : N) : bool :=
  match reorg_strategy (config_ s) with
  | MANUAL => false
  | EVERY_N_OPS =>
      reorg_operation_threshold (config_ s) <=? operations_since_reorg_ s
  | PERIODIC =>
      reorg_time_threshold (config_ s)
      <=? sub64 now (last_reorg_time_ s)
  | ADAPTIVE =>
      (reorg_change_threshold (config_ s)
       <=? calculate_access_pattern_change s)%float
  end.

Section WithLibraries.
Variable lib : CodecLib.
(** [std::sort(first, last, comp)] on the eviction candidates. *)
Variable std_sort :
  (string * N -> string * N -> bool) -> list (string * N) -> list (string * N).

Definition compress (s : state) (data : bytes) (t : CompressionTier) : bytes :=
  let tier_config := tier_configs (config_ s) t in
  match compress_fn tier_config with
  | Some f => f data
  | None => compress_with_algo lib data (tier_algorithm tier_config)
  end.

Definition decompress
    (data : bytes) (algo : CompressionAlgo) (original_size : N) : bytes :=
  decompress_with_algo lib data algo original_size.

(** One turn of the loop of [reorganize]: the entry [(key, metadata)]
    against the data store. *)
Definition reorganize_entry (s : state) (key : string)
    (metadata : NodeMetadata) (store : StdMap.t string bytes)
    : NodeMetadata * StdMap.t string bytes :=
  let new_tier := calculate_tier s (access_count metadata) in
  let new_algo := tier_algorithm (tier_configs (config_ s) new_tier) in
  if negb (CompressionTier_eqb new_tier (tier metadata))
     || negb (CompressionAlgo_eqb new_algo (algorithm metadata))
  then
    match StdMap.find key store with
    | Some blob =>
        let decompressed :=
          if compression_enabled (config_ s)
          then decompress blob (algorithm metadata) (original_size metadata)
          else blob in
        let recompressed :=
          if compression_enabled (config_ s)
          then compress_with_algo lib decompressed new_algo
          else decompressed in
        (retiered new_tier new_algo (size_of recompressed) metadata,
         StdMap.insert key recompressed store)
    | None => (metadata, store)
    end
  else (metadata, store).

Fixpoint reorganize_loop (s : state)
    (entries : list (string * NodeMetadata)) (store : StdMap.t string bytes)
    : list (string * NodeMetadata) * StdMap.t string bytes :=
  match entries with
  | [] => ([], store)
  | (key, metadata) :: rest =>
      let '(metadata', store') := reorganize_entry s key metadata store in
      let '(rest', store'') := reorganize_loop s rest store' in
      ((key, metadata') :: rest', store'')
  end.

(** [old_access_counts] is built and never read; it is left out. The
    images are written before the counters are reset, as in the source. *)
Definition reorganize (s : state) (now : N) : state :=
  let '(entries, store) :=
    reorganize_loop s (metadata_store_ s) (data_store_ s) in
  let s1 := with_metadata_store entries (with_data_store store s) in
  let s2 := save_metadata (save_to_disk s1) in
  with_last_reorg_time now (with_operations_since_reorg 0 s2).

Definition check_reorganization_trigger (s : state) (now : N) : state :=
  if should_reorganize s now then reorganize s now else s.

Definition after_operation (s : state) (now : N) : state :=
  check_reorganization_trigger
    (with_operations_since_reorg
       (wrap64 (operations_since_reorg_ s + 1)) s) now.

(** ** Eviction *)

Definition erase_everywhere (s : state) (key : string) : state :=
  with_write_buffer
    (StdMap.erase key (write_buffer_ s)) (write_buffer_current_size_ s)
    (with_metadata_store (StdMap.erase key (metadata_store_ s))
       (with_data_store (StdMap.erase key (data_store_ s)) s)).

(** The comparator of the [std::sort] call: [a.second < b.second]. *)
Definition colder (a b : string * N) : bool := snd a <? snd b.

Definition eviction_candidates (s : state) : list (string * N) :=
  map (fun kv => (fst kv, access_count (snd kv))) (metadata_store_ s).

Definition delete_count (items : list (string * N)) : N :=
  N.max (size_of items / 10) 1.

(** The keys [delete_coldest_data] erases, in order. The loop bound
    [i < delete_count && i < items.size()] is [firstn]. *)
Definition coldest_keys (s : state) : list string :=
  let items := std_sort colder (eviction_candidates s) in
  map fst (firstn (N.to_nat (delete_count items)) items).

Definition delete_coldest_data (s : state) : state :=
  save_metadata
    (save_to_disk (fold_left erase_everywhere (coldest_keys s) s)).

Definition check_size_limit (s : state) : state :=
  let current_size := get_size_on_disk s in
  if max_size_bytes (config_ s) <? current_size then
    if allow_deletion (config_ s) then delete_coldest_data s
    else s
  else s.

(** ** Public operations *)

Definition insert_binary
    (s : state) (now : N) (key : string) (data : bytes) : state :=
  let t := TIER_4 in
  let algo := tier_algorithm (tier_configs (config_ s) t) in
  let compressed :=
    if compression_enabled (config_ s) then compress s data t else data in
  let metadata :=
    {| access_count := 0; last_access := now;
       tier := t; algorithm := algo;
       original_size := size_of data;
       compressed_size := size_of compressed |} in
  let s1 :=
    if lazy_persistence (config_ s) then
      let s' :=
        with_write_buffer
          (StdMap.insert key compressed (write_buffer_ s))
          (wrap64 (write_buffer_current_size_ s + size_of compressed)) s in
      if write_buffer_size (config_ s) <=? write_buffer_current_size_ s'
      then flush s' else s'
    else with_data_store (StdMap.insert key compressed (data_store_ s)) s in
  let s2 :=
    with_metadata_store (StdMap.insert key metadata (metadata_store_ s1)) s1 in
  after_operation (check_size_limit s2) now.

(** A miss returns before the post-operation hook. On a hit the source
    reads [meta_it->second] whether or not [meta_it] is [end()]. *)
Definition get_binary (s : state) (now : N) (key : string)
    : outcome (option bytes * state) :=
  let s1 :=
    match StdMap.find key (write_buffer_ s) with
    | Some _ => flush s
    | None => s
    end in
  match StdMap.find key (data_store_ s1) with
  | None => Ok (None, s1)
  | Some compressed =>
      match StdMap.find key (metadata_store_ s1) with
      | Some m =>
          let metadata := touched now m in
          let s2 :=
            with_total_accesses (wrap64 (total_accesses_ s1 + 1))
              (with_metadata_store
                 (StdMap.insert key metadata (metadata_store_ s1)) s1) in
          let decompressed :=
            if compression_enabled (config_ s2)
            then decompress compressed
                   (algorithm metadata) (original_size metadata)
            else compressed in
          Ok (Some decompressed, after_operation s2 now)
      | None => Undefined
      end
  end.

Definition remove (s : state) (now : N) (key : string) : bool * state :=
  let found := StdMap.mem key (data_store_ s) in
  (found, after_operation (erase_everywhere s key) now).

Definition get_metadata (s : state) (key : string) : option NodeMetadata :=
  StdMap.find key (metadata_store_ s).

(** The blob a read of [key] would decode: the buffered one if any
    (the read flushes first), else the one in the data map. *)
Definition stored_blob (s : state) (key : string) : option bytes :=
  match StdMap.find key (write_buffer_ s) with
  | Some b => Some b
  | None => StdMap.find key (data_store_ s)
  end.
End WithLibraries.

End DigestiveDatabase.

(* ================================================================== *)
(** * The chunked blob layer: [ChunkingEngine] *)

Module ChunkingEngine.

Record ChunkMetadata := {
  chunk_id : N;
  heat : float;
  compressed_size : N;
  original_size : N;
  file_offset : N;
  tier : N;              (* uint8_t *)
  last_access : N
}.

Record ChunkedFileMetadata := {
  key : string;
  total_size : N;
  chunk_size : N;
  num_chunks : N;        (* uint32_t *)
  chunks : StdMap.t N ChunkMetadata
}.

(** The engine and the part of the file system it owns: the chunk files by
    path, and [chunk_metadata.db] as the index it encodes. Opening a chunk
    file for writing is taken to succeed. *)
Record state := {
  storage_path_ : string;
  chunks_dir_ : string;
  default_chunk_size_ : N;
  file_metadata_ : StdMap.t string ChunkedFileMetadata;
  chunk_files : StdMap.t string bytes;
  chunk_metadata_db : option (list (string * ChunkedFileMetadata))
}.

Definition with_file_metadata
    (m : StdMap.t string ChunkedFileMetadata) (e : state) : state :=
  {| storage_path_ := storage_path_ e; chunks_dir_ := chunks_dir_ e;
     default_chunk_size_ := default_chunk_size_ e;
     file_metadata_ := m;
     chunk_files := chunk_files e;
     chunk_metadata_db := chunk_metadata_db e |}.

Definition with_chunk_files (f : StdMap.t string bytes) (e : state) : state :=
  {| storage_path_ := storage_path_ e; chunks_dir_ := chunks_dir_ e;
     default_chunk_size_ := default_chunk_size_ e;
     file_metadata_ := file_metadata_ e;
     chunk_files := f;
     chunk_metadata_db := chunk_metadata_db e |}.

Definition save_metadata (e : state) : state :=
  {| storage_path_ := storage_path_ e; chunks_dir_ := chunks_dir_ e;
     default_chunk_size_ := default_chunk_size_ e;
     file_metadata_ := file_metadata_ e;
     chunk_files := chunk_files e;
     chunk_metadata_db := Some (file_metadata_ e) |}.

Definition load_metadata (e : state) : state :=
  match chunk_metadata_db e with
  | None => e
  | Some files =>
      with_file_metadata
        (fold_left (fun m kv => StdMap.insert (fst kv) (snd kv) m)
                   files (file_metadata_ e)) e
  end.

(** The constructor, over what the storage directory already holds. *)
Definition create (storage_path : string) (default_chunk_size : N)
    (files : StdMap.t string bytes)
    (index : option (list (string * ChunkedFileMetadata))) : state :=
  load_metadata
    {| storage_path_ := storage_path;
       chunks_dir_ := (storage_path ++ "/chunks")%string;
       default_chunk_size_ := default_chunk_size;
       file_metadata_ := [];
       chunk_files := files;
       chunk_metadata_db := index |}.

(** ** [std::to_string] on an unsigned integer *)

Definition digit_char (d : N) : ascii := ascii_of_N (48 + d).

Fixpoint to_string_from (fuel : nat) (n : N) (acc : string) : string :=
  let acc' := String (digit_char (n mod 10)) acc in
  match fuel with
  | O => acc'
  | S fuel' => if n / 10 =? 0 then acc' else to_string_from fuel' (n / 10) acc'
  end.

(** Twenty digits cover every [uint64_t]. *)
Definition to_string (n : N) : string := to_string_from 19 n EmptyString.

(** [std::string(count, ch)]. *)
Fixpoint string_of_char (count : nat) (ch : ascii) : string :=
  match count with
  | O => EmptyString
  | S c => String ch (string_of_char c ch)
  end.

(** [3 - std::to_string(chunk_id).length()] is a [size_t]: past three
    digits it wraps to a count above [max_size()], and the fill constructor
    of [std::string] throws [std::length_error]. *)
Definition get_chunk_path (e : state) (key : string) (chunk_id : N)
    : outcome string :=
  let digits := to_string chunk_id in
  if (String.length digits <=? 3)%nat then
    Ok (chunks_dir_ e ++ "/" ++ key ++ "/chunk_"
        ++ string_of_char (3 - String.length digits) "0"%char
        ++ digits ++ ".bin")%string
  else Throws "std::length_error"%string.

Definition calculate_tier_from_heat (h : float) : N :=
  if (0.7 <? h)%float then 0
  else if (0.4 <? h)%float then 1
  else if (0.2 <? h)%float then 2
  else if (0.1 <? h)%float then 3
  else 4.

(** [std::min(1.0, h)]: [(h < 1.0) ? h : 1.0]. *)
Definition min_one (h : float) : float :=
  if (h <? 1)%float then h else 1%float.

(** ** Insert *)

(** [data[from, from + len)]. *)
Definition slice (data : bytes) (from len : N) : bytes :=
  firstn (N.to_nat len) (skipn (N.to_nat from) data).

Definition fresh_chunk (i csize osize : N) : ChunkMetadata :=
  {| chunk_id := i; heat := 0.1%float;
     compressed_size := csize; original_size := osize;
     file_offset := 0; tier := 4; last_access := 0 |}.

(** The loop of [insert_chunked] from index [i], [count] turns to go;
    [i] stays below [num_chunks], a [uint32_t]. *)
Fixpoint insert_chunks (e : state) (k : string) (data : bytes)
    (compress_fn : bytes -> N -> bytes) (count : nat) (i : N)
    (files : StdMap.t string bytes) (cs : StdMap.t N ChunkMetadata)
    : outcome (StdMap.t string bytes * StdMap.t N ChunkMetadata) :=
  match count with
  | O => Ok (files, cs)
  | S count' =>
      let offset := wrap64 (i * default_chunk_size_ e) in
      let chunk_data_size :=
        N.min (default_chunk_size_ e) (sub64 (size_of data) offset) in
      let chunk_data := slice data offset chunk_data_size in
      let compressed := compress_fn chunk_data 4 in
      let chunk_meta := fresh_chunk i (size_of compressed) chunk_data_size in
      chunk_path <- get_chunk_path e k i ;;
      insert_chunks e k data compress_fn count' (i + 1)
        (StdMap.insert chunk_path compressed files)
        (StdMap.insert i chunk_meta cs)
  end.

(** Division by a zero [default_chunk_size_] is undefined. An exception
    from [get_chunk_path] leaves the index as it was. *)
Definition insert_chunked (e : state) (k : string) (data : bytes)
    (compress_fn : bytes -> N -> bytes) : outcome state :=
  if default_chunk_size_ e =? 0 then Undefined
  else
    let n :=
      wrap32 (wrap64 (size_of data + default_chunk_size_ e - 1)
              / default_chunk_size_ e) in
    r <- insert_chunks e k data compress_fn (N.to_nat n) 0 (chunk_files e) [] ;;
    let file_meta :=
      {| key := k; total_size := size_of data;
         chunk_size := default_chunk_size_ e;
         num_chunks := n; chunks := snd r |} in
    Ok (save_metadata
          (with_file_metadata (StdMap.insert k file_meta (file_metadata_ e))
             (with_chunk_files (fst r) e))).

(** ** Range read *)

Definition heated (now : N) (c : ChunkMetadata) : ChunkMetadata :=
  {| chunk_id := chunk_id c;
     heat := min_one (heat c + 0.1)%float;
     compressed_size := compressed_size c;
     original_size := original_size c;
     file_offset := file_offset c;
     tier := tier c;
     last_access := now |}.

(** The loop of [get_chunk_range] from index [i], [count] turns to go. *)
Fixpoint read_chunks (e : state) (now : N) (k : string)
    (decompress_fn : bytes -> N -> N -> bytes) (count : nat) (i : N)
    (cs : StdMap.t N ChunkMetadata) (result : bytes)
    : outcome (bytes * StdMap.t N ChunkMetadata) :=
  match count with
  | O => Ok (result, cs)
  | S count' =>
      match StdMap.find i cs with
      | None => read_chunks e now k decompress_fn count' (i + 1) cs result
      | Some chunk_meta =>
          chunk_path <- get_chunk_path e k i ;;
          match StdMap.find chunk_path (chunk_files e) with
          | None => read_chunks e now k decompress_fn count' (i + 1) cs result
          | Some content =>
              let compressed :=
                filled_buffer (compressed_size chunk_meta) content in
              let decompressed :=
                decompress_fn compressed (tier chunk_meta)
                              (original_size chunk_meta) in
              read_chunks e now k decompress_fn count' (i + 1)
                (StdMap.insert i (heated now chunk_meta) cs)
                (result ++ decompressed)
          end
      end
  end.

(** Turns of [for (i = start_chunk; i <= end_chunk; i++)]. *)
Definition turns (start_chunk end_chunk : N) : nat :=
  if start_chunk <=? end_chunk
  then N.to_nat (end_chunk - start_chunk + 1) else O.

Definition get_chunk_range (e : state) (now : N) (k : string)
    (start_chunk end_chunk : N)
    (decompress_fn : bytes -> N -> N -> bytes)
    : outcome (option bytes * state) :=
  match StdMap.find k (file_metadata_ e) with
  | None => Ok (None, e)
  | Some file_meta =>
      if (num_chunks file_meta <=? start_chunk)
         || (num_chunks file_meta <=? end_chunk)
      then Ok (None, e)
      else
        r <- read_chunks e now k decompress_fn
               (turns start_chunk end_chunk) start_chunk
               (chunks file_meta) [] ;;
        let file_meta' :=
          {| key := key file_meta; total_size := total_size file_meta;
             chunk_size := chunk_size file_meta;
             num_chunks := num_chunks file_meta; chunks := snd r |} in
        Ok (Some (fst r),
            with_file_metadata
              (StdMap.insert k file_meta' (file_metadata_ e)) e)
  end.

Definition get_full_file (e : state) (now : N) (k : string)
    (decompress_fn : bytes -> N -> N -> bytes)
    : outcome (option bytes * state) :=
  match StdMap.find k (file_metadata_ e) with
  | None => Ok (None, e)
  | Some file_meta =>
      get_chunk_range e now k 0
        (wrap32 (num_chunks file_meta + (2 ^ 32 - 1))) decompress_fn
  end.

Definition get_metadata (e : state) (k : string) : option ChunkedFileMetadata :=
  StdMap.find k (file_metadata_ e).

(** [fs::remove_all] of the key's directory, then the index entry. *)
Definition remove_chunked (e : state) (k : string) : bool * state :=
  match StdMap.find k (file_metadata_ e) with
  | None => (false, e)
  | Some _ =>
      let dir := (chunks_dir_ e ++ "/" ++ k ++ "/")%string in
      (true,
       save_metadata
         (with_file_metadata (StdMap.erase k (file_metadata_ e))
            (with_chunk_files
               (filter (fun pf => negb (String.prefix dir (fst pf)))
                       (chunk_files e)) e)))
  end.

(** ** Heat *)

Definition with_heat (h : float) (c : ChunkMetadata) : ChunkMetadata :=
  {| chunk_id := chunk_id c; heat := h;
     compressed_size := compressed_size c;
     original_size := original_size c;
     file_offset := file_offset c;
     tier := tier c;
     last_access := last_access c |}.

Definition with_chunks (cs : StdMap.t N ChunkMetadata)
    (file_meta : ChunkedFileMetadata) : ChunkedFileMetadata :=
  {| key := key file_meta; total_size := total_size file_meta;
     chunk_size := chunk_size file_meta;
     num_chunks := num_chunks file_meta; chunks := cs |}.

Definition update_chunk_heat (e : state) (k : string) (id : N)
    (heat_increment : float) : state :=
  match StdMap.find k (file_metadata_ e) with
  | None => e
  | Some file_meta =>
      match StdMap.find id (chunks file_meta) with
      | None => e
      | Some chunk_meta =>
          let chunk_meta' :=
            with_heat (min_one (heat chunk_meta + heat_increment)%float)
                      chunk_meta in
          with_file_metadata
            (StdMap.insert k
               (with_chunks (StdMap.insert id chunk_meta' (chunks file_meta))
                            file_meta)
               (file_metadata_ e)) e
      end
  end.

(** One chunk under [decay_all_chunks]: the heat is scaled and the tier
    follows it; the chunk file is not rewritten. *)
Definition decayed (decay_factor : float) (c : ChunkMetadata) : ChunkMetadata :=
  let h := (heat c * decay_factor)%float in
  let new_tier := calculate_tier_from_heat h in
  {| chunk_id := chunk_id c; heat := h;
     compressed_size := compressed_size c;
     original_size := original_size c;
     file_offset := file_offset c;
     tier := if new_tier =? tier c then tier c else new_tier;
     last_access := last_access c |}.

Definition decay_all_chunks (e : state) (decay_factor : float) : state :=
  with_file_metadata
    (map (fun kf =>
            (fst kf,
             with_chunks
               (map (fun ic => (fst ic, decayed decay_factor (snd ic)))
                    (chunks (snd kf)))
               (snd kf)))
         (file_metadata_ e)) e.

(** [num_chunks] as [insert_chunked] computes it for [data]. *)
Definition chunk_count (e : state) (data : bytes) : N :=
  wrap32 (wrap64 (size_of data + default_chunk_size_ e - 1)
          / default_chunk_size_ e).

End ChunkingEngine.

(* ================================================================== *)
(** * Laws, invariants and stand-ins for the external libraries *)

(** A strict total order on keys, as [std::less] is on [std::string] and
    on [uint32_t]. *)
Class OrdLaws (K : Type) `{Ord K} : Prop := {
  compare_eq : forall a b : K, key_compare a b = Eq <-> a = b;
  compare_antisym : forall a b : K, key_compare a b = CompOpp (key_compare b a);
  compare_lt_trans : forall a b c : K,
    key_compare a b = Lt -> key_compare b c = Lt -> key_compare a c = Lt
}.

(** The three maps of the store are ordered by key, and only a store
    configured with [lazy_persistence] stages writes in the buffer. *)
Definition well_formed (s : DigestiveDatabase.state) : Prop :=
  StdMap.sorted (DigestiveDatabase.data_store_ s) = true
  /\ StdMap.sorted (DigestiveDatabase.metadata_store_ s) = true
  /\ StdMap.sorted (DigestiveDatabase.write_buffer_ s) = true
  /\ (DigestiveDatabase.lazy_persistence (DigestiveDatabase.config_ s) = false ->
      DigestiveDatabase.write_buffer_ s = []).

(** An entry [reorganize] passes over: its tier and algorithm are already
    the ones its access count asks for. *)
Definition settled (s : DigestiveDatabase.state)
    (m : DigestiveDatabase.NodeMetadata) : Prop :=
  DigestiveDatabase.tier m
  = DigestiveDatabase.calculate_tier s (DigestiveDatabase.access_count m)
  /\ DigestiveDatabase.algorithm m
     = DigestiveDatabase.tier_algorithm
         (DigestiveDatabase.tier_configs (DigestiveDatabase.config_ s)
            (DigestiveDatabase.calculate_tier s
               (DigestiveDatabase.access_count m))).

(** The store once [after_operation] has counted the call. *)
Definition counted (s : DigestiveDatabase.state) : DigestiveDatabase.state :=
  DigestiveDatabase.with_operations_since_reorg
    (wrap64 (DigestiveDatabase.operations_since_reorg_ s + 1)) s.

(** The bytes [insert_binary] stores for [data], and the record it
    installs beside them. *)
Definition encoded (lib : CodecLib) (s : DigestiveDatabase.state)
    (data : bytes) : bytes :=
  if DigestiveDatabase.compression_enabled (DigestiveDatabase.config_ s)
  then DigestiveDatabase.compress lib s data TIER_4
  else data.

Definition fresh_metadata (lib : CodecLib) (s : DigestiveDatabase.state)
    (now : N) (data : bytes) : DigestiveDatabase.NodeMetadata :=
  {| DigestiveDatabase.access_count := 0;
     DigestiveDatabase.last_access := now;
     DigestiveDatabase.tier := TIER_4;
     DigestiveDatabase.algorithm :=
       DigestiveDatabase.tier_algorithm
         (DigestiveDatabase.tier_configs (DigestiveDatabase.config_ s) TIER_4);
     DigestiveDatabase.original_size := size_of data;
     DigestiveDatabase.compressed_size := size_of (encoded lib s data) |}.

(** Eviction does not fire on the next size check. *)
Definition within_limit (s : DigestiveDatabase.state) : Prop :=
  DigestiveDatabase.allow_deletion (DigestiveDatabase.config_ s) = false
  \/ DigestiveDatabase.get_size_on_disk s
     <= DigestiveDatabase.max_size_bytes (DigestiveDatabase.config_ s).

(** A map after [erase] of each key of a list in turn. *)
Definition erase_all {V} (ks : list string) (m : list (string * V))
  : list (string * V) :=
  fold_left (fun acc k => StdMap.erase k acc) ks m.

(** What [std::sort] guarantees for a comparator [comp]: the result is a
    rearrangement of the input in which no element is ordered before an
    earlier one. The order of equivalent elements is left open. *)
Definition sorts {A} (sort : (A -> A -> bool) -> list A -> list A)
    (comp : A -> A -> bool) : Prop :=
  forall l, Permutation (sort comp l) l
            /\ StronglySorted (fun a b => comp b a = false) (sort comp l).

(** libstdc++ sorts a range of up to sixteen elements by straight
    insertion, which keeps equivalent elements in their input order. *)
Fixpoint sort_insert {A} (comp : A -> A -> bool) (x : A) (l : list A) : list A :=
  match l with
  | [] => [x]
  | y :: l' => if comp x y then x :: y :: l' else y :: sort_insert comp x l'
  end.

Definition insertion_sort {A} (comp : A -> A -> bool) (l : list A) : list A :=
  fold_left (fun acc x => sort_insert comp x acc) l [].

(** A lossless stand-in for the LZ4 and ZSTD calls: the source behind a
    one-byte tag. *)
Definition framed (tag : Byte.byte) (src : bytes) : option bytes :=
  Some (tag :: src).

Definition unframed (tag : Byte.byte) (src : bytes) (capacity : N)
    : option bytes :=
  match src with
  | t :: rest =>
      if Byte.eqb t tag && (size_of rest <=? capacity) then Some rest else None
  | [] => None
  end.

Definition framing_lib : CodecLib :=
  {| LZ4_compress_default := framed Byte.x01;
     LZ4_compress_HC := framed Byte.x01;
     ZSTD_compress := fun _ => framed Byte.x02;
     LZ4_decompress_safe := unframed Byte.x01;
     ZSTD_decompress := unframed Byte.x02 |}.

(** What the caller gets back, without the state. *)
Definition returned {A S} (r : outcome (A * S)) : outcome A :=
  match r with
  | Ok (a, _) => Ok a
  | Throws w => Throws w
  | Undefined => Undefined
  end.

(** ** The eviction order as the specification words it *)

(** "Sort keys by ascending [access_count]; ties break by [last_access]
    ascending, then by key lexicographically". *)
Definition spec_colder
    (a b : string * DigestiveDatabase.NodeMetadata) : bool :=
  let ma := snd a in
  let mb := snd b in
  if DigestiveDatabase.access_count ma <? DigestiveDatabase.access_count mb
  then true
  else if DigestiveDatabase.access_count mb <? DigestiveDatabase.access_count ma
  then false
  else if DigestiveDatabase.last_access ma <? DigestiveDatabase.last_access mb
  then true
  else if DigestiveDatabase.last_access mb <? DigestiveDatabase.last_access ma
  then false
  else String.ltb (fst a) (fst b).

(** "... and delete the coldest [max(1, |keys|/10)]". *)
Definition spec_coldest_keys (s : DigestiveDatabase.state) : list string :=
  let entries := DigestiveDatabase.metadata_store_ s in
  map fst
    (firstn (N.to_nat (N.max (size_of entries / 10) 1))
            (insertion_sort spec_colder entries)).

(** ** The chunk file name as the specification words it *)

(** "[chunk_NNN.bin] where [NNN] is the decimal chunk id zero-padded to
    three digits". *)
Definition spec_chunk_file_name (id : N) : string :=
  ("chunk_"
   ++ String (ChunkingEngine.digit_char (id / 100))
        (String (ChunkingEngine.digit_char (id / 10 mod 10))
           (String (ChunkingEngine.digit_char (id mod 10)) EmptyString))
   ++ ".bin")%string.

(** The chunk id a three-digit chunk file name carries. *)
Definition digit_value (c : ascii) : N := N_of_ascii c - 48.

Definition chunk_id_of_name (name : string) : N :=
  match name with
  | String _ (String _ (String _ (String _ (String _ (String _
      (String a (String b (String c _)))))))) =>
      100 * digit_value a + 10 * digit_value b + digit_value c
  | _ => 0
  end.

(** ** Chunk geometry *)

(** The [count] chunk ids from [i] on. *)
Fixpoint chunk_ids (i : N) (count : nat) : list N :=
  match count with
  | O => []
  | S count' => i :: chunk_ids (i + 1) count'
  end.

(** The plaintext of chunk [i] as [insert_chunked] cuts it. *)
Definition chunk_data_size (e : ChunkingEngine.state) (data : bytes) (i : N) : N :=
  N.min (ChunkingEngine.default_chunk_size_ e)
        (sub64 (size_of data) (wrap64 (i * ChunkingEngine.default_chunk_size_ e))).

Definition chunk_data (e : ChunkingEngine.state) (data : bytes) (i : N) : bytes :=
  ChunkingEngine.slice data
    (wrap64 (i * ChunkingEngine.default_chunk_size_ e))
    (chunk_data_size e data i).

(** [num_chunks] of the index entry of [k]; zero without one. *)
Definition stored_num_chunks (e : ChunkingEngine.state) (k : string) : N :=
  match ChunkingEngine.get_metadata e k with
  | Some file_meta => ChunkingEngine.num_chunks file_meta
  | None => 0
  end.

(** Whether [get_chunk_path] pads the id of a chunk to the three digits
    the specification names. *)
Definition three_digit_name (id : N) : bool :=
  let digits := ChunkingEngine.to_string id in
  (String.length digits <=? 3)%nat
  && String.eqb
       ("chunk_"
        ++ ChunkingEngine.string_of_char (3 - String.length digits) "0"%char
        ++ digits ++ ".bin")%string
       (spec_chunk_file_name id)
  && (chunk_id_of_name (spec_chunk_file_name id) =? id).

(** ** Scenarios *)

Module Scenario.
Import DigestiveDatabase.

Definition put := insert_binary framing_lib (@insertion_sort (string * N)).
Definition fetch := get_binary framing_lib.
Definition drop := remove framing_lib.

Definition after {A} (r : outcome (A * state)) (s : state) : state :=
  match r with
  | Ok (_, s') => s'
  | _ => s
  end.

(** Deletion allowed, a zero size limit, reorganization (and with it a
    write of both images) after every operation. *)
Definition tight_config : DbConfig :=
  {| allow_deletion := true;
     max_size_bytes := 0;
     compression_enabled := true;
     tier_configs := default_tier_configs;
     reorg_strategy := EVERY_N_OPS;
     reorg_operation_threshold := 1;
     reorg_time_threshold := 300;
     reorg_change_threshold := 0.2%float;
     lazy_persistence := false;
     write_buffer_size := 10 * 1024 * 1024;
     use_mmap := false |}.

(** A fresh store under [tight_config] after one insert of key ["a"]. *)
Definition tight_one : state :=
  put (open empty_dir tight_config 0) 0 "a"%string [Byte.x41].

(** Manual reorganization, writes staged in the buffer. *)
Definition lazy_config : DbConfig :=
  {| allow_deletion := false;
     max_size_bytes := SIZE_MAX;
     compression_enabled := true;
     tier_configs := default_tier_configs;
     reorg_strategy := MANUAL;
     reorg_operation_threshold := 100;
     reorg_time_threshold := 300;
     reorg_change_threshold := 0.2%float;
     lazy_persistence := true;
     write_buffer_size := 10 * 1024 * 1024;
     use_mmap := false |}.

Definition lazy_one : state :=
  put (open empty_dir lazy_config 0) 0 "k"%string [Byte.x41].

(** Reorganization every [n] operations, everything else as shipped. *)
Definition every_n_config (n : N) (deletion : bool) (limit : N) : DbConfig :=
  {| allow_deletion := deletion;
     max_size_bytes := limit;
     compression_enabled := true;
     tier_configs := default_tier_configs;
     reorg_strategy := EVERY_N_OPS;
     reorg_operation_threshold := n;
     reorg_time_threshold := 300;
     reorg_change_threshold := 0.2%float;
     lazy_persistence := false;
     write_buffer_size := 10 * 1024 * 1024;
     use_mmap := false |}.

(** insert a; get a; insert b -- one operation short of a reorganization. *)
Definition warm_a_cold_b : state :=
  let s0 := open empty_dir (every_n_config 4 false SIZE_MAX) 0 in
  let s1 := put s0 1 "a"%string [Byte.x41] in
  let s2 := after (fetch s1 2 "a"%string) s1 in
  put s2 3 "b"%string [Byte.x42].

(** Two keys never read, written at different times; the second insert
    reorganizes and so writes both images, which puts the directory over
    the ten-byte limit. *)
Definition two_cold (first second : string) : state :=
  let s0 := open empty_dir (every_n_config 2 true 10) 0 in
  put (put s0 1 first [Byte.x41]) 5 second [Byte.x42].

(** Tier 4 bound to a pair of caller-supplied hooks: both reverse the
    bytes, so [decompress_fn] undoes [compress_fn]. *)
Definition hooked_tier_configs (t : CompressionTier) : TierConfig :=
  match t with
  | TIER_4 =>
      {| tier_algorithm := NONE;
         compress_fn := Some (@rev Byte.byte);
         decompress_fn := Some (fun data _ => rev data);
         allow_lossy := false |}
  | _ => default_tier_configs t
  end.

Definition hooked_config : DbConfig :=
  {| allow_deletion := false;
     max_size_bytes := SIZE_MAX;
     compression_enabled := true;
     tier_configs := hooked_tier_configs;
     reorg_strategy := MANUAL;
     reorg_operation_threshold := 100;
     reorg_time_threshold := 300;
     reorg_change_threshold := 0.2%float;
     lazy_persistence := false;
     write_buffer_size := 10 * 1024 * 1024;
     use_mmap := false |}.

(** A store directory holding [data.db] with one record and no
    [metadata.db]. *)
Definition orphan_dir : Disk :=
  {| data_db := Some [("a"%string, [Byte.x41])];
     metadata_db := None;
     other_files := 0 |}.

(** Chunks of one byte, stored as they are. *)
Definition plain_compress (data : bytes) (tier : N) : bytes := data.
Definition plain_decompress (data : bytes) (tier size : N) : bytes := data.

Definition tiny_engine : ChunkingEngine.state :=
  ChunkingEngine.create "db" 1 [] None.

Definition two_chunks : ChunkingEngine.state :=
  match ChunkingEngine.insert_chunked tiny_engine "k"
          [Byte.x41; Byte.x42] plain_compress with
  | Ok e => e
  | _ => tiny_engine
  end.
End Scenario.

(* ================================================================== *)
(** * The rest of the store's interface *)

Module StoreApi.
Import DigestiveDatabase.

Record DatabaseStats := {
  tier0_count : N;
  tier1_count : N;
  tier2_count : N;
  tier3_count : N;
  tier4_count : N;
  total_size : N;
  original_total_size : N;
  total_accesses : N;
  compression_ratio : float;
  operations_since_reorg : N
}.

(** One turn of the loop of [get_stats]. *)
Definition count_entry (stats : DatabaseStats) (metadata : NodeMetadata)
    : DatabaseStats :=
  let bump (t : CompressionTier) (n : N) : N :=
    if CompressionTier_eqb (tier metadata) t then wrap64 (n + 1) else n in
  {| tier0_count := bump TIER_0 (tier0_count stats);
     tier1_count := bump TIER_1 (tier1_count stats);
     tier2_count := bump TIER_2 (tier2_count stats);
     tier3_count := bump TIER_3 (tier3_count stats);
     tier4_count := bump TIER_4 (tier4_count stats);
     total_size := wrap64 (total_size stats + compressed_size metadata);
     original_total_size :=
       wrap64 (original_total_size stats + original_size metadata);
     total_accesses := total_accesses stats;
     compression_ratio := compression_ratio stats;
     operations_since_reorg := operations_since_reorg stats |}.

Definition get_stats (s : state) : DatabaseStats :=
  let zero :=
    {| tier0_count := 0; tier1_count := 0; tier2_count := 0;
       tier3_count := 0; tier4_count := 0;
       total_size := 0; original_total_size := 0;
       total_accesses := total_accesses_ s;
       compression_ratio := 1%float;
       operations_since_reorg := operations_since_reorg_ s |} in
  let stats :=
    fold_left (fun acc kv => count_entry acc (snd kv))
              (metadata_store_ s) zero in
  if 0 <? original_total_size stats then
    {| tier0_count := tier0_count stats; tier1_count := tier1_count stats;
       tier2_count := tier2_count stats; tier3_count := tier3_count stats;
       tier4_count := tier4_count stats;
       total_size := total_size stats;
       original_total_size := original_total_size stats;
       total_accesses := total_accesses stats;
       compression_ratio :=
         (double_of_N (original_total_size stats)
          / double_of_N (total_size stats))%float;
       operations_since_reorg := operations_since_reorg stats |}
  else stats.

(** "Total items" as [print_stats] prints it. *)
Definition total_items (stats : DatabaseStats) : N :=
  wrap64 (wrap64 (wrap64 (wrap64 (tier0_count stats + tier1_count stats)
                          + tier2_count stats)
                  + tier3_count stats)
          + tier4_count stats).

Section WithLibraries.
Variable lib : CodecLib.
Variable std_sort :
  (string * N -> string * N -> bool) -> list (string * N) -> list (string * N).

(** The string interface: the characters of the value are its bytes. *)
Definition insert (s : state) (now : N) (key value : string) : state :=
  insert_binary lib std_sort s now key (list_byte_of_string value).

Definition get (s : state) (now : N) (key : string)
    : outcome (option string * state) :=
  r <- get_binary lib s now key ;;
  Ok (option_map string_of_list_byte (fst r), snd r).

(** The store of [insert_binary] once blob and record are in place, before
    the size check and the post-operation hook. *)
Definition staged (s : state) (now : N) (key : string) (data : bytes) : state :=
  let s1 :=
    if lazy_persistence (config_ s) then
      let s' :=
        with_write_buffer
          (StdMap.insert key (encoded lib s data) (write_buffer_ s))
          (wrap64 (write_buffer_current_size_ s
                   + size_of (encoded lib s data))) s in
      if write_buffer_size (config_ s) <=? write_buffer_current_size_ s'
      then flush s' else s'
    else
      with_data_store
        (StdMap.insert key (encoded lib s data) (data_store_ s)) s in
  with_metadata_store
    (StdMap.insert key (fresh_metadata lib s now data) (metadata_store_ s1)) s1.

(** ** Sequences of calls *)

Inductive operation :=
| Insert (key : string) (data : bytes)
| Get (key : string)
| Remove (key : string)
| Flush
| Reorganize.

(** One call at clock reading [now]; the value a read returns is dropped. *)
Definition perform (s : state) (call : N * operation) : outcome state :=
  let now := fst call in
  match snd call with
  | Insert key data => Ok (insert_binary lib std_sort s now key data)
  | Get key => r <- get_binary lib s now key ;; Ok (snd r)
  | Remove key => Ok (snd (remove lib s now key))
  | Flush => Ok (flush s)
  | Reorganize => Ok (reorganize lib s now)
  end.

Fixpoint run (s : state) (calls : list (N * operation)) : outcome state :=
  match calls with
  | [] => Ok s
  | call :: rest => s' <- perform s call ;; run s' rest
  end.
End WithLibraries.

(** Whether a call writes or erases [key]. *)
Definition rewrites (key : string) (op : operation) : bool :=
  match op with
  | Insert k _ | Remove k => String.eqb k key
  | Get _ | Flush | Reorganize => false
  end.

(** Every key that has a blob, staged or not, has a metadata record. *)
Definition covered (s : state) : Prop :=
  forall k, stored_blob s k <> None -> get_metadata s k <> None.

(** What a read of [key] decodes its blob to. *)
Definition plaintext_of (lib : CodecLib) (s : state) (key : string)
    : option bytes :=
  match stored_blob s key, get_metadata s key with
  | Some blob, Some m =>
      Some (if compression_enabled (config_ s)
            then decompress lib blob (algorithm m) (original_size m)
            else blob)
  | _, _ => None
  end.

(** [key] decodes to [p] from a blob in the data map, the length of [p]
    is on record, and the store deletes nothing. *)
Definition keeps (lib : CodecLib) (s : state) (key : string) (p : bytes)
    : Prop :=
  well_formed s
  /\ allow_deletion (config_ s) = false
  /\ StdMap.find key (write_buffer_ s) = None
  /\ plaintext_of lib s key = Some p
  /\ exists m, get_metadata s key = Some m /\ original_size m = size_of p.

(** The built-in codecs give [data] back, whichever algorithm is asked
    for. *)
Definition round_trips (lib : CodecLib) (data : bytes) : Prop :=
  forall algo : CompressionAlgo,
    decompress_with_algo lib (compress_with_algo lib data algo) algo
      (size_of data) = data.
End StoreApi.

(* ================================================================== *)
(** * [data.db] byte by byte *)

Module DiskImage.

(** An unsigned integer as [width] bytes, least significant first: the
    object representation on the little-endian hosts the store is built
    for. *)
Definition byte_of_N (n : N) : Byte.byte :=
  match Byte.of_N (n mod 256) with
  | Some b => b
  | None => Byte.x00
  end.

Fixpoint le_bytes (width : nat) (n : N) : bytes :=
  match width with
  | O => []
  | S w => byte_of_N n :: le_bytes w (n / 256)
  end.

Fixpoint le_value (bs : bytes) : N :=
  match bs with
  | [] => 0
  | b :: bs' => Byte.to_N b + 256 * le_value bs'
  end.

(** What [save_to_disk] writes for one entry. [key.size()] and
    [value.size()] are narrowed to [uint32_t], and that many bytes of each
    are written. *)
Definition record_bytes (kv : string * bytes) : bytes :=
  let key_len := wrap32 (N.of_nat (String.length (fst kv))) in
  let value_len := wrap32 (size_of (snd kv)) in
  le_bytes 4 key_len
  ++ firstn (N.to_nat key_len) (list_byte_of_string (fst kv))
  ++ le_bytes 4 value_len
  ++ firstn (N.to_nat value_len) (snd kv).

(** The content of [data.db] after [save_to_disk]. *)
Definition data_db_image (store : StdMap.t string bytes) : bytes :=
  List.concat (map record_bytes store).

(** A [std::ifstream]: the bytes not yet read, and whether no read has
    failed so far. *)
Record istream := { unread : bytes; good : bool }.

(** [file.read(buffer, n)]: the bytes that reach the buffer, and the
    stream afterwards. A stream that has failed delivers nothing; a read
    past the end delivers what is left and fails the stream. *)
Definition read (n : N) (file : istream) : bytes * istream :=
  if good file then
    if n <=? size_of (unread file)
    then (firstn (N.to_nat n) (unread file),
          {| unread := skipn (N.to_nat n) (unread file); good := true |})
    else (unread file, {| unread := []; good := false |})
  else ([], file).

(** The loop of [load_from_disk]. [key] and [value] are zero-filled
    buffers of the announced length; [key_len] is tested by [if (!file)
    break], [value_len] is used as it is: where its read did not deliver
    four bytes, an uninitialised [uint32_t] sizes the vector. *)
Fixpoint load_records (fuel : nat) (file : istream)
    (store : StdMap.t string bytes) : outcome (StdMap.t string bytes) :=
  match fuel with
  | O => Ok store
  | S fuel' =>
      if good file then
        let r1 := read 4 file in
        if good (snd r1) then
          let key_len := le_value (fst r1) in
          let r2 := read key_len (snd r1) in
          let key := string_of_list_byte (filled_buffer key_len (fst r2)) in
          let r3 := read 4 (snd r2) in
          if size_of (fst r3) =? 4 then
            let value_len := le_value (fst r3) in
            let r4 := read value_len (snd r3) in
            load_records fuel' (snd r4)
              (StdMap.insert key (filled_buffer value_len (fst r4)) store)
          else Undefined
        else Ok store
      else Ok store
  end.

(** [load_from_disk] on a [data.db] holding [image]. Every turn of the
    loop but the last takes at least eight bytes off the stream, so the
    loop makes no more turns than the image has bytes, plus one. *)
Definition load_data_db (image : bytes) (store : StdMap.t string bytes)
    : outcome (StdMap.t string bytes) :=
  load_records (S (List.length image))
    {| unread := image; good := true |} store.

(** The record-level reading of the same file: one [data_store_[key] =
    value] per record. *)
Definition install (recs : list (string * bytes))
    (store : StdMap.t string bytes) : StdMap.t string bytes :=
  fold_left (fun m kv => StdMap.insert (fst kv) (snd kv) m) recs store.

(** Key and value lengths that fit the 32-bit length fields. *)
Definition fits (kv : string * bytes) : Prop :=
  N.of_nat (String.length (fst kv)) < 2 ^ 32 /\ size_of (snd kv) < 2 ^ 32.

End DiskImage.

(* ================================================================== *)
(** * More concrete stores *)

Module Cases.
Import DigestiveDatabase StoreApi Scenario.

(** A fresh store that reorganizes on every second counted call and
    deletes nothing. *)
Definition counting_store : state :=
  open empty_dir (every_n_config 2 false SIZE_MAX) 0.

(** insert a; get a; insert b. *)
Definition three_calls : list (N * operation) :=
  [(1, Insert "a" [Byte.x41]); (2, Get "a"); (3, Insert "b" [Byte.x42])].

(** Traffic that leaves key ["a"] alone but for reads. *)
Definition traffic : list (N * operation) :=
  [(4, Get "a"); (5, Insert "c" [Byte.x43]); (6, Flush);
   (7, Remove "b"); (8, Reorganize); (9, Get "c")].

(** The store of [warm_a_cold_b] after a read of ["b"]: the fourth
    counted call, which reorganizes. *)
Definition after_read_b : state :=
  Eval vm_compute in after (fetch warm_a_cold_b 4 "b") warm_a_cold_b.

(** Where [traffic] takes the store of [warm_a_cold_b]. *)
Definition after_traffic : state :=
  Eval vm_compute in
    match run framing_lib (@insertion_sort (string * N))
            warm_a_cold_b traffic with
    | Ok s' => s'
    | _ => warm_a_cold_b
    end.

(** [data.db] with the two entries of a sorted data map. *)
Definition two_records : list (string * bytes) :=
  [("a"%string, [Byte.x41]); ("b"%string, [])].

(** An engine whose chunk size is the largest [size_t], and what
    [insert_chunked] of two bytes makes of it. *)
Definition wide_engine : ChunkingEngine.state :=
  ChunkingEngine.create "db" (2 ^ 64 - 1) [] None.

Definition wide_inserted : ChunkingEngine.state :=
  match ChunkingEngine.insert_chunked wide_engine "k"
          [Byte.x41; Byte.x42] plain_compress with
  | Ok e => e
  | _ => wide_engine
  end.

(** A thousand and one bytes, for an engine with one-byte chunks. *)
Definition long_value : bytes := repeat Byte.x00 1001.

End Cases.

(* ================================================================== *)
(** * Key orders *)

#[global] Instance string_OrdLaws : OrdLaws string.
Proof.
  split.
  - exact String_as_OT.cmp_eq.
  - exact String_as_OT.cmp_antisym.
  - intros a b c Hab Hbc.
    apply String_as_OT.cmp_lt.
    apply String_as_OT.lt_trans with b; apply String_as_OT.cmp_lt; assumption.
Qed.

#[global] Instance N_OrdLaws : OrdLaws N.
Proof.
  split.
  - exact N.compare_eq_iff.
  - intros a b. exact (N.compare_antisym b a).
  - intros a b c Hab Hbc. unfold key_compare, N_Ord in *.
    rewrite N.compare_lt_iff in *. lia.
Qed.

(* ================================================================== *)
(** * Facts about [StdMap] *)

Section StdMapFacts.
Context {K V : Type} `{OrdLaws K}.
Implicit Types (k j : K) (v : V) (m : list (K * V)).

Lemma compare_refl k : key_compare k k = Eq.
Proof. apply compare_eq. reflexivity. Qed.

Lemma compare_gt_lt k j : key_compare k j = Gt -> key_compare j k = Lt.
Proof. intros Hgt. rewrite compare_antisym, Hgt. reflexivity. Qed.

Lemma find_insert_same k v m : StdMap.find k (StdMap.insert k v m) = Some v.
Proof.
  induction m as [|[k' v'] m IH]; simpl.
  - rewrite compare_refl. reflexivity.
  - destruct (key_compare k k') eqn:E; simpl.
    + rewrite compare_refl. reflexivity.
    + rewrite compare_refl. reflexivity.
    + rewrite E. exact IH.
Qed.

Lemma find_insert_other k j v m :
  k <> j -> StdMap.find j (StdMap.insert k v m) = StdMap.find j m.
Proof.
  intros Hne. induction m as [|[k' v'] m IH]; simpl.
  - destruct (key_compare j k) eqn:E; try reflexivity.
    apply compare_eq in E. congruence.
  - destruct (key_compare k k') eqn:E; simpl.
    + apply compare_eq in E. subst k'.
      destruct (key_compare j k) eqn:E'; try reflexivity.
      apply compare_eq in E'. congruence.
    + destruct (key_compare j k) eqn:E'; try reflexivity.
      apply compare_eq in E'. congruence.
    + rewrite IH. reflexivity.
Qed.

Lemma find_erase_same k m : StdMap.find k (StdMap.erase k m) = None.
Proof.
  induction m as [|[k' v'] m IH]; simpl; [reflexivity|].
  destruct (key_compare k k') eqn:E; simpl; rewrite ?E; exact IH.
Qed.

Lemma find_erase_other k j m :
  k <> j -> StdMap.find j (StdMap.erase k m) = StdMap.find j m.
Proof.
  intros Hne. induction m as [|[k' v'] m IH]; simpl; [reflexivity|].
  destruct (key_compare k k') eqn:E; simpl.
  - apply compare_eq in E. subst k'.
    destruct (key_compare j k) eqn:E'; try exact IH.
    apply compare_eq in E'. congruence.
  - rewrite IH. reflexivity.
  - rewrite IH. reflexivity.
Qed.

Lemma find_Some_In k v m : StdMap.find k m = Some v -> In (k, v) m.
Proof.
  induction m as [|[k' v'] m IH]; simpl; [discriminate|].
  destruct (key_compare k k') eqn:E; intros Hf.
  - apply compare_eq in E. inversion Hf. subst. left. reflexivity.
  - right. exact (IH Hf).
  - right. exact (IH Hf).
Qed.

Lemma find_None_not_In k m :
  StdMap.find k m = None -> ~ In k (map fst m).
Proof.
  induction m as [|[k' v'] m IH]; simpl; [tauto|].
  destruct (key_compare k k') eqn:E; intros Hf; [discriminate| |];
    (intros [Hk|Hk]; [subst k'; rewrite compare_refl in E; discriminate
                     | exact (IH Hf Hk)]).
Qed.

(** *** Ordered maps *)

Lemma sorted_tail k v m :
  StdMap.sorted ((k, v) :: m) = true -> StdMap.sorted m = true.
Proof.
  simpl. destruct m as [|[k' v'] m]; [reflexivity|].
  destruct (key_compare k k'); try discriminate. tauto.
Qed.

Lemma sorted_head_lt k v m :
  StdMap.sorted ((k, v) :: m) = true ->
  forall j, In j (map fst m) -> key_compare k j = Lt.
Proof.
  revert k v. induction m as [|[k' v'] m IH]; intros k v Hs j Hin.
  - destruct Hin.
  - simpl in Hs. destruct (key_compare k k') eqn:E; try discriminate.
    destruct Hin as [<-|Hin]; [exact E|].
    apply compare_lt_trans with k'; [exact E|].
    exact (IH k' v' Hs j Hin).
Qed.

Lemma sorted_cons k v m :
  StdMap.sorted m = true ->
  (forall j, In j (map fst m) -> key_compare k j = Lt) ->
  StdMap.sorted ((k, v) :: m) = true.
Proof.
  intros Hs Hlt. destruct m as [|[k' v'] m]; [reflexivity|].
  change (match key_compare k k' with
          | Lt => StdMap.sorted ((k', v') :: m)
          | _ => false
          end = true).
  rewrite (Hlt k' (or_introl eq_refl)). exact Hs.
Qed.

Lemma sorted_head_absent k v m :
  StdMap.sorted ((k, v) :: m) = true -> StdMap.find k m = None.
Proof.
  intros Hs. destruct (StdMap.find k m) as [v'|] eqn:Hf; [|reflexivity].
  apply find_Some_In in Hf.
  assert (Hlt : key_compare k k = Lt).
  { apply (sorted_head_lt _ _ _ Hs). apply (in_map fst) in Hf. exact Hf. }
  rewrite compare_refl in Hlt. discriminate.
Qed.

Lemma sorted_NoDup m : StdMap.sorted m = true -> NoDup (map fst m).
Proof.
  induction m as [|[k v] m IH]; intros Hs; simpl.
  - constructor.
  - constructor.
    + intros Hin. pose proof (sorted_head_lt _ _ _ Hs k Hin) as Hlt.
      rewrite compare_refl in Hlt. discriminate.
    + apply IH. exact (sorted_tail _ _ _ Hs).
Qed.

Lemma In_find k v m :
  StdMap.sorted m = true -> In (k, v) m -> StdMap.find k m = Some v.
Proof.
  induction m as [|[k' v'] m IH]; intros Hs Hin; [destruct Hin|].
  simpl. destruct Hin as [Heq|Hin].
  - inversion Heq. subst. rewrite compare_refl. reflexivity.
  - pose proof (sorted_head_lt _ _ _ Hs k (in_map fst _ _ Hin)) as Hlt.
    rewrite compare_antisym, Hlt. simpl.
    apply IH; [exact (sorted_tail _ _ _ Hs) | exact Hin].
Qed.

Lemma keys_insert k v m j :
  In j (map fst (StdMap.insert k v m)) -> j = k \/ In j (map fst m).
Proof.
  induction m as [|[k' v'] m IH]; simpl.
  - intros [<-|[]]. left. reflexivity.
  - destruct (key_compare k k') eqn:E; simpl.
    + intros [<-|Hin]; [left; reflexivity | right; right; exact Hin].
    + intros [<-|[<-|Hin]]; auto.
    + intros [<-|Hin]; [right; left; reflexivity|].
      destruct (IH Hin); auto.
Qed.

Lemma sorted_insert k v m :
  StdMap.sorted m = true -> StdMap.sorted (StdMap.insert k v m) = true.
Proof.
  induction m as [|[k' v'] m IH]; intros Hs; [reflexivity|].
  simpl. destruct (key_compare k k') eqn:E.
  - apply compare_eq in E. subst k'.
    apply sorted_cons; [exact (sorted_tail _ _ _ Hs)|].
    exact (sorted_head_lt _ _ _ Hs).
  - apply sorted_cons; [exact Hs|].
    intros j [<-|Hin]; [exact E|].
    apply compare_lt_trans with k'; [exact E|].
    exact (sorted_head_lt _ _ _ Hs j Hin).
  - apply sorted_cons; [apply IH; exact (sorted_tail _ _ _ Hs)|].
    intros j Hin. destruct (keys_insert _ _ _ _ Hin) as [->|Hin'].
    + apply compare_gt_lt. exact E.
    + exact (sorted_head_lt _ _ _ Hs j Hin').
Qed.

Lemma keys_erase k m j :
  In j (map fst (StdMap.erase k m)) -> In j (map fst m).
Proof.
  induction m as [|[k' v'] m IH]; simpl; [tauto|].
  destruct (key_compare k k'); simpl; intuition.
Qed.

Lemma sorted_erase k m :
  StdMap.sorted m = true -> StdMap.sorted (StdMap.erase k m) = true.
Proof.
  induction m as [|[k' v'] m IH]; intros Hs; [reflexivity|].
  pose proof (sorted_tail _ _ _ Hs) as Ht.
  simpl. destruct (key_compare k k') eqn:E; [exact (IH Ht)| |];
    (apply sorted_cons; [exact (IH Ht)|];
     intros j Hin; apply (sorted_head_lt _ _ _ Hs);
     exact (keys_erase _ _ _ Hin)).
Qed.

(** Copying an ordered map into another, entry by entry: the loops of
    [flush] and of the loaders. *)
Lemma find_fold_insert k (src : list (K * V)) m :
  StdMap.sorted src = true ->
  StdMap.find k
    (fold_left (fun acc kv => StdMap.insert (fst kv) (snd kv) acc) src m)
  = match StdMap.find k src with
    | Some v => Some v
    | None => StdMap.find k m
    end.
Proof.
  revert m. induction src as [|[k' v'] src IH]; intros m Hs; [reflexivity|].
  simpl fold_left. rewrite IH by exact (sorted_tail _ _ _ Hs).
  simpl StdMap.find at 3.
  destruct (key_compare k k') eqn:E.
  - apply compare_eq in E. subst k'.
    rewrite (sorted_head_absent _ _ _ Hs). apply find_insert_same.
  - rewrite find_insert_other; [reflexivity|].
    intros ->. rewrite compare_refl in E. discriminate.
  - rewrite find_insert_other; [reflexivity|].
    intros ->. rewrite compare_refl in E. discriminate.
Qed.

Lemma sorted_fold_insert (src : list (K * V)) m :
  StdMap.sorted m = true ->
  StdMap.sorted
    (fold_left (fun acc kv => StdMap.insert (fst kv) (snd kv) acc) src m)
  = true.
Proof.
  revert m. induction src as [|[k' v'] src IH]; intros m Hs; [exact Hs|].
  simpl. apply IH. apply sorted_insert. exact Hs.
Qed.
End StdMapFacts.

(* ================================================================== *)
(** * Facts about the inline store *)

Section DatabaseFacts.
Import DigestiveDatabase.
Variable lib : CodecLib.
Variable std_sort :
  (string * N -> string * N -> bool) -> list (string * N) -> list (string * N).

#[local] Abbreviation reorganize_entry := (reorganize_entry lib).
#[local] Abbreviation reorganize_loop := (reorganize_loop lib).
#[local] Abbreviation reorganize := (reorganize lib).
#[local] Abbreviation after_operation := (after_operation lib).
#[local] Abbreviation check_size_limit := (check_size_limit std_sort).
#[local] Abbreviation delete_coldest_data := (delete_coldest_data std_sort).
#[local] Abbreviation coldest_keys := (coldest_keys std_sort).
#[local] Abbreviation insert_binary := (insert_binary lib std_sort).
#[local] Abbreviation get_binary := (get_binary lib).
#[local] Abbreviation remove := (remove lib).

(** ** Tier of a key that was never read *)

(** Zero divided by anything is a zero or a NaN: above no positive
    threshold. *)
Lemma zero_ratio_below (c y : float) :
  (0 <? c)%float = true -> (c <? 0 / y)%float = false.
Proof.
  intros Hc. rewrite ltb_spec, div_spec. rewrite ltb_spec in Hc.
  change (Prim2SF 0) with (S754_zero false) in *.
  destruct (Prim2SF y) as [sy|sy| |sy my ey];
    destruct (Prim2SF c) as [sc|sc| |sc mc ec];
    try destruct sy; try destruct sc; cbn in *;
    try reflexivity; try discriminate.
Qed.

Lemma calculate_tier_unread s : calculate_tier s 0 = TIER_4.
Proof.
  unfold calculate_tier. destruct (total_accesses_ s =? 0); [reflexivity|].
  change (double_of_N 0) with 0%float.
  rewrite !zero_ratio_below by reflexivity. reflexivity.
Qed.

(** ** Reorganization, entry by entry *)

Lemma CompressionTier_eqb_refl t : CompressionTier_eqb t t = true.
Proof. destruct t; reflexivity. Qed.

Lemma CompressionAlgo_eqb_refl a : CompressionAlgo_eqb a a = true.
Proof. destruct a; reflexivity. Qed.

Lemma reorganize_entry_settled s k m store :
  settled s m -> reorganize_entry s k m store = (m, store).
Proof.
  intros [Ht Ha]. unfold DigestiveDatabase.reorganize_entry. cbv zeta.
  rewrite <- Ha, <- Ht.
  rewrite CompressionTier_eqb_refl, CompressionAlgo_eqb_refl. reflexivity.
Qed.

Lemma reorganize_entry_counters s k m store :
  let m' := fst (reorganize_entry s k m store) in
  access_count m' = access_count m
  /\ last_access m' = last_access m
  /\ original_size m' = original_size m.
Proof.
  unfold DigestiveDatabase.reorganize_entry.
  destruct (_ || _); [|simpl; auto].
  destruct (StdMap.find k store); simpl; auto.
Qed.

Lemma reorganize_entry_find_other s k m store j :
  k <> j ->
  StdMap.find j (snd (reorganize_entry s k m store)) = StdMap.find j store.
Proof.
  intros Hne. unfold DigestiveDatabase.reorganize_entry.
  destruct (_ || _); [|reflexivity].
  destruct (StdMap.find k store); simpl; [|reflexivity].
  apply find_insert_other. exact Hne.
Qed.

Lemma reorganize_entry_sorted s k m store :
  StdMap.sorted store = true ->
  StdMap.sorted (snd (reorganize_entry s k m store)) = true.
Proof.
  intros Hs. unfold DigestiveDatabase.reorganize_entry.
  destruct (_ || _); [|exact Hs].
  destruct (StdMap.find k store); simpl; [|exact Hs].
  apply sorted_insert. exact Hs.
Qed.

Lemma reorganize_loop_cons s k m rest store :
  reorganize_loop s ((k, m) :: rest) store
  = ((k, fst (reorganize_entry s k m store))
       :: fst (reorganize_loop s rest (snd (reorganize_entry s k m store))),
     snd (reorganize_loop s rest (snd (reorganize_entry s k m store)))).
Proof.
  simpl. destruct (reorganize_entry s k m store) as [m' store'].
  simpl. destruct (reorganize_loop s rest store'). reflexivity.
Qed.

Lemma reorganize_loop_keys s entries store :
  map fst (fst (reorganize_loop s entries store)) = map fst entries.
Proof.
  revert store. induction entries as [|[k m] rest IH]; intros store.
  - reflexivity.
  - rewrite reorganize_loop_cons. simpl. rewrite IH. reflexivity.
Qed.

(** The metadata of [k] after the loop is the metadata before, as one
    turn of the loop leaves it. *)
Lemma reorganize_loop_find s entries store k :
  match StdMap.find k (fst (reorganize_loop s entries store)) with
  | Some m' =>
      exists m store',
        StdMap.find k entries = Some m
        /\ m' = fst (reorganize_entry s k m store')
  | None => StdMap.find k entries = None
  end.
Proof.
  revert store. induction entries as [|[k' m] rest IH]; intros store.
  - reflexivity.
  - rewrite reorganize_loop_cons. simpl.
    destruct (key_compare k k') eqn:E.
    + apply compare_eq in E. subst k'. exists m, store. auto.
    + apply IH.
    + apply IH.
Qed.

Lemma reorganize_loop_find_data s entries store k :
  (forall m, In (k, m) entries -> settled s m) ->
  StdMap.find k (snd (reorganize_loop s entries store)) = StdMap.find k store.
Proof.
  revert store. induction entries as [|[k' m] rest IH]; intros store Hk.
  - reflexivity.
  - rewrite reorganize_loop_cons. simpl.
    rewrite IH by (intros m' Hin; apply Hk; right; exact Hin).
    destruct (string_dec k' k) as [->|Hne].
    + rewrite reorganize_entry_settled; [reflexivity|].
      apply Hk. left. reflexivity.
    + apply reorganize_entry_find_other. exact Hne.
Qed.

Lemma reorganize_loop_sorted s entries store :
  StdMap.sorted store = true ->
  StdMap.sorted (snd (reorganize_loop s entries store)) = true.
Proof.
  revert store. induction entries as [|[k m] rest IH]; intros store Hs.
  - exact Hs.
  - rewrite reorganize_loop_cons. simpl. apply IH.
    apply reorganize_entry_sorted. exact Hs.
Qed.

Lemma sorted_by_keys {V W} (l : list (string * V)) (l' : list (string * W)) :
  map fst l = map fst l' -> StdMap.sorted l = StdMap.sorted l'.
Proof.
  revert l'. induction l as [|[k v] l IH]; intros [|[k' v'] l'] Hk;
    try discriminate; [reflexivity|].
  simpl in Hk. inversion Hk as [[Hk1 Hk2]]. subst k'.
  pose proof (IH l' Hk2) as IHl.
  destruct l as [|[j w] l]; destruct l' as [|[j' w'] l']; try discriminate;
    [reflexivity|].
  simpl in Hk2. inversion Hk2 as [[Hj1 Hj2]]. subst j'.
  change (match key_compare k j with
          | Lt => StdMap.sorted ((j, w) :: l) | _ => false end
          = match key_compare k j with
            | Lt => StdMap.sorted ((j, w') :: l') | _ => false end).
  rewrite IHl. reflexivity.
Qed.

(** ** What [reorganize] and the post-operation hook keep *)

Lemma reorganize_fields s now :
  metadata_store_ (reorganize s now)
    = fst (reorganize_loop s (metadata_store_ s) (data_store_ s))
  /\ data_store_ (reorganize s now)
    = snd (reorganize_loop s (metadata_store_ s) (data_store_ s))
  /\ write_buffer_ (reorganize s now) = write_buffer_ s
  /\ total_accesses_ (reorganize s now) = total_accesses_ s
  /\ config_ (reorganize s now) = config_ s.
Proof.
  unfold DigestiveDatabase.reorganize.
  destruct (reorganize_loop s (metadata_store_ s) (data_store_ s)).
  simpl. auto.
Qed.

(** The hook bumps the counter and then either leaves the store alone or
    reorganizes it. *)
Lemma after_operation_cases s now :
  after_operation s now = counted s
  \/ after_operation s now = reorganize (counted s) now.
Proof.
  unfold DigestiveDatabase.after_operation,
    DigestiveDatabase.check_reorganization_trigger.
  fold (counted s). destruct (should_reorganize (counted s) now); auto.
Qed.

Lemma after_operation_manual s now :
  reorg_strategy (config_ s) = MANUAL -> after_operation s now = counted s.
Proof.
  intros Hm.
  unfold DigestiveDatabase.after_operation,
    DigestiveDatabase.check_reorganization_trigger, should_reorganize.
  simpl. rewrite Hm. reflexivity.
Qed.

Lemma after_operation_keeps s now :
  write_buffer_ (after_operation s now) = write_buffer_ s
  /\ total_accesses_ (after_operation s now) = total_accesses_ s
  /\ config_ (after_operation s now) = config_ s.
Proof.
  destruct (after_operation_cases s now) as [-> | ->].
  - simpl. auto.
  - destruct (reorganize_fields (counted s) now) as (_ & _ & Hb & Ht & Hc).
    rewrite Hb, Ht, Hc. simpl. auto.
Qed.

(** Across the hook a key keeps its counters, and keeps its whole record
    and its blob when [reorganize] would pass over it. *)
Lemma after_operation_metadata s now k :
  match StdMap.find k (metadata_store_ (after_operation s now)) with
  | Some m' =>
      exists m,
        StdMap.find k (metadata_store_ s) = Some m
        /\ access_count m' = access_count m
        /\ last_access m' = last_access m
        /\ original_size m' = original_size m
  | None => StdMap.find k (metadata_store_ s) = None
  end.
Proof.
  destruct (after_operation_cases s now) as [-> | ->].
  - simpl. destruct (StdMap.find k (metadata_store_ s)) as [m|]; [|reflexivity].
    exists m. auto.
  - destruct (reorganize_fields (counted s) now) as (Hm & _). rewrite Hm.
    pose proof (reorganize_loop_find (counted s)
                  (metadata_store_ (counted s)) (data_store_ (counted s)) k)
      as Hf.
    destruct (StdMap.find k (fst _)) as [m'|]; [|exact Hf].
    destruct Hf as (m & store' & Hfind & ->). exists m.
    split; [exact Hfind|]. apply reorganize_entry_counters.
Qed.

Lemma after_operation_settled s now k m :
  StdMap.sorted (metadata_store_ s) = true ->
  StdMap.find k (metadata_store_ s) = Some m ->
  settled s m ->
  StdMap.find k (metadata_store_ (after_operation s now)) = Some m
  /\ StdMap.find k (data_store_ (after_operation s now))
     = StdMap.find k (data_store_ s).
Proof.
  intros Hs Hf Hset.
  destruct (after_operation_cases s now) as [-> | ->]; [simpl; auto|].
  destruct (reorganize_fields (counted s) now) as (Hm & Hd & _).
  rewrite Hm, Hd. split.
  - pose proof (reorganize_loop_find (counted s)
                  (metadata_store_ (counted s)) (data_store_ (counted s)) k)
      as Hl.
    destruct (StdMap.find k (fst _)) as [m'|].
    + destruct Hl as (m0 & store' & Hfind & ->).
      simpl in Hfind. rewrite Hf in Hfind. inversion Hfind. subst m0.
      rewrite reorganize_entry_settled; [reflexivity | exact Hset].
    + simpl in Hl. congruence.
  - apply reorganize_loop_find_data. intros m0 Hin. simpl in Hin.
    apply In_find in Hin; [|exact Hs].
    rewrite Hf in Hin. inversion Hin. subst m0. exact Hset.
Qed.

(** ** [flush] *)

Lemma flush_keeps s :
  metadata_store_ (flush s) = metadata_store_ s
  /\ config_ (flush s) = config_ s
  /\ db_path_ (flush s) = db_path_ s
  /\ total_accesses_ (flush s) = total_accesses_ s
  /\ operations_since_reorg_ (flush s) = operations_since_reorg_ s
  /\ write_buffer_ (flush s) = [].
Proof.
  unfold flush. destruct (write_buffer_ s) eqn:E; simpl; auto 10.
Qed.

Lemma flush_find s k :
  StdMap.sorted (write_buffer_ s) = true ->
  StdMap.find k (data_store_ (flush s))
  = match StdMap.find k (write_buffer_ s) with
    | Some v => Some v
    | None => StdMap.find k (data_store_ s)
    end.
Proof.
  intros Hs. unfold flush. destruct (write_buffer_ s) as [|e buf] eqn:E.
  - reflexivity.
  - cbn [data_store_ with_write_buffer with_data_store].
    apply find_fold_insert. exact Hs.
Qed.

Lemma flush_sorted s :
  StdMap.sorted (data_store_ s) = true ->
  StdMap.sorted (data_store_ (flush s)) = true.
Proof.
  intros Hs. unfold flush. destruct (write_buffer_ s) as [|e buf] eqn:E.
  - exact Hs.
  - cbn [data_store_ with_write_buffer with_data_store].
    apply sorted_fold_insert. exact Hs.
Qed.

(** ** [insert_binary] when eviction does not fire *)

Lemma check_size_limit_within s : within_limit s -> check_size_limit s = s.
Proof.
  unfold within_limit, DigestiveDatabase.check_size_limit.
  intros [Hd|Hle].
  - rewrite Hd. destruct (_ <? _); reflexivity.
  - apply N.ltb_ge in Hle. rewrite Hle. reflexivity.
Qed.

(** The store of [insert_binary] just before the size check. *)
Lemma insert_binary_staged s now k data :
  exists s2,
    insert_binary s now k data = after_operation (check_size_limit s2) now
    /\ metadata_store_ s2
       = StdMap.insert k (fresh_metadata lib s now data) (metadata_store_ s)
    /\ config_ s2 = config_ s
    /\ db_path_ s2 = db_path_ s
    /\ total_accesses_ s2 = total_accesses_ s
    /\ (well_formed s ->
        well_formed s2 /\ stored_blob s2 k = Some (encoded lib s data)).
Proof.
  unfold DigestiveDatabase.insert_binary. fold (encoded lib s data).
  fold (fresh_metadata lib s now data).
  destruct (lazy_persistence (config_ s)) eqn:Hlazy.
  - match goal with
    | |- context [if ?c then flush ?x else _] => set (s' := x)
    end.
    destruct (_ <=? _).
    + eexists. split; [reflexivity|]. simpl.
      destruct (flush_keeps s') as (Hm & Hc & Hd & Ht & _ & Hb).
      rewrite Hm, Hc, Hd, Ht. repeat (split; [reflexivity|]).
      intros (Hsd & Hsm & Hsb & _).
      assert (Hsb' : StdMap.sorted (write_buffer_ s') = true)
        by (apply sorted_insert; exact Hsb).
      split.
      * unfold well_formed. simpl. rewrite ?Hm, ?Hb, ?Hc.
        split; [apply flush_sorted; exact Hsd|].
        split; [apply sorted_insert; exact Hsm|].
        split; [reflexivity|]. reflexivity.
      * unfold stored_blob. simpl. rewrite Hb. simpl.
        rewrite flush_find by exact Hsb'.
        simpl. rewrite find_insert_same. reflexivity.
    + eexists. split; [reflexivity|]. simpl.
      repeat (split; [reflexivity|]).
      intros (Hsd & Hsm & Hsb & _). split.
      * unfold well_formed. simpl.
        split; [exact Hsd|]. split; [apply sorted_insert; exact Hsm|].
        split; [apply sorted_insert; exact Hsb|].
        rewrite Hlazy. discriminate.
      * unfold stored_blob. simpl. rewrite find_insert_same. reflexivity.
  - eexists. split; [reflexivity|]. simpl.
    repeat (split; [reflexivity|]).
    intros (Hsd & Hsm & Hsb & Hempty). split.
    + unfold well_formed. simpl.
      split; [apply sorted_insert; exact Hsd|].
      split; [apply sorted_insert; exact Hsm|].
      split; [exact Hsb | exact Hempty].
    + unfold stored_blob. simpl. rewrite (Hempty Hlazy). simpl.
      apply find_insert_same.
Qed.

Lemma within_limit_same s s' :
  config_ s' = config_ s -> db_path_ s' = db_path_ s ->
  within_limit s -> within_limit s'.
Proof.
  unfold within_limit, get_size_on_disk. intros -> ->. tauto.
Qed.

Lemma fresh_metadata_settled s s' now data :
  config_ s' = config_ s -> settled s' (fresh_metadata lib s now data).
Proof.
  intros Hc. unfold settled. simpl.
  rewrite calculate_tier_unread, Hc. auto.
Qed.

Lemma insert_binary_installed s now k data :
  well_formed s -> within_limit s ->
  StdMap.find k (metadata_store_ (insert_binary s now k data))
  = Some (fresh_metadata lib s now data)
  /\ stored_blob (insert_binary s now k data) k = Some (encoded lib s data)
  /\ config_ (insert_binary s now k data) = config_ s
  /\ StdMap.sorted (write_buffer_ (insert_binary s now k data)) = true.
Proof.
  intros Hwf Hlim.
  destruct (insert_binary_staged s now k data)
    as (s2 & -> & Hm & Hc & Hd & Ht & Hstaged).
  destruct (Hstaged Hwf) as ((_ & Hsm & Hsb & _) & Hblob).
  rewrite (check_size_limit_within s2)
    by (apply (within_limit_same s); assumption).
  destruct (after_operation_keeps s2 now) as (Hb' & _ & Hc').
  destruct (after_operation_settled s2 now k (fresh_metadata lib s now data))
    as (Hmeta & Hdata).
  - exact Hsm.
  - rewrite Hm. apply find_insert_same.
  - apply fresh_metadata_settled. exact Hc.
  - split; [exact Hmeta|]. split.
    + unfold stored_blob in *. rewrite Hb', Hdata. exact Hblob.
    + rewrite Hc', Hb'. auto.
Qed.

(** ** A read that finds its key *)

Lemma get_binary_hit s now k blob m :
  StdMap.sorted (write_buffer_ s) = true ->
  stored_blob s k = Some blob ->
  StdMap.find k (metadata_store_ s) = Some m ->
  exists s1,
    (s1 = s \/ s1 = flush s)
    /\ get_binary s now k
       = Ok (Some (if compression_enabled (config_ s)
                   then decompress lib blob (algorithm m) (original_size m)
                   else blob),
             after_operation
               (with_total_accesses (wrap64 (total_accesses_ s + 1))
                  (with_metadata_store
                     (StdMap.insert k (touched now m) (metadata_store_ s))
                     s1)) now).
Proof.
  intros Hsb Hblob Hmeta. unfold DigestiveDatabase.get_binary.
  unfold stored_blob in Hblob.
  destruct (StdMap.find k (write_buffer_ s)) as [b|] eqn:Hbuf.
  - inversion Hblob. subst b. exists (flush s). split; [auto|].
    destruct (flush_keeps s) as (Hm & Hc & _ & Ht & _).
    rewrite flush_find, Hbuf by exact Hsb.
    rewrite Hm, Hmeta, Ht. simpl. rewrite Hc. reflexivity.
  - exists s. split; [auto|]. rewrite Hblob, Hmeta. reflexivity.
Qed.

(** C1 (as amended). When the size check of the insert does not evict --
    deletion is off or the directory is within [max_size_bytes] -- and the
    codec bound to tier 4 gives [data] back, [get_binary] right after
    [insert_binary] returns [data]: with the write buffer or without it,
    compressed or not, whatever the tier table. *)
Theorem insert_then_get s now now' k data :
  well_formed s ->
  within_limit s ->
  (compression_enabled (config_ s) = true ->
   decompress lib (compress lib s data TIER_4)
     (tier_algorithm (tier_configs (config_ s) TIER_4)) (size_of data)
   = data) ->
  returned (get_binary (insert_binary s now k data) now' k) = Ok (Some data).
Proof.
  intros Hwf Hlim Hcodec.
  destruct (insert_binary_installed s now k data Hwf Hlim)
    as (Hmeta & Hblob & Hc & Hsb).
  destruct (get_binary_hit _ now' k _ _ Hsb Hblob Hmeta) as (s1 & _ & ->).
  simpl. rewrite Hc. unfold encoded.
  destruct (compression_enabled (config_ s)); [|reflexivity].
  rewrite Hcodec; reflexivity.
Qed.

(** C5 (as amended). When the size check of the insert does not evict,
    the record of [k] after [insert_binary] has tier 4 and its algorithm,
    no access, the time of the call, the length of the plaintext, and the
    length of the blob now stored for [k]. *)
Theorem insert_binary_metadata s now k data :
  well_formed s ->
  within_limit s ->
  exists m blob,
    get_metadata (insert_binary s now k data) k = Some m
    /\ tier m = TIER_4
    /\ algorithm m = tier_algorithm (tier_configs (config_ s) TIER_4)
    /\ access_count m = 0
    /\ last_access m = now
    /\ original_size m = size_of data
    /\ stored_blob (insert_binary s now k data) k = Some blob
    /\ compressed_size m = size_of blob.
Proof.
  intros Hwf Hlim.
  destruct (insert_binary_installed s now k data Hwf Hlim)
    as (Hmeta & Hblob & _).
  exists (fresh_metadata lib s now data), (encoded lib s data).
  unfold get_metadata. rewrite Hmeta, Hblob. simpl. auto 10.
Qed.

(** C7 (as amended). A read of a key that has a blob and a metadata record
    returns data, adds one to that key's [access_count] and to
    [total_accesses_], and stamps [last_access] with the time of the call.
    Every other key keeps its [access_count] and [last_access]; it keeps
    its whole record when the strategy is [MANUAL] (otherwise the hook may
    reorganize and change tier, algorithm and compressed size). *)
Theorem get_binary_counts s now k blob m :
  StdMap.sorted (write_buffer_ s) = true ->
  stored_blob s k = Some blob ->
  get_metadata s k = Some m ->
  access_count m + 1 < 2 ^ 64 ->
  total_accesses_ s + 1 < 2 ^ 64 ->
  exists v s',
    get_binary s now k = Ok (Some v, s')
    /\ (exists m',
          get_metadata s' k = Some m'
          /\ access_count m' = access_count m + 1
          /\ last_access m' = now)
    /\ total_accesses_ s' = total_accesses_ s + 1
    /\ (forall j, j <> k ->
        match get_metadata s' j with
        | Some mj' =>
            exists mj,
              get_metadata s j = Some mj
              /\ access_count mj' = access_count mj
              /\ last_access mj' = last_access mj
        | None => get_metadata s j = None
        end)
    /\ (reorg_strategy (config_ s) = MANUAL ->
        forall j, j <> k -> get_metadata s' j = get_metadata s j).
Proof.
  intros Hsb Hblob Hmeta Hac Htot. unfold get_metadata in *.
  destruct (get_binary_hit s now k blob m Hsb Hblob Hmeta)
    as (s1 & Hs1 & Hget).
  rewrite Hget. eexists. eexists. split; [reflexivity|].
  match goal with
  | |- context [after_operation ?x now] => set (sx := x)
  end.
  assert (Hmx : metadata_store_ sx
                = StdMap.insert k (touched now m) (metadata_store_ s))
    by reflexivity.
  assert (Hcx : config_ sx = config_ s).
  { destruct Hs1 as [-> | ->]; [reflexivity|].
    destruct (flush_keeps s) as (_ & Hc & _). exact Hc. }
  assert (Htx : total_accesses_ sx = wrap64 (total_accesses_ s + 1))
    by reflexivity.
  split; [|split; [|split]].
  - pose proof (after_operation_metadata sx now k) as Hk.
    rewrite Hmx, find_insert_same in Hk.
    destruct (StdMap.find k (metadata_store_ (after_operation sx now)))
      as [m'|]; [|discriminate].
    destruct Hk as (m0 & Hm0 & Ha & Hl & _). inversion Hm0. subst m0.
    exists m'. split; [reflexivity|]. rewrite Ha, Hl. simpl.
    split; [|reflexivity]. unfold wrap64. apply N.mod_small. exact Hac.
  - destruct (after_operation_keeps sx now) as (_ & Ht & _).
    rewrite Ht, Htx. unfold wrap64. apply N.mod_small. exact Htot.
  - intros j Hj. pose proof (after_operation_metadata sx now j) as Hk.
    rewrite Hmx, find_insert_other in Hk by congruence.
    destruct (StdMap.find j (metadata_store_ (after_operation sx now)))
      as [mj'|]; [|exact Hk].
    destruct Hk as (mj & Hmj & Ha & Hl & _). exists mj. auto.
  - intros Hmanual j Hj.
    rewrite after_operation_manual by (rewrite Hcx; exact Hmanual).
    simpl. apply find_insert_other. congruence.
Qed.

(** ** [remove] *)

Lemma reorganize_loop_find_absent s entries store k :
  StdMap.find k store = None ->
  StdMap.find k (snd (reorganize_loop s entries store)) = None.
Proof.
  revert store. induction entries as [|[k' m] rest IH]; intros store Hk.
  - exact Hk.
  - rewrite reorganize_loop_cons. simpl. apply IH.
    destruct (string_dec k' k) as [->|Hne].
    + unfold DigestiveDatabase.reorganize_entry.
      destruct (_ || _); [|exact Hk]. rewrite Hk. exact Hk.
    + rewrite reorganize_entry_find_other by exact Hne. exact Hk.
Qed.

Lemma after_operation_find_absent s now k :
  StdMap.find k (data_store_ s) = None ->
  StdMap.find k (data_store_ (after_operation s now)) = None.
Proof.
  intros Hk. destruct (after_operation_cases s now) as [-> | ->];
    [exact Hk|].
  destruct (reorganize_fields (counted s) now) as (_ & Hd & _).
  rewrite Hd. apply reorganize_loop_find_absent. exact Hk.
Qed.

(** [remove] takes the key out of the data map, the metadata map and the
    write buffer, and reports whether the data map held it. *)
Lemma remove_erases s now k :
  fst (remove s now k) = StdMap.mem k (data_store_ s)
  /\ StdMap.find k (data_store_ (snd (remove s now k))) = None
  /\ StdMap.find k (metadata_store_ (snd (remove s now k))) = None
  /\ StdMap.find k (write_buffer_ (snd (remove s now k))) = None.
Proof.
  unfold DigestiveDatabase.remove. simpl.
  split; [reflexivity|]. split; [|split].
  - apply after_operation_find_absent. simpl. apply find_erase_same.
  - pose proof (after_operation_metadata (erase_everywhere s k) now k) as Hk.
    destruct (StdMap.find k (metadata_store_ (after_operation _ now)));
      [|reflexivity].
    destruct Hk as (m & Hm & _). simpl in Hm.
    rewrite find_erase_same in Hm. discriminate.
  - destruct (after_operation_keeps (erase_everywhere s k) now) as (Hb & _).
    rewrite Hb. simpl. apply find_erase_same.
Qed.

(** A repeated [remove] reports [false]. *)
Lemma remove_twice s now now' k :
  fst (remove (snd (remove s now k)) now' k) = false.
Proof.
  destruct (remove_erases s now k) as (_ & Hd & _).
  destruct (remove_erases (snd (remove s now k)) now' k) as (-> & _).
  unfold StdMap.mem. rewrite Hd. reflexivity.
Qed.

(** C10 (what the code does). A read of a key that is in neither the write
    buffer nor the data map returns absent and hands the store back as it
    was: the early return comes before [after_operation], so
    [operations_since_reorg_] is not incremented, whatever the strategy. *)
Theorem get_binary_miss s now k :
  StdMap.find k (write_buffer_ s) = None ->
  StdMap.find k (data_store_ s) = None ->
  get_binary s now k = Ok (None, s).
Proof.
  intros Hb Hd. unfold DigestiveDatabase.get_binary.
  rewrite Hb, Hd. reflexivity.
Qed.

(** C8 (what the code does). Opened over a [data.db] with no
    [metadata.db] beside it, the store has an empty metadata map, and a
    read of any key of the loaded image dereferences
    [metadata_store_.end()]: its behaviour is undefined. *)
Theorem get_binary_without_metadata recs other config now now' k :
  let s :=
    open {| data_db := Some recs; metadata_db := None; other_files := other |}
         config now in
  StdMap.mem k (data_store_ s) = true ->
  metadata_store_ s = [] /\ get_binary s now' k = Undefined.
Proof.
  intros s Hmem. split; [reflexivity|].
  assert (Hb : write_buffer_ s = []) by reflexivity.
  assert (Hm : metadata_store_ s = []) by reflexivity.
  unfold DigestiveDatabase.get_binary, StdMap.mem in *.
  rewrite Hb. cbn [StdMap.find].
  destruct (StdMap.find k (data_store_ s)); [|discriminate].
  rewrite Hm. reflexivity.
Qed.

(** ** Eviction *)

Lemma erase_absent {V} k (m : list (string * V)) :
  StdMap.find k m = None -> StdMap.erase k m = m.
Proof.
  induction m as [|[k' v'] m IH]; simpl; [reflexivity|].
  destruct (key_compare k k') eqn:E; intros Hf; try discriminate;
    rewrite (IH Hf); reflexivity.
Qed.

Lemma erase_length {V} k (m : list (string * V)) :
  StdMap.sorted m = true -> In k (map fst m) ->
  S (List.length (StdMap.erase k m)) = List.length m.
Proof.
  induction m as [|[k' v'] m IH]; intros Hs Hin; [destruct Hin|].
  simpl in Hin. simpl. destruct (key_compare k k') eqn:E.
  - apply compare_eq in E. subst k'.
    rewrite erase_absent by exact (sorted_head_absent _ _ _ Hs). reflexivity.
  - simpl. f_equal. apply IH; [exact (sorted_tail _ _ _ Hs)|].
    destruct Hin as [->|Hin]; [|exact Hin].
    rewrite compare_refl in E. discriminate.
  - simpl. f_equal. apply IH; [exact (sorted_tail _ _ _ Hs)|].
    destruct Hin as [->|Hin]; [|exact Hin].
    rewrite compare_refl in E. discriminate.
Qed.

Lemma keys_erase_other {V} k j (m : list (string * V)) :
  j <> k -> In j (map fst m) -> In j (map fst (StdMap.erase k m)).
Proof.
  intros Hne. induction m as [|[k' v'] m IH]; simpl; [tauto|].
  destruct (key_compare k k') eqn:E; simpl.
  - apply compare_eq in E. subst k'. intros [->|Hin]; [congruence | auto].
  - intros [->|Hin]; auto.
  - intros [->|Hin]; auto.
Qed.

Lemma erase_all_length {V} ks (m : list (string * V)) :
  StdMap.sorted m = true -> NoDup ks -> incl ks (map fst m) ->
  (List.length (erase_all ks m) + List.length ks = List.length m)%nat.
Proof.
  revert m. induction ks as [|k ks IH]; intros m Hs Hnd Hincl.
  - simpl. lia.
  - inversion Hnd as [|? ? Hk Hnd']. subst.
    assert (Hin : In k (map fst m)) by (apply Hincl; left; reflexivity).
    pose proof (erase_length k m Hs Hin) as Hl.
    assert (IH' : (List.length (erase_all ks (StdMap.erase k m))
                   + List.length ks
                   = List.length (StdMap.erase k m))%nat).
    { apply IH.
      - apply sorted_erase. exact Hs.
      - exact Hnd'.
      - intros j Hj. apply keys_erase_other.
        + intros ->. exact (Hk Hj).
        + apply Hincl. right. exact Hj. }
    change (erase_all (k :: ks) m) with (erase_all ks (StdMap.erase k m)).
    simpl List.length. lia.
Qed.

Lemma erase_all_find_absent {V} ks (m : list (string * V)) k :
  StdMap.find k m = None -> StdMap.find k (erase_all ks m) = None.
Proof.
  revert m. induction ks as [|k' ks IH]; intros m Hm; [exact Hm|].
  change (erase_all (k' :: ks) m) with (erase_all ks (StdMap.erase k' m)).
  apply IH. destruct (string_dec k' k) as [->|Hne].
  - apply find_erase_same.
  - rewrite find_erase_other by exact Hne. exact Hm.
Qed.

Lemma erase_all_find_in {V} ks (m : list (string * V)) k :
  In k ks -> StdMap.find k (erase_all ks m) = None.
Proof.
  revert m. induction ks as [|k' ks IH]; intros m Hin; [destruct Hin|].
  change (erase_all (k' :: ks) m) with (erase_all ks (StdMap.erase k' m)).
  destruct (string_dec k' k) as [->|Hne].
  - apply erase_all_find_absent. apply find_erase_same.
  - apply IH. destruct Hin as [Heq|Hin]; [contradiction | exact Hin].
Qed.

Lemma erase_all_find_out {V} ks (m : list (string * V)) k :
  ~ In k ks -> StdMap.find k (erase_all ks m) = StdMap.find k m.
Proof.
  revert m. induction ks as [|k' ks IH]; intros m Hin; [reflexivity|].
  change (erase_all (k' :: ks) m) with (erase_all ks (StdMap.erase k' m)).
  rewrite IH by (simpl in Hin; tauto).
  apply find_erase_other. intros ->. apply Hin. left. reflexivity.
Qed.

Lemma erase_everywhere_fold ks s :
  metadata_store_ (fold_left erase_everywhere ks s)
    = erase_all ks (metadata_store_ s)
  /\ data_store_ (fold_left erase_everywhere ks s)
    = erase_all ks (data_store_ s)
  /\ write_buffer_ (fold_left erase_everywhere ks s)
    = erase_all ks (write_buffer_ s).
Proof.
  revert s. induction ks as [|k ks IH]; intros s; [simpl; auto|].
  simpl fold_left. destruct (IH (erase_everywhere s k)) as (-> & -> & ->).
  simpl. auto.
Qed.

Lemma delete_coldest_data_fields s :
  metadata_store_ (delete_coldest_data s)
    = erase_all (coldest_keys s) (metadata_store_ s)
  /\ data_store_ (delete_coldest_data s)
    = erase_all (coldest_keys s) (data_store_ s)
  /\ write_buffer_ (delete_coldest_data s)
    = erase_all (coldest_keys s) (write_buffer_ s).
Proof.
  unfold DigestiveDatabase.delete_coldest_data. simpl.
  apply erase_everywhere_fold.
Qed.

Lemma candidates_keys s :
  map fst (eviction_candidates s) = map fst (metadata_store_ s).
Proof.
  unfold eviction_candidates. rewrite map_map. reflexivity.
Qed.

Lemma candidate_count s k a :
  StdMap.sorted (metadata_store_ s) = true ->
  In (k, a) (eviction_candidates s) ->
  exists m, StdMap.find k (metadata_store_ s) = Some m /\ a = access_count m.
Proof.
  intros Hs Hin. unfold eviction_candidates in Hin.
  apply in_map_iff in Hin. destruct Hin as ([k0 m0] & Heq & Hin).
  simpl in Heq. inversion Heq. subst. exists m0. split; [|reflexivity].
  apply In_find; assumption.
Qed.

Lemma candidate_of s j mj :
  StdMap.find j (metadata_store_ s) = Some mj ->
  In (j, access_count mj) (eviction_candidates s).
Proof.
  intros Hf. apply find_Some_In in Hf. unfold eviction_candidates.
  apply in_map_iff. exists (j, mj). auto.
Qed.

Lemma In_skipn {A} (x : A) c l : In x (skipn c l) -> In x l.
Proof.
  intros Hin. rewrite <- (firstn_skipn c l). apply in_or_app. auto.
Qed.

Lemma In_firstn {A} (x : A) c l : In x (firstn c l) -> In x l.
Proof.
  intros Hin. rewrite <- (firstn_skipn c l). apply in_or_app. auto.
Qed.

Lemma sorted_firstn_skipn {A} (R : A -> A -> Prop) l c x y :
  StronglySorted R l -> In x (firstn c l) -> In y (skipn c l) -> R x y.
Proof.
  revert c. induction l as [|a l IH]; intros c Hs Hx Hy.
  - destruct c; destruct Hx.
  - destruct c as [|c]; [destruct Hx|].
    apply StronglySorted_inv in Hs. destruct Hs as [Hs Hall].
    simpl in Hx, Hy. destruct Hx as [<-|Hx].
    + rewrite Forall_forall in Hall. apply Hall. exact (In_skipn _ _ _ Hy).
    + exact (IH c Hs Hx Hy).
Qed.

Lemma NoDup_firstn {A} c (l : list A) : NoDup l -> NoDup (firstn c l).
Proof.
  intros Hnd. rewrite <- (firstn_skipn c l) in Hnd.
  exact (NoDup_app_remove_r _ _ Hnd).
Qed.

(** ** The invariant *)

Lemma erase_all_sorted {V} ks (m : list (string * V)) :
  StdMap.sorted m = true -> StdMap.sorted (erase_all ks m) = true.
Proof.
  revert m. induction ks as [|k ks IH]; intros m Hs; [exact Hs|].
  change (erase_all (k :: ks) m) with (erase_all ks (StdMap.erase k m)).
  apply IH. apply sorted_erase. exact Hs.
Qed.

Lemma erase_all_nil {V} ks : erase_all ks (@nil (string * V)) = [].
Proof. induction ks as [|k ks IH]; [reflexivity | exact IH]. Qed.

Lemma erase_everywhere_fold_config ks s :
  config_ (fold_left erase_everywhere ks s) = config_ s.
Proof.
  revert s. induction ks as [|k ks IH]; intros s; [reflexivity|].
  simpl fold_left. rewrite IH. reflexivity.
Qed.

Lemma well_formed_flush s : well_formed s -> well_formed (flush s).
Proof.
  intros (Hd & Hm & Hb & He). destruct (flush_keeps s) as (Em & Ec & _ & _ & _ & Eb).
  unfold well_formed. rewrite Em, Ec, Eb.
  split; [apply flush_sorted; exact Hd|]. auto.
Qed.

Lemma well_formed_check_size_limit s :
  well_formed s -> well_formed (check_size_limit s).
Proof.
  intros (Hd & Hm & Hb & He). unfold DigestiveDatabase.check_size_limit.
  destruct (_ <? _); [|unfold well_formed; auto].
  destruct (allow_deletion (config_ s)); [|unfold well_formed; auto].
  destruct (delete_coldest_data_fields s) as (Em & Ed & Eb).
  unfold well_formed. rewrite Em, Ed, Eb.
  split; [apply erase_all_sorted; exact Hd|].
  split; [apply erase_all_sorted; exact Hm|].
  split; [apply erase_all_sorted; exact Hb|].
  unfold DigestiveDatabase.delete_coldest_data. simpl.
  rewrite erase_everywhere_fold_config. intros Hl.
  rewrite (He Hl). apply erase_all_nil.
Qed.

Lemma well_formed_after_operation s now :
  well_formed s -> well_formed (after_operation s now).
Proof.
  intros (Hd & Hm & Hb & He).
  destruct (after_operation_cases s now) as [-> | ->].
  - unfold well_formed. simpl. auto.
  - destruct (reorganize_fields (counted s) now) as (Em & Ed & Eb & _ & Ec).
    unfold well_formed. rewrite Em, Ed, Eb, Ec. simpl.
    split; [apply reorganize_loop_sorted; exact Hd|].
    split; [|auto].
    rewrite (sorted_by_keys _ (metadata_store_ s)); [exact Hm|].
    apply reorganize_loop_keys.
Qed.

(** A store just opened is well formed, and every public operation keeps
    it so. *)
Lemma well_formed_load_from_disk s :
  well_formed s -> well_formed (load_from_disk s).
Proof.
  intros (Hd & Hm & Hb & He). unfold load_from_disk.
  destruct (data_db (db_path_ s)); unfold well_formed; simpl; auto.
  split; [apply sorted_fold_insert; exact Hd | auto].
Qed.

Lemma well_formed_load_metadata s :
  well_formed s -> well_formed (load_metadata s).
Proof.
  intros (Hd & Hm & Hb & He). unfold load_metadata.
  destruct (metadata_db (db_path_ s)); unfold well_formed; simpl; auto.
  split; [exact Hd|]. split; [apply sorted_fold_insert; exact Hm | auto].
Qed.

Lemma well_formed_open dir config now : well_formed (open dir config now).
Proof.
  unfold open. apply well_formed_load_metadata, well_formed_load_from_disk.
  unfold well_formed. simpl. auto.
Qed.

Lemma well_formed_insert_binary s now k data :
  well_formed s -> well_formed (insert_binary s now k data).
Proof.
  intros Hwf.
  destruct (insert_binary_staged s now k data) as (s2 & -> & _ & _ & _ & _ & H2).
  apply well_formed_after_operation, well_formed_check_size_limit.
  exact (proj1 (H2 Hwf)).
Qed.

Lemma well_formed_get_binary s now k r s' :
  well_formed s -> get_binary s now k = Ok (r, s') -> well_formed s'.
Proof.
  intros Hwf. unfold DigestiveDatabase.get_binary.
  set (s1 := match StdMap.find k (write_buffer_ s) with
             | Some _ => flush s
             | None => s
             end).
  assert (Hwf1 : well_formed s1).
  { unfold s1. destruct (StdMap.find k (write_buffer_ s));
      [apply well_formed_flush|]; exact Hwf. }
  destruct (StdMap.find k (data_store_ s1)); [|intros H; inversion H; subst; exact Hwf1].
  destruct (StdMap.find k (metadata_store_ s1)) as [m|]; [|discriminate].
  intros H. inversion H. subst. apply well_formed_after_operation.
  destruct Hwf1 as (Hd & Hm & Hb & He). unfold well_formed. simpl.
  split; [exact Hd|]. split; [apply sorted_insert; exact Hm|]. auto.
Qed.

Lemma well_formed_remove s now k :
  well_formed s -> well_formed (snd (remove s now k)).
Proof.
  intros (Hd & Hm & Hb & He). unfold DigestiveDatabase.remove. simpl.
  apply well_formed_after_operation. unfold well_formed. simpl.
  split; [apply sorted_erase; exact Hd|].
  split; [apply sorted_erase; exact Hm|].
  split; [apply sorted_erase; exact Hb|].
  intros Hl. rewrite (He Hl). reflexivity.
Qed.

Hypothesis std_sort_sorts : sorts std_sort colder.

Lemma coldest_keys_spec s :
  StdMap.sorted (metadata_store_ s) = true ->
  metadata_store_ s <> [] ->
  let n := StdMap.size (metadata_store_ s) in
  N.of_nat (List.length (coldest_keys s)) = N.max (n / 10) 1
  /\ NoDup (coldest_keys s)
  /\ incl (coldest_keys s) (map fst (metadata_store_ s)).
Proof.
  intros Hs Hne n.
  unfold DigestiveDatabase.coldest_keys, delete_count.
  destruct (std_sort_sorts (eviction_candidates s)) as [Hperm _].
  set (items := std_sort colder (eviction_candidates s)) in *.
  assert (Hlen : List.length items = List.length (metadata_store_ s)).
  { rewrite (Permutation_length Hperm). unfold eviction_candidates.
    apply length_map. }
  assert (Hn : size_of items = n).
  { unfold n, StdMap.size, size_of. rewrite Hlen. reflexivity. }
  assert (Hpos : 1 <= n).
  { unfold n, StdMap.size, size_of.
    destruct (metadata_store_ s); [congruence | simpl; lia]. }
  assert (Hdiv : n / 10 <= n).
  { apply N.Div0.div_le_upper_bound. lia. }
  assert (Hkeys : Permutation (map fst items) (map fst (metadata_store_ s))).
  { rewrite <- candidates_keys. apply Permutation_map. exact Hperm. }
  rewrite Hn. split; [|split].
  - rewrite length_map, length_firstn, Hlen.
    unfold n, StdMap.size, size_of in *. lia.
  - rewrite <- firstn_map. apply NoDup_firstn.
    apply (Permutation_NoDup (Permutation_sym Hkeys)).
    apply sorted_NoDup. exact Hs.
  - intros k Hk. rewrite <- firstn_map in Hk. apply In_firstn in Hk.
    exact (Permutation_in _ Hkeys Hk).
Qed.

(** C6 (as amended). When the directory is over [max_size_bytes] and
    deletion is allowed, the size check removes exactly
    [max(1, |keys| / 10)] entries of a non-empty metadata map, from the
    data map and the write buffer as well; every other key keeps its
    record; and no removed key had a higher [access_count] than a key
    that stays. Which of several keys of equal [access_count] go is up to
    [std::sort]: the comparator reads nothing but [access_count]. *)
Theorem eviction_removes_coldest s :
  StdMap.sorted (metadata_store_ s) = true ->
  metadata_store_ s <> [] ->
  max_size_bytes (config_ s) < get_size_on_disk s ->
  allow_deletion (config_ s) = true ->
  let n := StdMap.size (metadata_store_ s) in
  let s' := check_size_limit s in
  StdMap.size (metadata_store_ s') + N.max (n / 10) 1 = n
  /\ (forall k, In k (coldest_keys s) ->
      StdMap.find k (metadata_store_ s') = None
      /\ StdMap.find k (data_store_ s') = None
      /\ StdMap.find k (write_buffer_ s') = None)
  /\ (forall j, ~ In j (coldest_keys s) ->
      StdMap.find j (metadata_store_ s') = StdMap.find j (metadata_store_ s))
  /\ (forall k mk j mj,
      In k (coldest_keys s) ->
      StdMap.find k (metadata_store_ s) = Some mk ->
      StdMap.find j (metadata_store_ s') = Some mj ->
      access_count mk <= access_count mj).
Proof.
  intros Hs Hne Hover Hdel n s'.
  assert (Hs' : s' = delete_coldest_data s).
  { unfold s', DigestiveDatabase.check_size_limit.
    apply N.ltb_lt in Hover. rewrite Hover, Hdel. reflexivity. }
  destruct (delete_coldest_data_fields s) as (Hm & Hd & Hb).
  destruct (coldest_keys_spec s Hs Hne) as (Hcount & Hnd & Hincl).
  rewrite Hs', Hm, Hd, Hb. split; [|split; [|split]].
  - pose proof (erase_all_length (coldest_keys s) (metadata_store_ s)
                  Hs Hnd Hincl) as Hlen.
    fold n in Hcount. rewrite <- Hcount.
    unfold n, StdMap.size, size_of. lia.
  - intros k Hk. repeat split; apply erase_all_find_in; exact Hk.
  - intros j Hj. apply erase_all_find_out. exact Hj.
  - intros k mk j mj Hk Hmk Hmj.
    assert (Hj : ~ In j (coldest_keys s)).
    { intros Hj. rewrite erase_all_find_in in Hmj by exact Hj. discriminate. }
    rewrite erase_all_find_out in Hmj by exact Hj.
    unfold DigestiveDatabase.coldest_keys in Hk, Hj.
    destruct (std_sort_sorts (eviction_candidates s)) as [Hperm Hsorted].
    set (items := std_sort colder (eviction_candidates s)) in *.
    set (c := N.to_nat (delete_count items)) in *.
    apply in_map_iff in Hk. destruct Hk as ([k0 a] & Hk0 & Hin).
    simpl in Hk0. subst k0.
    assert (Ha : a = access_count mk).
    { destruct (candidate_count s k a Hs) as (m0 & Hm0 & ->).
      - apply (Permutation_in _ Hperm). exact (In_firstn _ _ _ Hin).
      - congruence. }
    assert (Hrest : In (j, access_count mj) (skipn c items)).
    { pose proof (candidate_of s j mj Hmj) as Hc.
      apply (Permutation_in _ (Permutation_sym Hperm)) in Hc.
      rewrite <- (firstn_skipn c items) in Hc.
      apply in_app_or in Hc. destruct Hc as [Hc|Hc]; [|exact Hc].
      exfalso. apply Hj. apply in_map_iff. exists (j, access_count mj). auto. }
    pose proof (sorted_firstn_skipn _ _ _ _ _ Hsorted Hin Hrest) as Hle.
    unfold colder in Hle. simpl in Hle. apply N.ltb_ge in Hle. lia.
Qed.

End DatabaseFacts.

(* ================================================================== *)
(** * Facts about the chunked blob layer *)

Section ChunkFacts.
Import ChunkingEngine.

(** ** Chunk file names *)

Lemma to_string_from_step fuel n acc :
  to_string_from (S fuel) n acc
  = if n / 10 =? 0 then String (digit_char (n mod 10)) acc
    else to_string_from fuel (n / 10) (String (digit_char (n mod 10)) acc).
Proof. reflexivity. Qed.

Lemma to_string_from_grows fuel n acc :
  (String.length acc < String.length (to_string_from fuel n acc))%nat.
Proof.
  revert n acc. induction fuel as [|fuel IH]; intros n acc.
  - simpl. lia.
  - rewrite to_string_from_step. destruct (n / 10 =? 0).
    + simpl. lia.
    + specialize (IH (n / 10) (String (digit_char (n mod 10)) acc)).
      simpl in IH. lia.
Qed.

Lemma to_string_long id :
  1000 <= id -> (3 < String.length (to_string id))%nat.
Proof.
  intros Hid. unfold to_string.
  assert (H1 : 100 <= id / 10) by (apply N.div_le_lower_bound; lia).
  assert (H2 : 10 <= id / 10 / 10) by (apply N.div_le_lower_bound; lia).
  assert (H3 : 1 <= id / 10 / 10 / 10) by (apply N.div_le_lower_bound; lia).
  rewrite to_string_from_step.
  destruct (N.eqb_spec (id / 10) 0) as [E|_]; [lia|].
  rewrite to_string_from_step.
  destruct (N.eqb_spec (id / 10 / 10) 0) as [E|_]; [lia|].
  rewrite to_string_from_step.
  destruct (N.eqb_spec (id / 10 / 10 / 10) 0) as [E|_]; [lia|].
  match goal with
  | |- (_ < String.length (to_string_from ?f ?n ?acc))%nat =>
      pose proof (to_string_from_grows f n acc) as Hg
  end.
  simpl String.length in Hg at 1. lia.
Qed.

Lemma three_digit_names : forallb three_digit_name (map N.of_nat (seq 0 1000)) = true.
Proof. vm_compute. reflexivity. Qed.

Lemma three_digit_name_below id : id < 1000 -> three_digit_name id = true.
Proof.
  intros Hid. pose proof three_digit_names as Hall.
  rewrite forallb_forall in Hall. apply Hall.
  apply in_map_iff. exists (N.to_nat id). split; [lia|].
  apply in_seq. lia.
Qed.

Lemma append_inv_head p a b : (p ++ a)%string = (p ++ b)%string -> a = b.
Proof.
  induction p as [|c p IH]; simpl; intros Heq; [exact Heq|].
  inversion Heq. auto.
Qed.

(** Up to id 999 the path ends in the three-digit name. *)
Lemma get_chunk_path_below e k id :
  id < 1000 ->
  get_chunk_path e k id
  = Ok (chunks_dir_ e ++ "/" ++ k ++ "/" ++ spec_chunk_file_name id)%string.
Proof.
  intros Hid. pose proof (three_digit_name_below id Hid) as Hn.
  unfold three_digit_name in Hn.
  apply andb_prop in Hn. destruct Hn as [Hn _].
  apply andb_prop in Hn. destruct Hn as [Hlen Hname].
  apply String.eqb_eq in Hname.
  unfold get_chunk_path. rewrite Hlen. rewrite <- Hname. reflexivity.
Qed.

(** From id 1000 on the fill count wraps and the call throws. *)
Lemma get_chunk_path_above e k id :
  1000 <= id -> get_chunk_path e k id = Throws "std::length_error"%string.
Proof.
  intros Hid. pose proof (to_string_long id Hid) as Hlen.
  unfold get_chunk_path.
  destruct (Nat.leb_spec (String.length (to_string id)) 3) as [Hle|_];
    [lia | reflexivity].
Qed.

Lemma get_chunk_path_inj e k i j p :
  get_chunk_path e k i = Ok p -> get_chunk_path e k j = Ok p -> i = j.
Proof.
  intros Hi Hj.
  destruct (N.lt_ge_cases i 1000) as [Hi'|Hi'];
    [|rewrite get_chunk_path_above in Hi by exact Hi'; discriminate].
  destruct (N.lt_ge_cases j 1000) as [Hj'|Hj'];
    [|rewrite get_chunk_path_above in Hj by exact Hj'; discriminate].
  rewrite get_chunk_path_below in Hi, Hj by assumption.
  rewrite <- Hj in Hi.
  assert (Heq : spec_chunk_file_name i = spec_chunk_file_name j).
  { apply (append_inv_head "/"), (append_inv_head k),
      (append_inv_head "/"), (append_inv_head (chunks_dir_ e)).
    congruence. }
  pose proof (three_digit_name_below i Hi') as Hni.
  pose proof (three_digit_name_below j Hj') as Hnj.
  unfold three_digit_name in Hni, Hnj.
  apply andb_prop in Hni. destruct Hni as [_ Hni].
  apply andb_prop in Hnj. destruct Hnj as [_ Hnj].
  apply N.eqb_eq in Hni. apply N.eqb_eq in Hnj.
  rewrite <- Hni, <- Hnj, Heq. reflexivity.
Qed.

Lemma get_chunk_path_dir e e' k i :
  chunks_dir_ e' = chunks_dir_ e -> get_chunk_path e' k i = get_chunk_path e k i.
Proof. intros Hd. unfold get_chunk_path. rewrite Hd. reflexivity. Qed.

(** ** Slices *)

Lemma filled_buffer_exact (x : bytes) : filled_buffer (size_of x) x = x.
Proof.
  unfold filled_buffer, size_of. rewrite Nat2N.id, firstn_all, Nat.sub_diag.
  apply app_nil_r.
Qed.

Lemma slice_size data from len :
  from + len <= size_of data -> size_of (slice data from len) = len.
Proof.
  unfold slice, size_of. intros Hle.
  rewrite length_firstn, length_skipn. lia.
Qed.

Lemma firstn_plus {A} a b (x : list A) :
  firstn a x ++ firstn b (skipn a x) = firstn (a + b) x.
Proof.
  revert x. induction a as [|a IH]; intros x; [reflexivity|].
  destruct x as [|h x]; simpl.
  - rewrite firstn_nil. reflexivity.
  - rewrite IH. reflexivity.
Qed.

Lemma slice_app data o l1 l2 :
  slice data o l1 ++ slice data (o + l1) l2 = slice data o (l1 + l2).
Proof.
  unfold slice. rewrite !N2Nat.inj_add.
  rewrite (Nat.add_comm (N.to_nat o)), <- skipn_skipn.
  apply firstn_plus.
Qed.

Lemma slice_empty data o : slice data o 0 = [].
Proof. reflexivity. Qed.

(** ** Chunk geometry *)

(** Every chunk id below the stored [num_chunks] starts inside the data. *)
Lemma chunk_starts_inside C S i :
  C <> 0 ->
  i < wrap32 (wrap64 (S + C - 1) / C) ->
  i * C < S.
Proof.
  intros HC Hi. unfold wrap32, wrap64 in Hi.
  set (w := (S + C - 1) mod 2 ^ 64) in *.
  assert (Hw : w <= S + C - 1) by (apply N.Div0.mod_le).
  assert (Hq : (w / C) mod 2 ^ 32 <= w / C) by (apply N.Div0.mod_le).
  assert (Hmul : C * (w / C) <= w) by (apply N.Div0.mul_div_le).
  assert (Hi' : (i + 1) * C <= C * (w / C)) by nia.
  nia.
Qed.

Lemma chunk_data_plain e data i :
  size_of data < 2 ^ 64 ->
  i * default_chunk_size_ e < size_of data ->
  chunk_data_size e data i
    = N.min (default_chunk_size_ e) (size_of data - i * default_chunk_size_ e)
  /\ chunk_data e data i
    = slice data (i * default_chunk_size_ e)
        (N.min (default_chunk_size_ e)
               (size_of data - i * default_chunk_size_ e)).
Proof.
  intros HS Hi. unfold chunk_data, chunk_data_size, wrap64.
  rewrite N.mod_small by lia. unfold sub64.
  destruct (N.leb_spec (i * default_chunk_size_ e) (size_of data)); [|lia].
  auto.
Qed.

(** Consecutive chunks laid end to end are one slice of the data. *)
Lemma concat_pieces data C count a :
  (a + N.of_nat count) * C < size_of data + C ->
  List.concat (map (fun j => slice data (j * C) (N.min C (size_of data - j * C)))
              (chunk_ids a count))
  = slice data (a * C)
      (N.min ((a + N.of_nat count) * C) (size_of data) - a * C).
Proof.
  revert a. induction count as [|count IH]; intros a Hlast.
  - simpl. replace (N.min _ _ - a * C) with 0 by lia. reflexivity.
  - cbn [chunk_ids map List.concat]. rewrite IH by lia.
    destruct count as [|count].
    + replace (N.min ((a + 1 + N.of_nat 0) * C) (size_of data) - (a + 1) * C)
        with 0 by lia.
      rewrite slice_empty, app_nil_r. f_equal. lia.
    + replace (N.min C (size_of data - a * C)) with C by nia.
      replace ((a + 1) * C) with (a * C + C) by lia.
      rewrite slice_app. f_equal. nia.
Qed.

(** ** The insert loop *)

Lemma insert_chunks_step e k data f count i files cs :
  insert_chunks e k data f (S count) i files cs
  = (chunk_path <- get_chunk_path e k i ;;
     insert_chunks e k data f count (i + 1)
       (StdMap.insert chunk_path (f (chunk_data e data i) 4) files)
       (StdMap.insert i
          (fresh_chunk i (size_of (f (chunk_data e data i) 4))
                       (chunk_data_size e data i)) cs)).
Proof. reflexivity. Qed.

(** The loop touches no file and no index entry but those of its ids. *)
Lemma insert_chunks_preserves e k data f count i files cs r :
  insert_chunks e k data f count i files cs = Ok r ->
  (forall p,
     (forall j, i <= j < i + N.of_nat count -> get_chunk_path e k j <> Ok p) ->
     StdMap.find p (fst r) = StdMap.find p files)
  /\ (forall q, q < i -> StdMap.find q (snd r) = StdMap.find q cs).
Proof.
  revert i files cs. induction count as [|count IH]; intros i files cs Hr.
  - simpl in Hr. inversion Hr. simpl. auto.
  - rewrite insert_chunks_step in Hr.
    destruct (get_chunk_path e k i) as [p0| |] eqn:Hp0; try discriminate.
    cbn [bind] in Hr. destruct (IH _ _ _ Hr) as [Hfiles Hcs]. split.
    + intros p Hp. rewrite Hfiles by (intros j Hj; apply Hp; lia).
      apply find_insert_other. intros ->. apply (Hp i); [lia | exact Hp0].
    + intros q Hq. rewrite Hcs by lia.
      apply find_insert_other. lia.
Qed.

(** After the loop every id it ran over has its file and its index entry. *)
Lemma insert_chunks_spec e k data f count i files cs r :
  insert_chunks e k data f count i files cs = Ok r ->
  forall j, i <= j < i + N.of_nat count ->
  exists p,
    get_chunk_path e k j = Ok p
    /\ StdMap.find p (fst r) = Some (f (chunk_data e data j) 4)
    /\ StdMap.find j (snd r)
       = Some (fresh_chunk j (size_of (f (chunk_data e data j) 4))
                           (chunk_data_size e data j)).
Proof.
  revert i files cs. induction count as [|count IH]; intros i files cs Hr j Hj.
  - lia.
  - rewrite insert_chunks_step in Hr.
    destruct (get_chunk_path e k i) as [p0| |] eqn:Hp0; try discriminate.
    cbn [bind] in Hr.
    destruct (N.eq_dec j i) as [->|Hne].
    + destruct (insert_chunks_preserves _ _ _ _ _ _ _ _ _ Hr) as [Hfiles Hcs].
      exists p0. split; [exact Hp0|]. split.
      * rewrite Hfiles; [apply find_insert_same|].
        intros j' Hj' Hp. pose proof (get_chunk_path_inj _ _ _ _ _ Hp Hp0). lia.
      * rewrite Hcs by lia. apply find_insert_same.
    + apply (IH _ _ _ Hr). lia.
Qed.

(** Past a thousand chunks the loop reaches id 1000 and throws. *)
Lemma insert_chunks_too_many e k data f count i files cs :
  i <= 1000 -> 1000 < i + N.of_nat count ->
  insert_chunks e k data f count i files cs
  = Throws "std::length_error"%string.
Proof.
  revert i files cs. induction count as [|count IH]; intros i files cs Hi Hn.
  - lia.
  - rewrite insert_chunks_step.
    destruct (N.eq_dec i 1000) as [->|Hne].
    + rewrite get_chunk_path_above by lia. reflexivity.
    + rewrite get_chunk_path_below by lia. cbn [bind]. apply IH; lia.
Qed.

Lemma insert_chunked_too_many e k data f :
  default_chunk_size_ e <> 0 ->
  1000 < wrap32 (wrap64 (size_of data + default_chunk_size_ e - 1)
                 / default_chunk_size_ e) ->
  insert_chunked e k data f = Throws "std::length_error"%string.
Proof.
  intros HC Hn. unfold insert_chunked.
  destruct (N.eqb_spec (default_chunk_size_ e) 0) as [|_]; [contradiction|].
  rewrite insert_chunks_too_many by lia. reflexivity.
Qed.

(** ** The read loop *)

Lemma read_chunks_spec e now k d (piece : N -> bytes) count i cs result :
  (forall j, i <= j < i + N.of_nat count ->
   exists p content m,
     get_chunk_path e k j = Ok p
     /\ StdMap.find p (chunk_files e) = Some content
     /\ StdMap.find j cs = Some m
     /\ d (filled_buffer (compressed_size m) content) (tier m) (original_size m)
        = piece j) ->
  exists cs',
    read_chunks e now k d count i cs result
    = Ok ((result ++ List.concat (map piece (chunk_ids i count)))%list, cs').
Proof.
  revert i cs result. induction count as [|count IH]; intros i cs result Hall.
  - exists cs. simpl. rewrite app_nil_r. reflexivity.
  - destruct (Hall i ltac:(lia)) as (p & content & m & Hp & Hfile & Hm & Hd).
    cbn [read_chunks]. rewrite Hm, Hp. cbn [bind]. rewrite Hfile, Hd.
    destruct (IH (i + 1) (StdMap.insert i (heated now m) cs)
                 (result ++ piece i)%list) as (cs' & ->).
    + intros j Hj.
      destruct (Hall j ltac:(lia)) as (p' & content' & m' & H1 & H2 & H3 & H4).
      exists p', content', m'. repeat split; try assumption.
      rewrite find_insert_other by lia. exact H3.
    + exists cs'. cbn [chunk_ids map List.concat].
      rewrite <- app_assoc. reflexivity.
Qed.

(** ** Insert, then read a range *)

Lemma insert_chunked_inv e k data f e' :
  insert_chunked e k data f = Ok e' ->
  default_chunk_size_ e <> 0
  /\ exists r,
       let n :=
         wrap32 (wrap64 (size_of data + default_chunk_size_ e - 1)
                 / default_chunk_size_ e) in
       insert_chunks e k data f (N.to_nat n) 0 (chunk_files e) [] = Ok r
       /\ chunks_dir_ e' = chunks_dir_ e
       /\ chunk_files e' = fst r
       /\ StdMap.find k (file_metadata_ e')
          = Some {| key := k; total_size := size_of data;
                    chunk_size := default_chunk_size_ e;
                    num_chunks := n; chunks := snd r |}.
Proof.
  unfold insert_chunked. intros Hins.
  destruct (N.eqb_spec (default_chunk_size_ e) 0) as [|HC]; [discriminate|].
  split; [exact HC|].
  destruct (insert_chunks e k data f _ 0 (chunk_files e) []) as [r| |] eqn:Hr;
    try discriminate.
  cbn [bind] in Hins. inversion Hins. subst e'. exists r. cbn zeta.
  split; [reflexivity|]. simpl.
  split; [reflexivity|]. split; [reflexivity|]. apply find_insert_same.
Qed.

(** Beside C2: where the count holds. After [insert_chunked] of [data]
    under key [k] succeeded, and with a [decompress_fn] that undoes
    [compress_fn] on every chunk at tier 4 and the chunk's length,
    [get_chunk_range] over [a .. b], for [a <= b] below the [num_chunks]
    the insert stored, returns the bytes of [data] from [a * C] up to
    [min ((b + 1) * C, S)]; and the stored [num_chunks] is [ceil (S / C)]
    when neither [S + C - 1] overflows its 64 bits nor the quotient its
    32. *)
Theorem get_chunk_range_after_insert e k data f d e' now a b :
  size_of data < 2 ^ 64 ->
  insert_chunked e k data f = Ok e' ->
  (forall i, i < stored_num_chunks e' k ->
     let x :=
       slice data (i * default_chunk_size_ e)
         (N.min (default_chunk_size_ e)
                (size_of data - i * default_chunk_size_ e)) in
     d (f x 4) 4 (size_of x) = x) ->
  a <= b ->
  b < stored_num_chunks e' k ->
  returned (get_chunk_range e' now k a b d)
  = Ok (Some (slice data (a * default_chunk_size_ e)
                (N.min ((b + 1) * default_chunk_size_ e) (size_of data)
                 - a * default_chunk_size_ e)))
  /\ (size_of data + default_chunk_size_ e - 1 < 2 ^ 64 ->
      (size_of data + default_chunk_size_ e - 1) / default_chunk_size_ e
        < 2 ^ 32 ->
      stored_num_chunks e' k
      = (size_of data + default_chunk_size_ e - 1) / default_chunk_size_ e).
Proof.
  intros HS Hins Hcodec Hab Hb.
  destruct (insert_chunked_inv _ _ _ _ _ Hins)
    as (HC & r & Hloop & Hdir & Hfiles & Hmeta).
  set (C := default_chunk_size_ e) in *.
  set (n := wrap32 (wrap64 (size_of data + C - 1) / C)) in *.
  assert (Hn : stored_num_chunks e' k = n).
  { unfold stored_num_chunks, get_metadata. rewrite Hmeta. reflexivity. }
  rewrite Hn in *. split.
  - unfold get_chunk_range. rewrite Hmeta. cbn [num_chunks chunks].
    destruct (N.leb_spec n a); [lia|]. destruct (N.leb_spec n b); [lia|].
    cbn [orb].
    set (piece := fun j => slice data (j * C) (N.min C (size_of data - j * C))).
    destruct (read_chunks_spec e' now k d piece (turns a b) a (snd r) [])
      as (cs' & ->).
    + intros j Hj. unfold turns in Hj.
      destruct (N.leb_spec a b); [|lia].
      assert (Hjn : j < n) by lia.
      assert (Hjs : j * C < size_of data)
        by (apply chunk_starts_inside; assumption).
      destruct (insert_chunks_spec _ _ _ _ _ _ _ _ _ Hloop j ltac:(lia))
        as (p & Hp & Hfile & Hcs).
      destruct (chunk_data_plain e data j HS Hjs) as [Hsize Hdata].
      fold C in Hsize, Hdata. fold (piece j) in Hdata.
      exists p, (f (piece j) 4), (fresh_chunk j (size_of (f (piece j) 4))
                                   (N.min C (size_of data - j * C))).
      split; [rewrite (get_chunk_path_dir e e') by exact Hdir; exact Hp|].
      split; [rewrite Hfiles, Hfile, Hdata; reflexivity|].
      split; [rewrite Hcs, Hdata, Hsize; reflexivity|].
      cbn [compressed_size tier original_size fresh_chunk].
      rewrite filled_buffer_exact.
      specialize (Hcodec j Hjn). cbn zeta in Hcodec. fold (piece j) in Hcodec.
      replace (size_of (piece j)) with (N.min C (size_of data - j * C))
        in Hcodec by (symmetry; apply slice_size; lia).
      exact Hcodec.
    + cbn [bind returned fst app]. f_equal. f_equal.
      unfold piece. rewrite concat_pieces.
      * unfold turns. destruct (N.leb_spec a b); [|lia].
        rewrite N2Nat.id. replace (a + (b - a + 1)) with (b + 1) by lia.
        reflexivity.
      * unfold turns. destruct (N.leb_spec a b); [|lia].
        rewrite N2Nat.id.
        assert (Hbs : b * C < size_of data)
          by (apply chunk_starts_inside; assumption).
        nia.
  - intros Hno64 Hno32. unfold n, wrap32, wrap64.
    rewrite (N.mod_small (size_of data + C - 1)) by exact Hno64.
    apply N.mod_small. exact Hno32.
Qed.

(** C4 (as amended). For a key of the chunk index, [get_chunk_range]
    returns absent exactly when [start_chunk] or [end_chunk] is not below
    [num_chunks]. A range with [end_chunk < start_chunk < num_chunks] is
    not refused: its loop makes no turn and the call returns the empty
    byte sequence. *)
Theorem get_chunk_range_absent e now k file_meta start_chunk end_chunk d :
  get_metadata e k = Some file_meta ->
  (returned (get_chunk_range e now k start_chunk end_chunk d) = Ok None
   <-> (num_chunks file_meta <= start_chunk
        \/ num_chunks file_meta <= end_chunk))
  /\ (end_chunk < start_chunk ->
      start_chunk < num_chunks file_meta ->
      returned (get_chunk_range e now k start_chunk end_chunk d)
      = Ok (Some [])).
Proof.
  unfold get_metadata. intros Hmeta. unfold get_chunk_range. rewrite Hmeta.
  destruct (N.leb_spec (num_chunks file_meta) start_chunk) as [Hs|Hs];
    destruct (N.leb_spec (num_chunks file_meta) end_chunk) as [He|He];
    cbn [orb]; split; try (simpl; split; auto; lia); try lia.
  - destruct (read_chunks e now k d _ start_chunk _ []) as [[res cs]| |];
      cbn [bind returned]; (split; [discriminate | lia]).
  - intros Hinv _. unfold turns.
    destruct (N.leb_spec start_chunk end_chunk); [lia|]. reflexivity.
Qed.

(** C9 (what the code does). Up to id 999 the chunk path ends in
    [chunk_NNN.bin] with the id padded to three digits. From id 1000 on no
    name is produced: the pad length [3 - length] wraps below zero and the
    [std::string] fill constructor throws [std::length_error]. *)
Theorem get_chunk_path_padding e k id :
  (id < 1000 ->
   get_chunk_path e k id
   = Ok (chunks_dir_ e ++ "/" ++ k ++ "/" ++ spec_chunk_file_name id)%string)
  /\ (1000 <= id ->
      get_chunk_path e k id = Throws "std::length_error"%string).
Proof.
  split; [apply get_chunk_path_below | apply get_chunk_path_above].
Qed.

End ChunkFacts.

(* ================================================================== *)
(** * Straight insertion meets the contract of [std::sort] *)

Lemma sort_insert_perm {A} (comp : A -> A -> bool) x l :
  Permutation (sort_insert comp x l) (x :: l).
Proof.
  induction l as [|y l IH]; simpl; [reflexivity|].
  destruct (comp x y); [reflexivity|].
  rewrite IH. apply perm_swap.
Qed.

Lemma insertion_sort_perm {A} (comp : A -> A -> bool) l :
  Permutation (insertion_sort comp l) l.
Proof.
  unfold insertion_sort.
  assert (Hgen : forall acc,
            Permutation (fold_left (fun acc x => sort_insert comp x acc) l acc)
                        (acc ++ l)).
  { induction l as [|x l IH]; intros acc; simpl.
    - rewrite app_nil_r. reflexivity.
    - rewrite IH, sort_insert_perm. apply Permutation_middle. }
  exact (Hgen []).
Qed.

Lemma sort_insert_colder x l :
  StronglySorted (fun a b => DigestiveDatabase.colder b a = false) l ->
  StronglySorted (fun a b => DigestiveDatabase.colder b a = false)
                 (sort_insert DigestiveDatabase.colder x l).
Proof.
  unfold DigestiveDatabase.colder.
  induction l as [|y l IH]; intros Hs; simpl.
  - constructor; constructor.
  - apply StronglySorted_inv in Hs. destruct Hs as [Hs Hall].
    destruct (N.ltb_spec (snd x) (snd y)) as [Hlt|Hge].
    + constructor; [constructor; assumption|].
      constructor; [apply N.ltb_ge; lia|].
      rewrite Forall_forall in *. intros z Hz.
      specialize (Hall z Hz). apply N.ltb_ge in Hall. apply N.ltb_ge. lia.
    + constructor; [apply IH; exact Hs|].
      rewrite Forall_forall in *. intros z Hz.
      apply (Permutation_in _ (sort_insert_perm _ x l)) in Hz.
      destruct Hz as [<-|Hz]; [apply N.ltb_ge; lia | exact (Hall z Hz)].
Qed.

Lemma insertion_sort_sorts :
  sorts (@insertion_sort (string * N)) DigestiveDatabase.colder.
Proof.
  intros l. split; [apply insertion_sort_perm|].
  unfold insertion_sort.
  assert (Hgen : forall acc,
            StronglySorted
              (fun a b => DigestiveDatabase.colder b a = false) acc ->
            StronglySorted
              (fun a b => DigestiveDatabase.colder b a = false)
              (fold_left
                 (fun acc x => sort_insert DigestiveDatabase.colder x acc)
                 l acc)).
  { induction l as [|x l IH]; intros acc Hacc; simpl; [exact Hacc|].
    apply IH. apply sort_insert_colder. exact Hacc. }
  apply Hgen. constructor.
Qed.

(* ================================================================== *)
(** * The model at concrete inputs *)

Section Runs.
Import DigestiveDatabase Scenario.

#[local] Abbreviation isort := (@insertion_sort (string * N)).

Lemma well_formed_lazy_one : well_formed lazy_one.
Proof. repeat split; try reflexivity. discriminate. Defined.

Lemma within_limit_lazy_one : within_limit lazy_one.
Proof. left. reflexivity. Defined.

(** C1, counterexample. Under a store that may delete and is over its
    size limit, the size check of [insert_binary] evicts the coldest key --
    the one just written -- and the read that follows finds nothing. *)
Lemma insert_then_get_evicted :
  well_formed tight_one
  /\ allow_deletion (config_ tight_one) = true
  /\ max_size_bytes (config_ tight_one) < get_size_on_disk tight_one
  /\ returned (fetch (put tight_one 1 "a"%string [Byte.x41]) 2 "a"%string)
     = Ok None
  /\ returned (fetch (put tight_one 1 "a"%string [Byte.x41]) 2 "a"%string)
     <> Ok (Some [Byte.x41]).
Proof.
  split; [repeat split; reflexivity|].
  split; [reflexivity|]. split; [reflexivity|].
  assert (E : returned (fetch (put tight_one 1 "a"%string [Byte.x41])
                              2 "a"%string) = Ok None)
    by (vm_compute; reflexivity).
  rewrite E. split; [reflexivity | discriminate].
Qed.

(** C1, witness: a store with a staged write takes a second key and gives
    it back. *)
Lemma insert_then_get_witness :
  well_formed lazy_one
  /\ within_limit lazy_one
  /\ returned (get_binary framing_lib
                 (insert_binary framing_lib isort lazy_one 1 "j"%string
                    [Byte.x42; Byte.x43])
                 2 "j"%string)
     = Ok (Some [Byte.x42; Byte.x43]).
Proof.
  split; [exact well_formed_lazy_one|].
  split; [exact within_limit_lazy_one|].
  apply (insert_then_get framing_lib isort lazy_one 1 2 "j"%string
           [Byte.x42; Byte.x43] well_formed_lazy_one within_limit_lazy_one).
  intros _. reflexivity.
Defined.

(** Beside C1: a tier with caller-supplied hooks is written through
    [compress_fn], but no read goes through [decompress_fn]; the value
    comes back as the hook left it. *)
Lemma custom_hooks_one_way :
  returned (fetch (put (open empty_dir hooked_config 0) 1 "k"%string
                       [Byte.x41; Byte.x42]) 2 "k"%string)
  = Ok (Some [Byte.x42; Byte.x41]).
Proof. reflexivity. Qed.

(** Beside C2: the second of two one-byte chunks. *)
Lemma get_chunk_range_after_insert_witness :
  size_of [Byte.x41; Byte.x42] < 2 ^ 64
  /\ ChunkingEngine.insert_chunked tiny_engine "k" [Byte.x41; Byte.x42]
       plain_compress = Ok two_chunks
  /\ returned (ChunkingEngine.get_chunk_range two_chunks 9 "k" 1 1
                 plain_decompress)
     = Ok (Some [Byte.x42]).
Proof.
  assert (Hsize : size_of [Byte.x41; Byte.x42] < 2 ^ 64) by reflexivity.
  assert (Hins : ChunkingEngine.insert_chunked tiny_engine "k"
                   [Byte.x41; Byte.x42] plain_compress = Ok two_chunks)
    by reflexivity.
  split; [exact Hsize|]. split; [exact Hins|].
  apply (get_chunk_range_after_insert tiny_engine "k" [Byte.x41; Byte.x42]
           plain_compress plain_decompress two_chunks 9 1 1 Hsize Hins).
  - intros i _. reflexivity.
  - discriminate.
  - reflexivity.
Defined.

(** C3, at the failing input. A key inserted under [lazy_persistence]
    lives in the write buffer only; [remove] erases it there and in the
    metadata map, yet reports [false], because [found] looks at the data
    map alone. *)
Theorem remove_buffered_key :
  lazy_persistence (config_ lazy_one) = true
  /\ StdMap.find "k"%string (write_buffer_ lazy_one)
     = Some [Byte.x02; Byte.x41]
  /\ StdMap.find "k"%string (data_store_ lazy_one) = None
  /\ get_metadata lazy_one "k"%string <> None
  /\ fst (drop lazy_one 1 "k"%string) = false
  /\ stored_blob (snd (drop lazy_one 1 "k"%string)) "k"%string = None
  /\ get_metadata (snd (drop lazy_one 1 "k"%string)) "k"%string = None.
Proof.
  repeat split; try reflexivity. discriminate.
Qed.

(** C4, counterexample. On a file of two chunks the range [1 .. 0] is not
    refused: the call returns the empty byte sequence. *)
Lemma get_chunk_range_inverted :
  stored_num_chunks two_chunks "k" = 2
  /\ returned (ChunkingEngine.get_chunk_range two_chunks 9 "k" 1 0
                 plain_decompress)
     = Ok (Some [])
  /\ returned (ChunkingEngine.get_chunk_range two_chunks 9 "k" 1 0
                 plain_decompress)
     <> Ok None.
Proof.
  split; [reflexivity|]. split; [reflexivity | discriminate].
Qed.

(** C4, witness: past the end of a two-chunk file. *)
Lemma get_chunk_range_absent_witness :
  exists file_meta,
    ChunkingEngine.get_metadata two_chunks "k" = Some file_meta
    /\ ChunkingEngine.num_chunks file_meta <= 2
    /\ returned (ChunkingEngine.get_chunk_range two_chunks 9 "k" 0 2
                   plain_decompress)
       = Ok None.
Proof.
  eexists. split; [reflexivity|]. split; [discriminate|].
  eapply (proj1 (get_chunk_range_absent two_chunks 9 "k" _ 0 2
                   plain_decompress eq_refl)).
  right. discriminate.
Defined.

(** C5, counterexample. The same eviction leaves no metadata record for
    the key just inserted. *)
Lemma insert_binary_metadata_evicted :
  allow_deletion (config_ tight_one) = true
  /\ max_size_bytes (config_ tight_one) < get_size_on_disk tight_one
  /\ get_metadata (put tight_one 1 "a"%string [Byte.x41]) "a"%string = None.
Proof.
  repeat split; reflexivity.
Qed.

(** C5, witness. *)
Lemma insert_binary_metadata_witness :
  well_formed lazy_one
  /\ within_limit lazy_one
  /\ exists m blob,
       get_metadata (insert_binary framing_lib isort lazy_one 7 "j"%string
                       [Byte.x42; Byte.x43]) "j"%string = Some m
       /\ tier m = TIER_4
       /\ algorithm m = tier_algorithm (tier_configs (config_ lazy_one) TIER_4)
       /\ access_count m = 0
       /\ last_access m = 7
       /\ original_size m = size_of [Byte.x42; Byte.x43]
       /\ stored_blob (insert_binary framing_lib isort lazy_one 7 "j"%string
                         [Byte.x42; Byte.x43]) "j"%string = Some blob
       /\ compressed_size m = size_of blob.
Proof.
  split; [exact well_formed_lazy_one|].
  split; [exact within_limit_lazy_one|].
  exact (insert_binary_metadata framing_lib isort lazy_one 7 "j"%string
           [Byte.x42; Byte.x43] well_formed_lazy_one within_limit_lazy_one).
Defined.

(** C6, counterexample. Two keys with equal access counts: in one store
    ["b"] was written first, in the other ["a"]. The rule of the
    specification evicts the one with the older [last_access] -- ["b"],
    then ["a"]. The code hands [std::sort] the same candidates both times,
    key and access count only, so it evicts the same key both times; with
    a sort that keeps ties in place that key is ["a"]. *)
Lemma eviction_ignores_last_access :
  allow_deletion (config_ (two_cold "b" "a")) = true
  /\ max_size_bytes (config_ (two_cold "b" "a"))
     < get_size_on_disk (two_cold "b" "a")
  /\ eviction_candidates (two_cold "b" "a")
     = eviction_candidates (two_cold "a" "b")
  /\ spec_coldest_keys (two_cold "b" "a") = ["b"%string]
  /\ spec_coldest_keys (two_cold "a" "b") = ["a"%string]
  /\ coldest_keys isort (two_cold "b" "a") = ["a"%string]
  /\ coldest_keys isort (two_cold "a" "b") = ["a"%string]
  /\ get_metadata (check_size_limit isort (two_cold "b" "a")) "a"%string = None
  /\ get_metadata (check_size_limit isort (two_cold "b" "a")) "b"%string
     <> None.
Proof.
  repeat split; try reflexivity. discriminate.
Qed.

(** C6, witness. *)
Lemma eviction_removes_coldest_witness :
  StdMap.sorted (metadata_store_ (two_cold "a" "b")) = true
  /\ metadata_store_ (two_cold "a" "b") <> []
  /\ max_size_bytes (config_ (two_cold "a" "b"))
     < get_size_on_disk (two_cold "a" "b")
  /\ allow_deletion (config_ (two_cold "a" "b")) = true
  /\ StdMap.size (metadata_store_ (check_size_limit isort (two_cold "a" "b")))
     + N.max (StdMap.size (metadata_store_ (two_cold "a" "b")) / 10) 1
     = StdMap.size (metadata_store_ (two_cold "a" "b")).
Proof.
  assert (H1 : StdMap.sorted (metadata_store_ (two_cold "a" "b")) = true)
    by reflexivity.
  assert (H2 : metadata_store_ (two_cold "a" "b") <> []) by discriminate.
  assert (H3 : max_size_bytes (config_ (two_cold "a" "b"))
               < get_size_on_disk (two_cold "a" "b")) by reflexivity.
  assert (H4 : allow_deletion (config_ (two_cold "a" "b")) = true)
    by reflexivity.
  repeat (split; [assumption|]).
  exact (proj1 (eviction_removes_coldest isort insertion_sort_sorts
                  (two_cold "a" "b") H1 H2 H3 H4)).
Defined.

(** C7, counterexample. The read of ["b"] is the fourth operation and
    fires a reorganization: the record of ["a"], which the read did not
    touch, moves from tier 4 to tier 0. *)
Lemma get_binary_retiers_other_key :
  returned (fetch warm_a_cold_b 4 "b"%string) = Ok (Some [Byte.x42])
  /\ option_map tier (get_metadata warm_a_cold_b "a"%string) = Some TIER_4
  /\ option_map tier
       (get_metadata (after (fetch warm_a_cold_b 4 "b"%string) warm_a_cold_b)
          "a"%string)
     = Some TIER_0
  /\ get_metadata (after (fetch warm_a_cold_b 4 "b"%string) warm_a_cold_b)
       "a"%string
     <> get_metadata warm_a_cold_b "a"%string.
Proof.
  repeat split; try reflexivity. vm_compute. discriminate.
Qed.

(** C7, witness. *)
Lemma get_binary_counts_witness :
  StdMap.sorted (write_buffer_ warm_a_cold_b) = true
  /\ stored_blob warm_a_cold_b "b"%string = Some [Byte.x02; Byte.x42]
  /\ exists m,
       get_metadata warm_a_cold_b "b"%string = Some m
       /\ access_count m + 1 < 2 ^ 64
       /\ total_accesses_ warm_a_cold_b + 1 < 2 ^ 64
       /\ exists v s',
            get_binary framing_lib warm_a_cold_b 4 "b"%string
            = Ok (Some v, s')
            /\ total_accesses_ s' = total_accesses_ warm_a_cold_b + 1.
Proof.
  split; [reflexivity|]. split; [reflexivity|].
  eexists. split; [reflexivity|].
  split; [reflexivity|]. split; [reflexivity|].
  destruct (get_binary_counts framing_lib warm_a_cold_b 4 "b"%string
              [Byte.x02; Byte.x42] _ eq_refl eq_refl eq_refl eq_refl eq_refl)
    as (v & s' & Hget & _ & Htotal & _).
  exists v, s'. split; [exact Hget | exact Htotal].
Defined.

(** C8, witness: [data.db] holds key ["a"], [metadata.db] is missing. *)
Lemma get_binary_without_metadata_witness :
  StdMap.mem "a"%string (data_store_ (open orphan_dir default_config 0)) = true
  /\ metadata_store_ (open orphan_dir default_config 0) = []
  /\ get_binary framing_lib (open orphan_dir default_config 0) 1 "a"%string
     = Undefined.
Proof.
  split; [reflexivity|].
  exact (get_binary_without_metadata framing_lib
           [("a"%string, [Byte.x41])] 0 default_config 0 1 "a"%string eq_refl).
Defined.

(** C9, witness: chunk 7 and chunk 1000. *)
Lemma get_chunk_path_padding_witness :
  (7 < 1000
   /\ ChunkingEngine.get_chunk_path tiny_engine "k" 7
      = Ok "db/chunks/k/chunk_007.bin"%string)
  /\ (1000 <= 1000
      /\ ChunkingEngine.get_chunk_path tiny_engine "k" 1000
         = Throws "std::length_error"%string).
Proof.
  split.
  - split; [reflexivity|].
    exact (proj1 (get_chunk_path_padding tiny_engine "k" 7) eq_refl).
  - split; [discriminate|].
    apply (proj2 (get_chunk_path_padding tiny_engine "k" 1000)). discriminate.
Defined.

(** C10, witness: a store under [MANUAL] asked for a key it never had. *)
Lemma get_binary_miss_witness :
  reorg_strategy (config_ lazy_one) = MANUAL
  /\ StdMap.find "zz"%string (write_buffer_ lazy_one) = None
  /\ StdMap.find "zz"%string (data_store_ lazy_one) = None
  /\ get_binary framing_lib lazy_one 5 "zz"%string = Ok (None, lazy_one)
  /\ operations_since_reorg_ lazy_one = 1.
Proof.
  split; [reflexivity|]. split; [reflexivity|]. split; [reflexivity|].
  split; [|reflexivity].
  exact (get_binary_miss framing_lib lazy_one 5 "zz"%string eq_refl eq_refl).
Defined.

End Runs.

(* ================================================================== *)
(** * More about the inline store *)

Section StoreFacts.
Import DigestiveDatabase StoreApi.
Variable lib : CodecLib.
Variable std_sort :
  (string * N -> string * N -> bool) -> list (string * N) -> list (string * N).

#[local] Abbreviation insert_binary' := (insert_binary lib std_sort).
#[local] Abbreviation get_binary' := (get_binary lib).
#[local] Abbreviation remove' := (remove lib).
#[local] Abbreviation reorganize' := (reorganize lib).
#[local] Abbreviation after_operation' := (after_operation lib).
#[local] Abbreviation check_size_limit' := (check_size_limit std_sort).
#[local] Abbreviation staged' := (staged lib).
#[local] Abbreviation run' := (run lib std_sort).
#[local] Abbreviation perform' := (perform lib std_sort).

(** ** [flush] *)

Lemma stored_blob_flush s k :
  StdMap.sorted (write_buffer_ s) = true ->
  stored_blob (flush s) k = stored_blob s k.
Proof.
  intros Hs. unfold stored_blob.
  destruct (flush_keeps s) as (_ & _ & _ & _ & _ & Hb).
  rewrite Hb. simpl. apply flush_find. exact Hs.
Qed.

(** X1. [flush] empties the write buffer and leaves every key with the
    blob a read would have seen before it, and the metadata as it was; a
    second [flush] changes nothing. *)
Theorem flush_moves_buffer s :
  StdMap.sorted (write_buffer_ s) = true ->
  write_buffer_ (flush s) = []
  /\ (forall k, stored_blob (flush s) k = stored_blob s k)
  /\ (forall k, StdMap.find k (data_store_ (flush s)) = stored_blob s k)
  /\ metadata_store_ (flush s) = metadata_store_ s
  /\ flush (flush s) = flush s.
Proof.
  intros Hs. destruct (flush_keeps s) as (Hm & _ & _ & _ & _ & Hb).
  split; [exact Hb|].
  assert (Hidem : flush (flush s) = flush s)
    by (unfold flush at 1; rewrite Hb; reflexivity).
  split; [intros k; apply stored_blob_flush; exact Hs|].
  split; [|split; [exact Hm | exact Hidem]].
  intros k. rewrite <- (stored_blob_flush s k Hs). unfold stored_blob.
  rewrite Hb. reflexivity.
Qed.

(** ** The staged store of [insert_binary] *)

Lemma insert_binary_as_staged s now k data :
  insert_binary' s now k data
  = after_operation' (check_size_limit' (staged' s now k data)) now.
Proof. reflexivity. Qed.

Lemma staged_fields s now k data :
  metadata_store_ (staged' s now k data)
  = StdMap.insert k (fresh_metadata lib s now data) (metadata_store_ s)
  /\ config_ (staged' s now k data) = config_ s
  /\ db_path_ (staged' s now k data) = db_path_ s
  /\ total_accesses_ (staged' s now k data) = total_accesses_ s
  /\ operations_since_reorg_ (staged' s now k data)
     = operations_since_reorg_ s.
Proof.
  unfold staged. destruct (lazy_persistence (config_ s)); [|simpl; auto].
  set (s' := with_write_buffer _ _ s).
  destruct (_ <=? _); [|simpl; auto].
  destruct (flush_keeps s') as (Hm & Hc & Hd & Ht & Ho & _).
  cbn [metadata_store_ config_ db_path_ total_accesses_
       operations_since_reorg_ with_metadata_store].
  rewrite Hm, Hc, Hd, Ht, Ho. simpl. auto.
Qed.

Lemma staged_blobs s now k data :
  well_formed s ->
  well_formed (staged' s now k data)
  /\ stored_blob (staged' s now k data) k = Some (encoded lib s data)
  /\ (forall j, j <> k ->
      stored_blob (staged' s now k data) j = stored_blob s j).
Proof.
  intros (Hsd & Hsm & Hsb & Hempty). unfold staged.
  destruct (lazy_persistence (config_ s)) eqn:Hlazy.
  - set (s' := with_write_buffer _ _ s). destruct (_ <=? _).
    + destruct (flush_keeps s') as (Hm & Hc & _ & _ & _ & Hb).
      assert (Hsb' : StdMap.sorted (write_buffer_ s') = true)
        by (apply sorted_insert; exact Hsb).
      split; [|split].
      * unfold well_formed. simpl. rewrite ?Hm, ?Hb, ?Hc.
        split; [apply flush_sorted; exact Hsd|].
        split; [apply sorted_insert; exact Hsm|].
        split; reflexivity.
      * unfold stored_blob. simpl. rewrite Hb. simpl.
        rewrite flush_find by exact Hsb'. simpl.
        rewrite find_insert_same. reflexivity.
      * intros j Hj. unfold stored_blob. simpl. rewrite Hb. simpl.
        rewrite flush_find by exact Hsb'. simpl.
        rewrite find_insert_other by congruence. reflexivity.
    + split; [|split].
      * unfold well_formed. simpl.
        split; [exact Hsd|]. split; [apply sorted_insert; exact Hsm|].
        split; [apply sorted_insert; exact Hsb|].
        intros H. simpl in H. congruence.
      * unfold stored_blob. simpl. rewrite find_insert_same. reflexivity.
      * intros j Hj. unfold stored_blob. simpl.
        rewrite find_insert_other by congruence. reflexivity.
  - split; [|split].
    + unfold well_formed. simpl.
      split; [apply sorted_insert; exact Hsd|].
      split; [apply sorted_insert; exact Hsm|].
      split; [exact Hsb | intros _; apply Hempty; reflexivity].
    + unfold stored_blob. simpl. rewrite (Hempty eq_refl). simpl.
      apply find_insert_same.
    + intros j Hj. unfold stored_blob. simpl. rewrite (Hempty eq_refl). simpl.
      apply find_insert_other. congruence.
Qed.

(** ** Every blob has its record *)

Lemma covered_staged s now k data :
  well_formed s -> covered s -> covered (staged' s now k data).
Proof.
  intros Hwf Hcov j Hj. unfold get_metadata.
  destruct (staged_fields s now k data) as (Hm & _).
  destruct (staged_blobs s now k data Hwf) as (_ & _ & Hothers).
  rewrite Hm. destruct (string_dec j k) as [->|Hne].
  - rewrite find_insert_same. discriminate.
  - rewrite find_insert_other by congruence.
    apply Hcov. rewrite <- Hothers by exact Hne. exact Hj.
Qed.

Lemma stored_blob_erase_all s s' ks j :
  data_store_ s' = erase_all ks (data_store_ s) ->
  write_buffer_ s' = erase_all ks (write_buffer_ s) ->
  stored_blob s' j = if in_dec string_dec j ks then None else stored_blob s j.
Proof.
  intros Hd Hb. unfold stored_blob. rewrite Hd, Hb.
  destruct (in_dec string_dec j ks) as [Hin|Hout].
  - rewrite !erase_all_find_in by exact Hin. reflexivity.
  - rewrite !erase_all_find_out by exact Hout. reflexivity.
Qed.

Lemma covered_check_size_limit s :
  covered s -> covered (check_size_limit' s).
Proof.
  intros Hcov. unfold check_size_limit.
  destruct (_ <? _); [|exact Hcov].
  destruct (allow_deletion (config_ s)); [|exact Hcov].
  destruct (delete_coldest_data_fields std_sort s) as (Hm & Hd & Hb).
  intros j Hj. unfold get_metadata. rewrite Hm.
  rewrite (stored_blob_erase_all s _ _ j Hd Hb) in Hj.
  destruct (in_dec string_dec j (coldest_keys std_sort s)) as [Hin|Hout];
    [congruence|].
  rewrite erase_all_find_out by exact Hout. apply Hcov. exact Hj.
Qed.

Lemma covered_reorganize s now : covered s -> covered (reorganize' s now).
Proof.
  intros Hcov j Hj. unfold get_metadata, stored_blob in *.
  destruct (reorganize_fields lib s now) as (Hm & Hd & Hb & _).
  rewrite Hm. rewrite Hb, Hd in Hj.
  pose proof (reorganize_loop_find lib s (metadata_store_ s) (data_store_ s) j)
    as Hf.
  destruct (StdMap.find j (fst _)); [discriminate|].
  exfalso. apply (Hcov j); [|exact Hf].
  unfold stored_blob.
  destruct (StdMap.find j (write_buffer_ s)); [discriminate|].
  intros Habs. apply Hj.
  apply reorganize_loop_find_absent. exact Habs.
Qed.

Lemma covered_after_operation s now :
  covered s -> covered (after_operation' s now).
Proof.
  intros Hcov.
  destruct (after_operation_cases lib s now) as [-> | ->].
  - exact Hcov.
  - apply covered_reorganize. exact Hcov.
Qed.

Lemma covered_flush s :
  StdMap.sorted (write_buffer_ s) = true -> covered s -> covered (flush s).
Proof.
  intros Hs Hcov j Hj. unfold get_metadata.
  destruct (flush_keeps s) as (Hm & _). rewrite Hm.
  apply Hcov. rewrite <- (stored_blob_flush s j Hs). exact Hj.
Qed.

Lemma covered_erase_everywhere s k :
  covered s -> covered (erase_everywhere s k).
Proof.
  intros Hcov j Hj. unfold get_metadata, stored_blob in *. simpl in *.
  destruct (string_dec k j) as [->|Hne].
  - rewrite !find_erase_same in Hj. congruence.
  - rewrite !find_erase_other in * by exact Hne. apply Hcov. exact Hj.
Qed.

Lemma well_formed_reorganize s now :
  well_formed s -> well_formed (reorganize' s now).
Proof.
  intros (Hd & Hm & Hb & He).
  destruct (reorganize_fields lib s now) as (Em & Ed & Eb & _ & Ec).
  unfold well_formed. rewrite Em, Ed, Eb, Ec.
  split; [apply reorganize_loop_sorted; exact Hd|].
  split; [|auto].
  rewrite (sorted_by_keys _ (metadata_store_ s)); [exact Hm|].
  apply reorganize_loop_keys.
Qed.

(** A read on a store where every blob has its record is defined. *)
Lemma get_binary_defined s now k :
  well_formed s -> covered s ->
  exists r s',
    get_binary' s now k = Ok (r, s') /\ well_formed s' /\ covered s'.
Proof.
  intros Hwf Hcov. unfold get_binary.
  set (s1 := match StdMap.find k (write_buffer_ s) with
             | Some _ => flush s
             | None => s
             end).
  assert (H1 : well_formed s1 /\ covered s1
               /\ (StdMap.find k (data_store_ s1) <> None ->
                   stored_blob s1 k <> None)).
  { unfold s1. destruct (StdMap.find k (write_buffer_ s)) eqn:Hbuf.
    - destruct Hwf as (Hd & Hm & Hb & He).
      split; [apply well_formed_flush; unfold well_formed; auto|].
      split; [apply covered_flush; assumption|].
      intros Hdata. unfold stored_blob.
      destruct (flush_keeps s) as (_ & _ & _ & _ & _ & Eb). rewrite Eb.
      exact Hdata.
    - split; [exact Hwf|]. split; [exact Hcov|].
      intros Hdata. unfold stored_blob. rewrite Hbuf. exact Hdata. }
  destruct H1 as (Hwf1 & Hcov1 & Hblob).
  destruct (StdMap.find k (data_store_ s1)) as [blob|] eqn:Hdata.
  - specialize (Hblob ltac:(discriminate)).
    pose proof (Hcov1 k Hblob) as Hmeta. unfold get_metadata in Hmeta.
    destruct (StdMap.find k (metadata_store_ s1)) as [m|] eqn:Hm;
      [|congruence].
    eexists. eexists. split; [reflexivity|]. split.
    + apply well_formed_after_operation.
      destruct Hwf1 as (Hd & Hsm & Hb & He). unfold well_formed. simpl.
      split; [exact Hd|]. split; [apply sorted_insert; exact Hsm|]. auto.
    + apply covered_after_operation. intros j Hj.
      unfold get_metadata, stored_blob in *. simpl in *.
      destruct (string_dec j k) as [->|Hne].
      * rewrite find_insert_same. discriminate.
      * rewrite find_insert_other by congruence. apply Hcov1. exact Hj.
  - eexists. eexists. split; [reflexivity|]. auto.
Qed.

Lemma perform_defined s call :
  well_formed s -> covered s ->
  exists s', perform' s call = Ok s' /\ well_formed s' /\ covered s'.
Proof.
  intros Hwf Hcov. destruct call as [now [k data|k|k| |]]; unfold perform;
    simpl.
  - eexists. split; [reflexivity|]. split.
    + apply well_formed_insert_binary. exact Hwf.
    + rewrite insert_binary_as_staged.
      apply covered_after_operation, covered_check_size_limit,
        covered_staged; assumption.
  - destruct (get_binary_defined s now k Hwf Hcov) as (r & s' & -> & H1 & H2).
    exists s'. simpl. auto.
  - eexists. split; [reflexivity|]. split.
    + apply well_formed_remove. exact Hwf.
    + unfold remove. simpl.
      apply covered_after_operation, covered_erase_everywhere. exact Hcov.
  - eexists. split; [reflexivity|]. split.
    + apply well_formed_flush. exact Hwf.
    + destruct Hwf as (_ & _ & Hb & _). apply covered_flush; assumption.
  - eexists. split; [reflexivity|]. split.
    + apply well_formed_reorganize. exact Hwf.
    + apply covered_reorganize. exact Hcov.
Qed.

Lemma run_defined s calls :
  well_formed s -> covered s ->
  exists s', run' s calls = Ok s' /\ well_formed s' /\ covered s'.
Proof.
  revert s. induction calls as [|call rest IH]; intros s Hwf Hcov.
  - exists s. simpl. auto.
  - destruct (perform_defined s call Hwf Hcov) as (s1 & Hp & Hwf1 & Hcov1).
    destruct (IH s1 Hwf1 Hcov1) as (s' & Hr & H').
    exists s'. simpl. rewrite Hp. simpl. auto.
Qed.

Lemma covered_open_without_data config now other :
  covered (open {| data_db := None; metadata_db := None;
                   other_files := other |} config now).
Proof. intros k Hk. exfalso. apply Hk. reflexivity. Qed.

(** X2. On a store opened over a directory without images, after any
    sequence of inserts, reads, removes, flushes and reorganizations that
    returned, every key that has a blob -- staged or in the data map --
    has a metadata record. [get_binary] on such a store therefore does not
    take the path on which [meta_it] is [end()] and is dereferenced all the
    same, the one undefined behaviour the model has. *)
Theorem fresh_store_stays_covered config other t0 calls s' :
  run lib std_sort
    (open {| data_db := None; metadata_db := None;
             other_files := other |} config t0) calls = Ok s' ->
  covered s'
  /\ forall now k, get_binary lib s' now k <> Undefined.
Proof.
  intros Hrun.
  destruct (run_defined _ calls (well_formed_open _ config t0)
              (covered_open_without_data config t0 other))
    as (s1 & Hrun1 & Hwf & Hcov).
  rewrite Hrun in Hrun1. injection Hrun1 as <-.
  split; [exact Hcov|]. intros now k.
  destruct (get_binary_defined s' now k Hwf Hcov) as (r & s'' & -> & _).
  discriminate.
Qed.

(** ** The operation counter under [EVERY_N_OPS] *)

Lemma reorganize_counter s now :
  operations_since_reorg_ (reorganize' s now) = 0
  /\ last_reorg_time_ (reorganize' s now) = now.
Proof.
  unfold reorganize. destruct (reorganize_loop _ _ _ _). simpl. auto.
Qed.

Lemma after_operation_counter s now :
  reorg_strategy (config_ s) = EVERY_N_OPS ->
  operations_since_reorg_ (after_operation' s now)
  = if reorg_operation_threshold (config_ s)
       <=? wrap64 (operations_since_reorg_ s + 1)
    then 0 else wrap64 (operations_since_reorg_ s + 1).
Proof.
  intros Hs.
  unfold after_operation, check_reorganization_trigger, should_reorganize.
  cbn [config_ with_operations_since_reorg operations_since_reorg_].
  rewrite Hs. destruct (_ <=? _).
  - apply reorganize_counter.
  - reflexivity.
Qed.

Lemma after_operation_below s now :
  reorg_strategy (config_ s) = EVERY_N_OPS ->
  0 < reorg_operation_threshold (config_ s) ->
  operations_since_reorg_ (after_operation' s now)
  < reorg_operation_threshold (config_ s).
Proof.
  intros Hs HT. rewrite after_operation_counter by exact Hs.
  destruct (N.leb_spec (reorg_operation_threshold (config_ s))
              (wrap64 (operations_since_reorg_ s + 1))); lia.
Qed.

Lemma erase_everywhere_fold_counter ks s :
  operations_since_reorg_ (fold_left erase_everywhere ks s)
  = operations_since_reorg_ s.
Proof.
  revert s. induction ks as [|k ks IH]; intros s; simpl.
  - reflexivity.
  - rewrite IH. reflexivity.
Qed.

Lemma check_size_limit_keeps s :
  config_ (check_size_limit' s) = config_ s
  /\ operations_since_reorg_ (check_size_limit' s)
     = operations_since_reorg_ s.
Proof.
  unfold check_size_limit. destruct (_ <? _); [|auto].
  destruct (allow_deletion _); [|auto].
  unfold delete_coldest_data, save_metadata, save_to_disk.
  cbn [config_ operations_since_reorg_ with_disk].
  rewrite erase_everywhere_fold_config, erase_everywhere_fold_counter. auto.
Qed.

Lemma get_binary_shape s now k r s' :
  get_binary' s now k = Ok (r, s') ->
  (r = None /\ (s' = s \/ s' = flush s))
  \/ exists s0 m,
       (s0 = s \/ s0 = flush s)
       /\ StdMap.find k (write_buffer_ s0) = None
       /\ StdMap.find k (metadata_store_ s0) = Some m
       /\ (exists blob,
             StdMap.find k (data_store_ s0) = Some blob
             /\ r = Some (if compression_enabled (config_ s0)
                          then decompress lib blob
                                 (algorithm m) (original_size m)
                          else blob))
       /\ s' = after_operation'
                 (with_total_accesses (wrap64 (total_accesses_ s0 + 1))
                    (with_metadata_store
                       (StdMap.insert k (touched now m) (metadata_store_ s0))
                       s0)) now.
Proof.
  unfold get_binary.
  set (s0 := match StdMap.find k (write_buffer_ s) with
             | Some _ => flush s
             | None => s
             end).
  assert (H0 : (s0 = s \/ s0 = flush s)
               /\ StdMap.find k (write_buffer_ s0) = None).
  { unfold s0. destruct (StdMap.find k (write_buffer_ s)) eqn:Hb.
    - split; [right; reflexivity|].
      destruct (flush_keeps s) as (_ & _ & _ & _ & _ & ->). reflexivity.
    - split; [left; reflexivity | exact Hb]. }
  destruct H0 as (Hs0 & Hbuf).
  destruct (StdMap.find k (data_store_ s0)) as [blob|] eqn:Hd.
  - destruct (StdMap.find k (metadata_store_ s0)) as [m|] eqn:Hm;
      [|discriminate].
    intros Heq. injection Heq as <- <-. right.
    exists s0, m. repeat split; try assumption.
    exists blob. split; [exact Hd | reflexivity].
  - intros Heq. injection Heq as <- <-. left. auto.
Qed.

Lemma perform_counter s call s' :
  perform' s call = Ok s' ->
  config_ s' = config_ s
  /\ (reorg_strategy (config_ s) = EVERY_N_OPS ->
      operations_since_reorg_ s < reorg_operation_threshold (config_ s) ->
      operations_since_reorg_ s' < reorg_operation_threshold (config_ s)).
Proof.
  destruct (flush_keeps s) as (_ & Hfc & _ & _ & Hfo & _).
  destruct call as [now [k data|k|k| |]]; unfold perform; simpl.
  - intros Heq. injection Heq as <-. rewrite insert_binary_as_staged.
    set (s2 := check_size_limit' (staged' s now k data)).
    assert (Hc : config_ s2 = config_ s).
    { unfold s2. destruct (check_size_limit_keeps (staged' s now k data))
        as (-> & _).
      apply staged_fields. }
    destruct (after_operation_keeps lib s2 now) as (_ & _ & Hc').
    split; [congruence|]. intros Hs Hlt. rewrite <- Hc.
    apply after_operation_below; rewrite Hc; [exact Hs | lia].
  - destruct (get_binary' s now k) as [[r s1]| |] eqn:Hget;
      try discriminate.
    simpl. intros Heq. injection Heq as <-.
    destruct (get_binary_shape s now k r s1 Hget)
      as [(_ & [-> | ->]) | (s0 & m & Hs0 & _ & _ & _ & ->)].
    + auto.
    + rewrite Hfc, Hfo. auto.
    + match goal with |- context [after_operation' ?x now] => set (s2 := x) end.
      assert (Hc : config_ s2 = config_ s)
        by (unfold s2; destruct Hs0 as [-> | ->]; simpl; auto).
      destruct (after_operation_keeps lib s2 now) as (_ & _ & Hc').
      split; [congruence|]. intros Hs Hlt. rewrite <- Hc.
      apply after_operation_below; rewrite Hc; [exact Hs | lia].
  - intros Heq. injection Heq as <-. unfold remove. simpl.
    set (s2 := erase_everywhere s k).
    assert (Hc : config_ s2 = config_ s) by reflexivity.
    destruct (after_operation_keeps lib s2 now) as (_ & _ & Hc').
    split; [congruence|]. intros Hs Hlt. rewrite <- Hc.
    apply after_operation_below; rewrite Hc; [exact Hs | lia].
  - intros Heq. injection Heq as <-. rewrite Hfc, Hfo. auto.
  - intros Heq. injection Heq as <-.
    destruct (reorganize_fields lib s now) as (_ & _ & _ & _ & Hc).
    destruct (reorganize_counter s now) as (Ho & _).
    split; [exact Hc|]. intros _ Hlt. rewrite Ho. lia.
Qed.

(** X3. Under [EVERY_N_OPS] the operation counter never reaches the
    threshold between calls: if it is below [reorg_operation_threshold]
    before a sequence of calls, it is below it after, and the configuration
    is the one the store was opened with. *)
Theorem every_n_ops_counter_bounded s calls s' :
  reorg_strategy (config_ s) = EVERY_N_OPS ->
  operations_since_reorg_ s < reorg_operation_threshold (config_ s) ->
  run lib std_sort s calls = Ok s' ->
  config_ s' = config_ s
  /\ operations_since_reorg_ s' < reorg_operation_threshold (config_ s').
Proof.
  revert s. induction calls as [|call rest IH]; intros s Hs Hlt; simpl.
  - intros Heq. injection Heq as <-. auto.
  - destruct (perform' s call) as [s1| |] eqn:Hp; try discriminate.
    simpl. intros Hrun.
    destruct (perform_counter s call s1 Hp) as (Hc & Hstep).
    destruct (IH s1) as (Hc' & Hlt'); [congruence | | exact Hrun |].
    + rewrite Hc. apply Hstep; assumption.
    + split; congruence.
Qed.

(** ** Stores without [lazy_persistence] *)

Lemma perform_well_formed s call s' :
  well_formed s -> perform' s call = Ok s' -> well_formed s'.
Proof.
  intros Hwf. destruct call as [now [k data|k|k| |]]; unfold perform; simpl.
  - intros Heq. injection Heq as <-.
    apply well_formed_insert_binary. exact Hwf.
  - destruct (get_binary' s now k) as [[r s1]| |] eqn:Hget;
      try discriminate.
    simpl. intros Heq. injection Heq as <-.
    apply (well_formed_get_binary lib s now k r s1 Hwf Hget).
  - intros Heq. injection Heq as <-. apply well_formed_remove. exact Hwf.
  - intros Heq. injection Heq as <-. apply well_formed_flush. exact Hwf.
  - intros Heq. injection Heq as <-. apply well_formed_reorganize. exact Hwf.
Qed.

Lemma run_well_formed s calls s' :
  well_formed s -> run' s calls = Ok s' ->
  well_formed s' /\ config_ s' = config_ s.
Proof.
  revert s. induction calls as [|call rest IH]; intros s Hwf; simpl.
  - intros Heq. injection Heq as <-. auto.
  - destruct (perform' s call) as [s1| |] eqn:Hp; try discriminate.
    simpl. intros Hrun.
    destruct (IH s1 (perform_well_formed s call s1 Hwf Hp) Hrun) as (H1 & H2).
    split; [exact H1|].
    rewrite H2. apply (perform_counter s call s1 Hp).
Qed.

(** X4. A store opened without [lazy_persistence] never stages a write:
    after any sequence of calls the write buffer is empty, so every blob a
    read can return is in the data map. *)
Theorem write_buffer_unused dir config t0 calls s' :
  lazy_persistence config = false ->
  run lib std_sort (open dir config t0) calls = Ok s' ->
  write_buffer_ s' = []
  /\ forall k, stored_blob s' k = StdMap.find k (data_store_ s').
Proof.
  intros Hlazy Hrun.
  destruct (run_well_formed _ calls s' (well_formed_open dir config t0) Hrun)
    as ((_ & _ & _ & Hempty) & Hc).
  assert (Hcfg : config_ (open dir config t0) = config).
  { unfold open, load_from_disk. cbn [db_path_].
    destruct (data_db dir); unfold load_metadata;
      cbn [db_path_ with_data_store]; destruct (metadata_db dir);
      reflexivity. }
  assert (Hb : write_buffer_ s' = [])
    by (apply Hempty; rewrite Hc, Hcfg; exact Hlazy).
  split; [exact Hb|]. intros k. unfold stored_blob. rewrite Hb. reflexivity.
Qed.

(** ** What a reorganization leaves behind *)

Lemma CompressionTier_eqb_eq a b : CompressionTier_eqb a b = true -> a = b.
Proof. destruct a, b; simpl; congruence. Qed.

Lemma CompressionAlgo_eqb_eq a b : CompressionAlgo_eqb a b = true -> a = b.
Proof. destruct a, b; simpl; congruence. Qed.

Lemma reorganize_entry_presence s k m store j :
  StdMap.find j (snd (reorganize_entry lib s k m store)) = None
  <-> StdMap.find j store = None.
Proof.
  unfold reorganize_entry. destruct (_ || _); [|reflexivity].
  destruct (StdMap.find k store) as [blob|] eqn:Hk; [|reflexivity].
  cbn [snd]. destruct (string_dec k j) as [<-|Hne].
  - rewrite find_insert_same, Hk. split; discriminate.
  - rewrite find_insert_other by exact Hne. reflexivity.
Qed.

Lemma reorganize_loop_presence s entries store j :
  StdMap.find j (snd (reorganize_loop lib s entries store)) = None
  <-> StdMap.find j store = None.
Proof.
  revert store. induction entries as [|[k m] rest IH]; intros store.
  - reflexivity.
  - rewrite reorganize_loop_cons. cbn [snd]. rewrite IH.
    apply reorganize_entry_presence.
Qed.

Lemma reorganize_entry_result s k m store :
  StdMap.find k store <> None ->
  settled s (fst (reorganize_entry lib s k m store)).
Proof.
  intros Hk. unfold reorganize_entry, settled.
  destruct (_ || _) eqn:Hcond.
  - destruct (StdMap.find k store); [|congruence].
    simpl. split; reflexivity.
  - apply orb_false_elim in Hcond. destruct Hcond as (Ht & Ha).
    apply negb_false_iff in Ht, Ha.
    apply CompressionTier_eqb_eq in Ht. apply CompressionAlgo_eqb_eq in Ha.
    cbn [fst]. rewrite <- Ht. split; [reflexivity|]. symmetry. exact Ha.
Qed.

(** Where the loop of [reorganize] meets the entry of [k], the blob of [k]
    is still the one it started with. *)
Lemma reorganize_loop_at s entries store k m :
  StdMap.sorted entries = true ->
  StdMap.find k entries = Some m ->
  exists store_k,
    StdMap.find k store_k = StdMap.find k store
    /\ StdMap.find k (fst (reorganize_loop lib s entries store))
       = Some (fst (reorganize_entry lib s k m store_k))
    /\ StdMap.find k (snd (reorganize_loop lib s entries store))
       = StdMap.find k (snd (reorganize_entry lib s k m store_k)).
Proof.
  revert store. induction entries as [|[k' m0] rest IH]; intros store Hs Hf.
  - discriminate.
  - rewrite reorganize_loop_cons. cbn [fst snd].
    simpl in Hf.
    destruct (key_compare k k') eqn:E.
    1: { apply compare_eq in E. subst k'. injection Hf as ->.
         exists store. split; [reflexivity|].
         split; [cbn [StdMap.find]; rewrite compare_refl; reflexivity|].
         apply reorganize_loop_find_data. intros m' Hin. exfalso.
         pose proof (sorted_head_absent _ _ _ Hs) as Habs.
         apply find_None_not_In in Habs. apply Habs.
         apply (in_map fst) in Hin. exact Hin. }
    all: destruct (IH (snd (reorganize_entry lib s k' m0 store))
                     (sorted_tail _ _ _ Hs) Hf) as (store_k & H1 & H2 & H3);
      exists store_k;
      (split; [|split; [cbn [StdMap.find]; rewrite E; exact H2 | exact H3]]);
      rewrite H1; apply reorganize_entry_find_other;
      intros ->; rewrite compare_refl in E; discriminate.
Qed.

Lemma settled_same s s' m :
  total_accesses_ s' = total_accesses_ s -> config_ s' = config_ s ->
  settled s m -> settled s' m.
Proof.
  intros Ht Hc. unfold settled, calculate_tier. rewrite Ht, Hc. auto.
Qed.

(** X5. After [reorganize], every key that has a blob in the data map has
    the tier its access count asks for and the algorithm configured for
    that tier; its access count, last access and original size are the
    ones it had. *)
Theorem reorganize_settles s now k m' :
  StdMap.sorted (metadata_store_ s) = true ->
  StdMap.find k (data_store_ s) <> None ->
  get_metadata (reorganize lib s now) k = Some m' ->
  settled (reorganize lib s now) m'
  /\ exists m,
       get_metadata s k = Some m
       /\ access_count m' = access_count m
       /\ last_access m' = last_access m
       /\ original_size m' = original_size m.
Proof.
  intros Hs Hk. unfold get_metadata.
  destruct (reorganize_fields lib s now) as (Hm & _ & _ & Ht & Hc).
  rewrite Hm. intros Hfind.
  pose proof (reorganize_loop_find lib s (metadata_store_ s) (data_store_ s) k)
    as Hsrc.
  rewrite Hfind in Hsrc. destruct Hsrc as (m & _ & Hin & _).
  destruct (reorganize_loop_at s _ (data_store_ s) k m Hs Hin)
    as (store_k & Hsame & Hnew & _).
  rewrite Hfind in Hnew. injection Hnew as ->.
  split.
  - apply (settled_same s); [exact Ht | exact Hc |].
    apply reorganize_entry_result. rewrite Hsame. exact Hk.
  - exists m. split; [exact Hin|]. apply reorganize_entry_counters.
Qed.

Lemma reorganize_entry_plaintext s k m store blob :
  StdMap.find k store = Some blob ->
  let p := if compression_enabled (config_ s)
           then decompress lib blob (algorithm m) (original_size m)
           else blob in
  round_trips lib p ->
  size_of p = original_size m ->
  let m' := fst (reorganize_entry lib s k m store) in
  exists blob',
    StdMap.find k (snd (reorganize_entry lib s k m store)) = Some blob'
    /\ (if compression_enabled (config_ s)
        then decompress lib blob' (algorithm m') (original_size m')
        else blob') = p.
Proof.
  intros Hk p Hcodec Hsize. unfold reorganize_entry.
  destruct (_ || _).
  - rewrite Hk. cbn [fst snd]. eexists. split; [apply find_insert_same|].
    fold p. unfold retiered. cbn [algorithm original_size].
    destruct (compression_enabled (config_ s)); [|reflexivity].
    unfold decompress. rewrite <- Hsize. apply Hcodec.
  - cbn [fst snd]. exists blob. split; [exact Hk | reflexivity].
Qed.

(** The blob and record of a key after [reorganize] decode to what they
    decoded to before. *)
Lemma reorganize_plaintext s now k m p :
  StdMap.sorted (metadata_store_ s) = true ->
  StdMap.find k (write_buffer_ s) = None ->
  get_metadata s k = Some m ->
  plaintext_of lib s k = Some p ->
  size_of p = original_size m ->
  round_trips lib p ->
  plaintext_of lib (reorganize lib s now) k = Some p.
Proof.
  intros Hs Hbuf Hm. unfold plaintext_of, stored_blob, get_metadata in *.
  rewrite Hbuf, Hm.
  destruct (StdMap.find k (data_store_ s)) as [blob|] eqn:Hd; [|discriminate].
  intros Hp Hsize Hcodec. injection Hp as Hp.
  destruct (reorganize_fields lib s now) as (Em & Ed & Eb & _ & Ec).
  rewrite Eb, Hbuf, Ed, Em, Ec.
  destruct (reorganize_loop_at s _ (data_store_ s) k m Hs Hm)
    as (store_k & Hsame & -> & ->).
  rewrite Hd in Hsame.
  destruct (reorganize_entry_plaintext s k m store_k blob Hsame)
    as (blob' & -> & Hdec).
  - rewrite Hp. exact Hcodec.
  - rewrite Hp. exact Hsize.
  - rewrite Hdec, Hp. reflexivity.
Qed.

(** X6. [reorganize] changes how a blob is stored, not what it decodes to:
    for a key whose blob is in the data map and decodes to [p] of the
    recorded original size, the blob and record after the reorganization
    decode to [p] again, provided the built-in codecs give [p] back; the
    recorded original size and access count stay. *)
Theorem reorganize_keeps_plaintext s now k m p :
  StdMap.sorted (metadata_store_ s) = true ->
  StdMap.find k (write_buffer_ s) = None ->
  get_metadata s k = Some m ->
  plaintext_of lib s k = Some p ->
  size_of p = original_size m ->
  round_trips lib p ->
  plaintext_of lib (reorganize lib s now) k = Some p
  /\ exists m',
       get_metadata (reorganize lib s now) k = Some m'
       /\ original_size m' = original_size m
       /\ access_count m' = access_count m.
Proof.
  intros Hs Hbuf Hm Hp Hsize Hcodec.
  split; [apply (reorganize_plaintext s now k m p); assumption|].
  destruct (reorganize_fields lib s now) as (Em & _).
  destruct (reorganize_loop_at s _ (data_store_ s) k m Hs Hm)
    as (store_k & _ & Hnew & _).
  exists (fst (reorganize_entry lib s k m store_k)).
  unfold get_metadata. rewrite Em.
  split; [exact Hnew|].
  destruct (reorganize_entry_counters lib s k m store_k) as (Ha & _ & Ho).
  split; [exact Ho | exact Ha].
Qed.

(** Entries the loop of [reorganize] passes over. *)
Lemma reorganize_loop_fixed s entries store :
  (forall k m, In (k, m) entries ->
               settled s m \/ StdMap.find k store = None) ->
  reorganize_loop lib s entries store = (entries, store).
Proof.
  induction entries as [|[k m] rest IH]; intros Hall.
  - reflexivity.
  - rewrite reorganize_loop_cons.
    assert (He : reorganize_entry lib s k m store = (m, store)).
    { destruct (Hall k m (or_introl eq_refl)) as [Hset | Habs].
      - apply reorganize_entry_settled. exact Hset.
      - unfold reorganize_entry. rewrite Habs.
        destruct (_ || _); reflexivity. }
    rewrite He. cbn [fst snd]. rewrite IH; [reflexivity|].
    intros k' m' Hin. apply Hall. right. exact Hin.
Qed.

Lemma reorganize_loop_done s entries store k m' :
  In (k, m') (fst (reorganize_loop lib s entries store)) ->
  settled s m'
  \/ StdMap.find k (snd (reorganize_loop lib s entries store)) = None.
Proof.
  revert store. induction entries as [|[k0 m0] rest IH]; intros store.
  - intros [].
  - rewrite reorganize_loop_cons. cbn [fst snd]. intros [Heq | Hin].
    + injection Heq as <- <-.
      destruct (StdMap.find k0 store) eqn:Hk.
      * left. apply reorganize_entry_result. congruence.
      * right. apply reorganize_loop_presence, reorganize_entry_presence.
        exact Hk.
    + apply IH. exact Hin.
Qed.

(** X7. A second [reorganize] right after the first finds nothing to do:
    the metadata map and the data map stay as the first one left them. *)
Theorem reorganize_twice s now now' :
  metadata_store_ (reorganize lib (reorganize lib s now) now')
  = metadata_store_ (reorganize lib s now)
  /\ data_store_ (reorganize lib (reorganize lib s now) now')
     = data_store_ (reorganize lib s now).
Proof.
  destruct (reorganize_fields lib s now) as (Em & Ed & _ & Et & Ec).
  destruct (reorganize_fields lib (reorganize' s now) now')
    as (Em' & Ed' & _).
  rewrite Em', Ed'.
  rewrite reorganize_loop_fixed; [split; reflexivity|].
  intros k m' Hin. rewrite Em in Hin. rewrite Ed.
  destruct (reorganize_loop_done s _ _ k m' Hin) as [Hset | Habs].
  - left. apply (settled_same s); assumption.
  - right. exact Habs.
Qed.

(** ** Reading again *)

Lemma after_operation_keeps_plaintext s now k m p :
  StdMap.sorted (metadata_store_ s) = true ->
  StdMap.find k (write_buffer_ s) = None ->
  get_metadata s k = Some m ->
  plaintext_of lib s k = Some p ->
  size_of p = original_size m ->
  round_trips lib p ->
  plaintext_of lib (after_operation' s now) k = Some p.
Proof.
  intros Hs Hbuf Hm Hp Hsize Hcodec.
  destruct (after_operation_cases lib s now) as [-> | ->].
  - exact Hp.
  - apply (reorganize_plaintext (counted s) now k m p); assumption.
Qed.

Lemma get_binary_plaintext s now k p :
  StdMap.find k (write_buffer_ s) = None ->
  plaintext_of lib s k = Some p ->
  exists s', get_binary' s now k = Ok (Some p, s').
Proof.
  intros Hbuf. unfold plaintext_of, stored_blob, get_metadata, get_binary.
  rewrite Hbuf.
  destruct (StdMap.find k (data_store_ s)) as [blob|]; [|discriminate].
  destruct (StdMap.find k (metadata_store_ s)) as [m|]; [|discriminate].
  intros Hp. injection Hp as <-. eexists. reflexivity.
Qed.

(** X8. A read that returned [v] returns [v] again when repeated, whether
    or not the first read set off a reorganization that recompressed the
    blob, provided [v] has the recorded original size and the built-in
    codecs give [v] back. *)
Theorem get_binary_repeatable s now now' k m v s1 :
  well_formed s ->
  get_metadata s k = Some m ->
  get_binary lib s now k = Ok (Some v, s1) ->
  size_of v = original_size m ->
  round_trips lib v ->
  exists s2, get_binary lib s1 now' k = Ok (Some v, s2).
Proof.
  intros (_ & Hsm & _ & _) Hm Hget Hsize Hcodec.
  destruct (get_binary_shape s now k _ s1 Hget)
    as [(Hnone & _) | (s0 & m0 & Hs0 & Hbuf & Hm0 & (blob & Hd & Hv) & ->)];
    [discriminate|].
  assert (Hmeta : metadata_store_ s0 = metadata_store_ s).
  { destruct Hs0 as [-> | ->]; [reflexivity | apply flush_keeps]. }
  unfold get_metadata in Hm. rewrite Hmeta, Hm in Hm0.
  injection Hm0 as <-. injection Hv as Hv.
  match goal with |- context [after_operation' ?x now] => set (s2 := x) end.
  assert (Hp : plaintext_of lib s2 k = Some v).
  { unfold plaintext_of, stored_blob, get_metadata, s2.
    cbn [write_buffer_ data_store_ metadata_store_ config_
         with_total_accesses with_metadata_store].
    rewrite Hbuf, Hd, find_insert_same. rewrite Hv. reflexivity. }
  assert (Hp' : plaintext_of lib (after_operation' s2 now) k = Some v).
  { apply (after_operation_keeps_plaintext s2 now k (touched now m) v).
    - unfold s2. cbn [metadata_store_ with_total_accesses with_metadata_store].
      apply sorted_insert. rewrite Hmeta. exact Hsm.
    - exact Hbuf.
    - unfold get_metadata, s2.
      cbn [metadata_store_ with_total_accesses with_metadata_store].
      apply find_insert_same.
    - exact Hp.
    - exact Hsize.
    - exact Hcodec. }
  apply get_binary_plaintext; [|exact Hp'].
  destruct (after_operation_keeps lib s2 now) as (-> & _). exact Hbuf.
Qed.

(** X9. After [remove] of a key, a read of it is a miss that leaves the
    store as it is, the key has no metadata record, and a second [remove]
    reports that nothing was there. *)
Theorem remove_then_get s now now' k :
  get_binary lib (snd (remove lib s now k)) now' k
  = Ok (None, snd (remove lib s now k))
  /\ get_metadata (snd (remove lib s now k)) k = None
  /\ fst (remove lib (snd (remove lib s now k)) now' k) = false.
Proof.
  destruct (remove_erases lib s now k) as (_ & Hd & Hm & Hb).
  split; [|split].
  - unfold get_binary. rewrite Hb, Hd. reflexivity.
  - exact Hm.
  - unfold remove at 1. cbn [fst]. unfold StdMap.mem. rewrite Hd. reflexivity.
Qed.

(** ** The string interface *)

(** X10. [insert] of a string followed by [get] gives the string back,
    whatever characters it holds, under the conditions of the binary round
    trip: the size check of the insert does not evict and the codec bound
    to tier 4 gives the bytes of the value back. *)
Theorem insert_then_get_string s now now' k value :
  well_formed s ->
  within_limit s ->
  (compression_enabled (config_ s) = true ->
   decompress lib (compress lib s (list_byte_of_string value) TIER_4)
     (tier_algorithm (tier_configs (config_ s) TIER_4))
     (size_of (list_byte_of_string value))
   = list_byte_of_string value) ->
  returned (get lib (insert lib std_sort s now k value) now' k)
  = Ok (Some value).
Proof.
  intros Hwf Hlim Hcodec. unfold get, insert.
  destruct (insert_binary_installed lib std_sort s now k
              (list_byte_of_string value) Hwf Hlim)
    as (Hmeta & Hblob & Hc & Hsb).
  destruct (get_binary_hit lib _ now' k _ _ Hsb Hblob Hmeta) as (s1 & _ & ->).
  simpl. rewrite Hc. unfold encoded.
  destruct (compression_enabled (config_ s)).
  - rewrite Hcodec by reflexivity.
    rewrite string_of_list_byte_of_string. reflexivity.
  - rewrite string_of_list_byte_of_string. reflexivity.
Qed.

(** ** Statistics *)

Lemma wrap64_add_l a b : wrap64 (wrap64 a + b) = wrap64 (a + b).
Proof. unfold wrap64. apply N.Div0.add_mod_idemp_l. Qed.

Lemma wrap64_add_r a b : wrap64 (a + wrap64 b) = wrap64 (a + b).
Proof. unfold wrap64. apply N.Div0.add_mod_idemp_r. Qed.

Lemma total_items_sum stats :
  total_items stats
  = wrap64 (tier0_count stats + tier1_count stats + tier2_count stats
            + tier3_count stats + tier4_count stats).
Proof.
  unfold total_items.
  rewrite (wrap64_add_l (tier0_count stats + tier1_count stats)).
  rewrite (wrap64_add_l
             (tier0_count stats + tier1_count stats + tier2_count stats)).
  apply wrap64_add_l.
Qed.

Lemma count_entry_items stats m :
  total_items (count_entry stats m) = wrap64 (total_items stats + 1).
Proof.
  rewrite !total_items_sum, wrap64_add_l. unfold count_entry.
  cbn [tier0_count tier1_count tier2_count tier3_count tier4_count].
  set (a := tier0_count stats). set (b := tier1_count stats).
  set (c := tier2_count stats). set (d := tier3_count stats).
  set (e := tier4_count stats).
  destruct (tier m); cbn [CompressionTier_eqb].
  - transitivity (wrap64 (b + c + d + e + wrap64 (a + 1))); [f_equal; lia|].
    rewrite wrap64_add_r. f_equal. lia.
  - transitivity (wrap64 (a + c + d + e + wrap64 (b + 1))); [f_equal; lia|].
    rewrite wrap64_add_r. f_equal. lia.
  - transitivity (wrap64 (a + b + d + e + wrap64 (c + 1))); [f_equal; lia|].
    rewrite wrap64_add_r. f_equal. lia.
  - transitivity (wrap64 (a + b + c + e + wrap64 (d + 1))); [f_equal; lia|].
    rewrite wrap64_add_r. f_equal. lia.
  - rewrite wrap64_add_r. f_equal. lia.
Qed.

Lemma count_entries_fold (l : list (string * NodeMetadata)) acc A B :
  total_size acc = wrap64 A ->
  original_total_size acc = wrap64 B ->
  let r := fold_left (fun a kv => count_entry a (snd kv)) l acc in
  total_items r = wrap64 (total_items acc + size_of l)
  /\ total_size r
     = wrap64 (A + fold_right N.add 0
                     (map (fun kv => compressed_size (snd kv)) l))
  /\ original_total_size r
     = wrap64 (B + fold_right N.add 0
                     (map (fun kv => original_size (snd kv)) l))
  /\ total_accesses r = total_accesses acc
  /\ operations_since_reorg r = operations_since_reorg acc
  /\ compression_ratio r = compression_ratio acc.
Proof.
  revert acc A B. induction l as [|[k m] l IH]; intros acc A B HA HB.
  - cbv zeta. cbn [fold_left map fold_right]. rewrite !N.add_0_r.
    split; [|auto]. rewrite total_items_sum.
    unfold wrap64. rewrite N.Div0.mod_mod. reflexivity.
  - cbv zeta. cbn [fold_left map fold_right snd].
    destruct (IH (count_entry acc m) (A + compressed_size m)
                (B + original_size m)) as (H1 & H2 & H3 & H4 & H5 & H6).
    + cbn [count_entry total_size]. rewrite HA. apply wrap64_add_l.
    + cbn [count_entry original_total_size]. rewrite HB. apply wrap64_add_l.
    + cbv zeta in *. rewrite H1, H2, H3, H4, H5, H6.
      rewrite count_entry_items, wrap64_add_l.
      split; [f_equal; unfold size_of; cbn [List.length]; lia|].
      rewrite !N.add_assoc. auto.
Qed.

(** X11. [get_stats] counts every metadata record once: the item total
    that [print_stats] prints is the number of records, and the two sizes
    are the sums of the recorded compressed and original sizes, all in
    64-bit arithmetic. A store whose original sizes add up to zero reports
    the ratio 1.0. *)
Theorem get_stats_totals s :
  total_items (get_stats s) = wrap64 (StdMap.size (metadata_store_ s))
  /\ total_size (get_stats s)
     = wrap64 (fold_right N.add 0
                 (map (fun kv => compressed_size (snd kv))
                      (metadata_store_ s)))
  /\ original_total_size (get_stats s)
     = wrap64 (fold_right N.add 0
                 (map (fun kv => original_size (snd kv))
                      (metadata_store_ s)))
  /\ total_accesses (get_stats s) = total_accesses_ s
  /\ operations_since_reorg (get_stats s) = operations_since_reorg_ s
  /\ (original_total_size (get_stats s) = 0 ->
      compression_ratio (get_stats s) = 1%float).
Proof.
  unfold get_stats.
  match goal with
  | |- context [fold_left ?f ?l ?z] =>
      destruct (count_entries_fold l z 0 0 eq_refl eq_refl)
        as (H1 & H2 & H3 & H4 & H5 & H6);
      set (stats := fold_left f l z) in *
  end.
  cbv zeta in *. cbn [total_items] in H1.
  assert (Hitems : total_items stats
                   = wrap64 (StdMap.size (metadata_store_ s)))
    by (rewrite H1; reflexivity).
  destruct (0 <? original_total_size stats) eqn:Hpos.
  - unfold total_items in *.
    cbn [tier0_count tier1_count tier2_count tier3_count tier4_count
         total_size original_total_size total_accesses
         operations_since_reorg compression_ratio].
    repeat split; try assumption.
    intros Hz. apply N.ltb_lt in Hpos. lia.
  - repeat split; try assumption. intros _. exact H6.
Qed.

(** ** Loading a sorted image into an empty map *)

Lemma find_fold_insert_empty {V} k (src : list (string * V)) :
  StdMap.sorted src = true ->
  StdMap.find k
    (fold_left (fun acc kv => StdMap.insert (fst kv) (snd kv) acc) src [])
  = StdMap.find k src.
Proof.
  intros Hs. rewrite find_fold_insert by exact Hs.
  destruct (StdMap.find k src); reflexivity.
Qed.

End StoreFacts.

(* ================================================================== *)
(** * [data.db] on disk *)

Section DiskImageFacts.
Import DiskImage.

Lemma to_N_byte_of_N n : Byte.to_N (byte_of_N n) = n mod 256.
Proof.
  unfold byte_of_N. destruct (Byte.of_N (n mod 256)) as [b|] eqn:E.
  - apply Byte.to_of_N. exact E.
  - apply Byte.of_N_None_iff in E.
    assert (n mod 256 < 256) by (apply N.mod_lt; lia). lia.
Qed.

Lemma length_le_bytes w n : List.length (le_bytes w n) = w.
Proof.
  revert n. induction w as [|w IH]; intros n; simpl.
  - reflexivity.
  - rewrite IH. reflexivity.
Qed.

Lemma le_value_le_bytes w n :
  le_value (le_bytes w n) = n mod 2 ^ (8 * N.of_nat w).
Proof.
  revert n. induction w as [|w IH]; intros n.
  - simpl. rewrite N.mod_1_r. reflexivity.
  - cbn [le_bytes le_value]. rewrite to_N_byte_of_N, IH.
    replace (8 * N.of_nat (S w)) with (8 + 8 * N.of_nat w) by lia.
    rewrite N.pow_add_r. change (2 ^ 8) with 256.
    rewrite N.Div0.mod_mul_r. reflexivity.
Qed.

Lemma le_value_u32 n : n < 2 ^ 32 -> le_value (le_bytes 4 n) = n.
Proof.
  intros Hn. rewrite le_value_le_bytes. apply N.mod_small. exact Hn.
Qed.

Lemma length_list_byte_of_string s :
  List.length (list_byte_of_string s) = String.length s.
Proof.
  unfold list_byte_of_string. rewrite length_map.
  induction s as [|a s IH]; simpl; [reflexivity | rewrite IH; reflexivity].
Qed.

Lemma firstn_exact {A} (a rest : list A) :
  firstn (List.length a) (a ++ rest) = a.
Proof.
  rewrite firstn_app, Nat.sub_diag, firstn_all. simpl. apply app_nil_r.
Qed.

Lemma skipn_exact {A} (a rest : list A) :
  skipn (List.length a) (a ++ rest) = rest.
Proof.
  rewrite skipn_app, Nat.sub_diag, skipn_all. reflexivity.
Qed.

(** A read of bytes that are there. *)
Lemma read_available n a rest :
  n = size_of a ->
  read n {| unread := a ++ rest; good := true |}
  = (a, {| unread := rest; good := true |}).
Proof.
  intros ->. unfold read. cbn [good unread].
  destruct (N.leb_spec (size_of a) (size_of (a ++ rest))) as [_|Hlt].
  - unfold size_of. rewrite Nat2N.id, firstn_exact, skipn_exact. reflexivity.
  - unfold size_of in Hlt. rewrite length_app in Hlt. lia.
Qed.

(** A read past the end. *)
Lemma read_short n a :
  size_of a < n ->
  read n {| unread := a; good := true |}
  = (a, {| unread := []; good := false |}).
Proof.
  intros Hlt. unfold read. cbn [good unread].
  destruct (N.leb_spec n (size_of a)); [lia | reflexivity].
Qed.

Lemma record_bytes_fits kv :
  fits kv ->
  record_bytes kv
  = le_bytes 4 (N.of_nat (String.length (fst kv)))
    ++ list_byte_of_string (fst kv)
    ++ le_bytes 4 (size_of (snd kv)) ++ snd kv.
Proof.
  intros (Hk & Hv). unfold record_bytes, wrap32.
  rewrite !N.mod_small by assumption.
  rewrite Nat2N.id, <- length_list_byte_of_string, firstn_all.
  unfold size_of. rewrite Nat2N.id, firstn_all. reflexivity.
Qed.

(** One turn of the loop over a whole record. *)
Lemma load_records_record fuel kv rest store :
  fits kv ->
  load_records (S fuel)
    {| unread := record_bytes kv ++ rest; good := true |} store
  = load_records fuel {| unread := rest; good := true |}
      (StdMap.insert (fst kv) (snd kv) store).
Proof.
  intros Hfits. rewrite (record_bytes_fits kv Hfits).
  destruct Hfits as (Hk & Hv). rewrite <- !app_assoc.
  cbn [load_records good].
  rewrite (read_available 4 (le_bytes 4 _))
    by (unfold size_of; rewrite length_le_bytes; reflexivity).
  cbn [fst snd good]. rewrite (le_value_u32 _ Hk).
  rewrite (read_available _ (list_byte_of_string (fst kv)))
    by (unfold size_of; rewrite length_list_byte_of_string; reflexivity).
  cbn [fst snd].
  rewrite (read_available 4 (le_bytes 4 _))
    by (unfold size_of; rewrite length_le_bytes; reflexivity).
  cbn [fst snd].
  replace (size_of (le_bytes 4 (size_of (snd kv))) =? 4) with true
    by (unfold size_of; rewrite length_le_bytes; reflexivity).
  rewrite (le_value_u32 _ Hv).
  rewrite <- (app_nil_r (snd kv)) at 2. rewrite <- app_assoc.
  cbn [app].
  rewrite (read_available _ (snd kv)) by reflexivity.
  cbn [fst snd].
  replace (N.of_nat (String.length (fst kv)))
    with (size_of (list_byte_of_string (fst kv)))
    by (unfold size_of; rewrite length_list_byte_of_string; reflexivity).
  rewrite !filled_buffer_exact, string_of_list_byte_of_string.
  reflexivity.
Qed.

(** The loop over a run of whole records, then whatever follows. *)
Lemma load_records_image fuel recs tail store :
  Forall fits recs ->
  load_records (List.length recs + fuel)
    {| unread := data_db_image recs ++ tail; good := true |} store
  = load_records fuel {| unread := tail; good := true |}
      (install recs store).
Proof.
  revert store. induction recs as [|kv recs IH]; intros store Hall.
  - reflexivity.
  - inversion Hall as [|? ? Hkv Hrest]; subst.
    unfold data_db_image. cbn [map List.concat List.length Nat.add].
    rewrite <- app_assoc.
    rewrite load_records_record by exact Hkv.
    apply IH. exact Hrest.
Qed.

Lemma length_record_bytes kv : (8 <= List.length (record_bytes kv))%nat.
Proof.
  unfold record_bytes. rewrite !length_app, !length_le_bytes. lia.
Qed.

Lemma length_data_db_image recs :
  (8 * List.length recs <= List.length (data_db_image recs))%nat.
Proof.
  induction recs as [|kv recs IH]; unfold data_db_image in *;
    cbn [map List.concat List.length].
  - lia.
  - rewrite length_app. pose proof (length_record_bytes kv). lia.
Qed.

(** The loop ends on fewer than four bytes. *)
Lemma load_records_tail fuel tail store :
  size_of tail < 4 ->
  load_records (S fuel) {| unread := tail; good := true |} store = Ok store.
Proof.
  intros Hlt. cbn [load_records good].
  rewrite read_short by exact Hlt. reflexivity.
Qed.

Lemma load_data_db_split recs tail store :
  Forall fits recs ->
  load_data_db (data_db_image recs ++ tail) store
  = load_records (S (List.length (data_db_image recs ++ tail)
                     - List.length recs))
      {| unread := tail; good := true |} (install recs store).
Proof.
  intros Hall. unfold load_data_db.
  rewrite <- (load_records_image _ recs tail store Hall). f_equal.
  rewrite length_app. pose proof (length_data_db_image recs). lia.
Qed.

Lemma size_of_data_db_image recs :
  size_of (data_db_image recs) = DigestiveDatabase.data_db_size recs.
Proof.
  induction recs as [|kv recs IH]; unfold data_db_image in *.
  - reflexivity.
  - cbn [map List.concat DigestiveDatabase.data_db_size fold_right].
    fold (DigestiveDatabase.data_db_size recs). rewrite <- IH.
    unfold record_bytes, size_of.
    rewrite !length_app, !length_le_bytes, !length_firstn.
    rewrite length_list_byte_of_string.
    assert (H1 : wrap32 (N.of_nat (String.length (fst kv)))
                 <= N.of_nat (String.length (fst kv)))
      by (unfold wrap32; apply N.Div0.mod_le).
    assert (H2 : wrap32 (N.of_nat (List.length (snd kv)))
                 <= N.of_nat (List.length (snd kv)))
      by (unfold wrap32; apply N.Div0.mod_le).
    unfold bytes in *.
    set (a := wrap32 (N.of_nat (String.length (fst kv)))) in *.
    set (b := wrap32 (N.of_nat (List.length (snd kv)))) in *.
    rewrite !Nat.min_l by lia. lia.
Qed.

(** X13. What [save_to_disk] writes, [load_from_disk] reads back: for
    keys and values shorter than 2^32 bytes, loading the image of a list
    of entries installs exactly those entries, in order, into the data
    map; up to three stray bytes after the last record are ignored. The
    image has the length the size check counts for it. *)
Theorem data_db_round_trip recs tail store :
  Forall fits recs ->
  size_of tail < 4 ->
  load_data_db (data_db_image recs ++ tail) store = Ok (install recs store)
  /\ size_of (data_db_image recs) = DigestiveDatabase.data_db_size recs.
Proof.
  intros Hall Htail. split; [|apply size_of_data_db_image].
  rewrite load_data_db_split by exact Hall.
  apply load_records_tail. exact Htail.
Qed.

(** X14. A [data.db] cut off inside the value of its last record loads
    without complaint: the record is installed with the bytes that are
    there, padded with zero bytes to the announced length. *)
Theorem data_db_cut_in_value recs k value_len partial store :
  Forall fits recs ->
  N.of_nat (String.length k) < 2 ^ 32 ->
  value_len < 2 ^ 32 ->
  size_of partial < value_len ->
  load_data_db
    (data_db_image recs
     ++ le_bytes 4 (N.of_nat (String.length k)) ++ list_byte_of_string k
     ++ le_bytes 4 value_len ++ partial) store
  = Ok (StdMap.insert k
          (partial
           ++ repeat Byte.x00 (N.to_nat value_len - List.length partial))
          (install recs store)).
Proof.
  intros Hall Hk Hv Hcut.
  rewrite load_data_db_split by exact Hall.
  cbn [load_records good].
  rewrite (read_available 4 (le_bytes 4 _))
    by (unfold size_of; rewrite length_le_bytes; reflexivity).
  cbn [fst snd good]. rewrite (le_value_u32 _ Hk).
  rewrite (read_available _ (list_byte_of_string k))
    by (unfold size_of; rewrite length_list_byte_of_string; reflexivity).
  cbn [fst snd].
  rewrite (read_available 4 (le_bytes 4 _))
    by (unfold size_of; rewrite length_le_bytes; reflexivity).
  cbn [fst snd].
  replace (size_of (le_bytes 4 value_len) =? 4) with true
    by (unfold size_of; rewrite length_le_bytes; reflexivity).
  rewrite (le_value_u32 _ Hv).
  rewrite (read_short value_len partial) by exact Hcut.
  cbn [fst snd].
  replace (N.of_nat (String.length k))
    with (size_of (list_byte_of_string k))
    by (unfold size_of; rewrite length_list_byte_of_string; reflexivity).
  rewrite filled_buffer_exact, string_of_list_byte_of_string.
  assert (Hfill : filled_buffer value_len partial
                  = partial ++ repeat Byte.x00
                      (N.to_nat value_len - List.length partial)).
  { unfold filled_buffer. rewrite firstn_all2; [reflexivity|].
    unfold size_of in Hcut. lia. }
  rewrite Hfill.
  destruct (List.length (data_db_image recs ++ _) - List.length recs)%nat;
    reflexivity.
Qed.

(** X15. A [data.db] that ends after a key length but before the value
    length that should follow -- inside the key, or inside the four bytes
    of the value length -- makes [load_from_disk] size the value buffer
    with an uninitialised [value_len]: undefined behaviour. *)
Theorem data_db_cut_before_value recs key_len rest store :
  Forall fits recs ->
  key_len < 2 ^ 32 ->
  size_of rest < key_len + 4 ->
  load_data_db (data_db_image recs ++ le_bytes 4 key_len ++ rest) store
  = Undefined.
Proof.
  intros Hall Hk Hcut.
  rewrite load_data_db_split by exact Hall.
  cbn [load_records good].
  rewrite (read_available 4 (le_bytes 4 _))
    by (unfold size_of; rewrite length_le_bytes; reflexivity).
  cbn [fst snd good]. rewrite (le_value_u32 _ Hk).
  destruct (N.lt_ge_cases (size_of rest) key_len) as [Hshort | Hkey].
  - rewrite (read_short key_len rest) by exact Hshort. reflexivity.
  - assert (Hr : read key_len {| unread := rest; good := true |}
                 = (firstn (N.to_nat key_len) rest,
                    {| unread := skipn (N.to_nat key_len) rest;
                       good := true |})).
    { unfold read. cbn [good unread].
      destruct (N.leb_spec key_len (size_of rest)); [reflexivity | lia]. }
    assert (Hleft : size_of (skipn (N.to_nat key_len) rest) < 4)
      by (unfold size_of in *; rewrite length_skipn; lia).
    rewrite Hr. cbn [fst snd].
    rewrite (read_short 4 _ Hleft). cbn [fst snd].
    destruct (N.eqb_spec (size_of (skipn (N.to_nat key_len) rest)) 4);
      [lia | reflexivity].
Qed.

(** ** The loop does not run out of turns *)

Lemma read_unread n file :
  (List.length (unread (snd (read n file))) <= List.length (unread file))%nat.
Proof.
  unfold read. destruct (good file); [|cbn [snd]; lia].
  destruct (n <=? size_of (unread file)); cbn [snd unread].
  - rewrite length_skipn. lia.
  - cbn [List.length]. lia.
Qed.

Lemma read_good n file :
  good (snd (read n file)) = true ->
  (List.length (unread (snd (read n file))) + N.to_nat n
   = List.length (unread file))%nat.
Proof.
  unfold read. destruct (good file) eqn:Hg; [|cbn [snd]; congruence].
  destruct (N.leb_spec n (size_of (unread file))) as [Hle|_];
    cbn [snd unread good]; [|discriminate].
  intros _. rewrite length_skipn. unfold size_of in Hle. lia.
Qed.

Lemma load_records_fuel fuel fuel' file store :
  (List.length (unread file) < fuel)%nat ->
  (List.length (unread file) < fuel')%nat ->
  load_records fuel file store = load_records fuel' file store.
Proof.
  revert fuel' file store.
  induction fuel as [|fuel IH]; intros fuel' file store H1 H2; [lia|].
  destruct fuel' as [|fuel']; [lia|].
  cbn [load_records].
  destruct (good file); [|reflexivity].
  destruct (good (snd (read 4 file))) eqn:Hg; [|reflexivity].
  destruct (_ =? 4); [|reflexivity].
  apply read_good in Hg.
  match goal with
  | |- load_records _ (snd (read ?n3 (snd (read 4 (snd (read ?n2 ?f1)))))) _
       = _ =>
      pose proof (read_unread n3 (snd (read 4 (snd (read n2 f1)))));
      pose proof (read_unread 4 (snd (read n2 f1)));
      pose proof (read_unread n2 f1)
  end.
  apply IH; lia.
Qed.

(** More turns than the image has bytes change nothing. *)
Lemma load_data_db_fuel fuel image store :
  (List.length image < fuel)%nat ->
  load_records fuel {| unread := image; good := true |} store
  = load_data_db image store.
Proof.
  intros Hfuel. unfold load_data_db.
  apply load_records_fuel; cbn [unread]; lia.
Qed.

End DiskImageFacts.

(* ================================================================== *)
(** * Closing and opening again *)

Section Restart.
Import DigestiveDatabase DiskImage.

(** X12. What the destructor leaves in the directory brings the store
    back, when every key and blob is shorter than 2^32 bytes and the
    metadata map has fewer than 2^32 records, so that the 32-bit length and
    count fields of the two files hold them: the bytes of [data.db] load
    back to the data map of the reopened store, which reads every key as
    the closed one did, buffered writes included; it has the same metadata
    record for every key and the same three counters, and starts with an
    empty write buffer. ([metadata.db] is taken as the record sequence it
    holds.) *)
Theorem reopen_restores s config now :
  well_formed s ->
  Forall fits (data_store_ (flush s)) ->
  Forall (fun kv => N.of_nat (String.length (fst kv)) < 2 ^ 32)
         (metadata_store_ s) ->
  StdMap.size (metadata_store_ s) < 2 ^ 32 ->
  load_data_db (data_db_image (data_store_ (flush s))) []
  = Ok (data_store_ (open (close s) config now))
  /\ (forall k, stored_blob (open (close s) config now) k = stored_blob s k)
  /\ (forall k, get_metadata (open (close s) config now) k
                = get_metadata s k)
  /\ total_accesses_ (open (close s) config now) = total_accesses_ s
  /\ operations_since_reorg_ (open (close s) config now)
     = operations_since_reorg_ s
  /\ last_reorg_time_ (open (close s) config now) = last_reorg_time_ s
  /\ write_buffer_ (open (close s) config now) = [].
Proof.
  intros (Hsd & Hsm & Hsb & _) Hfits _ _.
  destruct (flush_keeps s) as (Hm & _ & _ & Ht & Ho & Hb).
  assert (Hl : last_reorg_time_ (flush s) = last_reorg_time_ s)
    by (unfold flush; destruct (write_buffer_ s); reflexivity).
  assert (Hbytes :
    load_data_db (data_db_image (data_store_ (flush s))) []
    = Ok (install (data_store_ (flush s)) [])).
  { rewrite <- (app_nil_r (data_db_image (data_store_ (flush s)))).
    rewrite load_data_db_split by exact Hfits.
    apply load_records_tail. reflexivity. }
  unfold open, close, load_from_disk, load_metadata, save_metadata,
    save_to_disk.
  cbn [db_path_ with_disk data_db metadata_db with_data_store
       img_entries img_total_accesses img_operations_since_reorg
       img_last_reorg_time].
  unfold stored_blob, get_metadata.
  cbn [write_buffer_ data_store_ metadata_store_ total_accesses_
       operations_since_reorg_ last_reorg_time_
       with_metadata_store with_last_reorg_time
       with_operations_since_reorg with_total_accesses with_data_store
       with_disk].
  rewrite Hm, Ht, Ho, Hl.
  split; [exact Hbytes|].
  split; [|split; [|auto]].
  - intros k. cbn [StdMap.find].
    rewrite find_fold_insert_empty by (apply flush_sorted; exact Hsd).
    rewrite flush_find by exact Hsb. reflexivity.
  - intros k. apply find_fold_insert_empty. exact Hsm.
Qed.

End Restart.

(* ================================================================== *)
(** * More about the chunk layer *)

Section ChunkLayerFacts.
Import ChunkingEngine.

(** ** Whole files *)




(** X17. An empty value can be inserted in chunks but not read back:
    [insert_chunked] succeeds, writes no chunk file and indexes the key
    with zero chunks, and [get_full_file] then reports the key absent --
    its last chunk index [num_chunks - 1] wraps to 2^32 - 1. *)
Theorem insert_chunked_empty e k f d now :
  default_chunk_size_ e <> 0 ->
  exists e',
    insert_chunked e k [] f = Ok e'
    /\ chunk_files e' = chunk_files e
    /\ (exists file_meta,
          get_metadata e' k = Some file_meta
          /\ num_chunks file_meta = 0 /\ chunks file_meta = [])
    /\ get_full_file e' now k d = Ok (None, e').
Proof.
  intros HC. unfold insert_chunked.
  destruct (N.eqb_spec (default_chunk_size_ e) 0) as [|_]; [contradiction|].
  assert (Hn : wrap32 (wrap64 (size_of (@nil Byte.byte)
                               + default_chunk_size_ e - 1)
                       / default_chunk_size_ e) = 0).
  { change (size_of (@nil Byte.byte)) with 0. rewrite N.add_0_l.
    assert (wrap64 (default_chunk_size_ e - 1) <= default_chunk_size_ e - 1)
      by (unfold wrap64; apply N.Div0.mod_le).
    rewrite N.div_small by lia. reflexivity. }
  rewrite Hn. cbn [N.to_nat insert_chunks bind fst snd].
  eexists. split; [reflexivity|]. split; [reflexivity|].
  split.
  - eexists. unfold get_metadata, save_metadata.
    cbn [file_metadata_ with_file_metadata with_chunk_files].
    rewrite find_insert_same. split; [reflexivity|]. split; reflexivity.
  - unfold get_full_file, get_chunk_range, save_metadata.
    cbn [file_metadata_ with_file_metadata with_chunk_files].
    rewrite find_insert_same. cbn [num_chunks]. reflexivity.
Qed.

(** ** Removing a chunked file *)

Lemma prefix_key (k rest : string) :
  String.prefix (k ++ "/") (k ++ String "/"%char rest) = true.
Proof.
  induction k as [|c k IH]; simpl.
  - destruct (ascii_dec "/" "/") as [_|Hne]; [|congruence].
    destruct rest; reflexivity.
  - destruct (ascii_dec c c) as [_|Hne]; [exact IH | congruence].
Qed.

Lemma prefix_dir (dir k rest : string) :
  String.prefix (dir ++ "/" ++ k ++ "/")
    (dir ++ String "/"%char (k ++ String "/"%char rest)) = true.
Proof.
  induction dir as [|c dir IH]; simpl.
  - destruct (ascii_dec "/" "/") as [_|Hne]; [|congruence].
    apply prefix_key.
  - destruct (ascii_dec c c) as [_|Hne]; [exact IH | congruence].
Qed.

Lemma find_filter_out {V} (keep : string -> bool) p (m : list (string * V)) :
  keep p = false ->
  StdMap.find p (filter (fun pf => keep (fst pf)) m) = None.
Proof.
  intros Hp. induction m as [|[p' v] m IH]; simpl.
  - reflexivity.
  - destruct (keep p') eqn:Hk; [|exact IH].
    simpl. destruct (key_compare p p') eqn:E; try exact IH.
    apply compare_eq in E. subst p'. congruence.
Qed.

Lemma get_chunk_path_in_dir e k i p :
  get_chunk_path e k i = Ok p ->
  String.prefix (chunks_dir_ e ++ "/" ++ k ++ "/") p = true.
Proof.
  unfold get_chunk_path. destruct (_ <=? _)%nat; [|discriminate].
  intros Heq. injection Heq as <-. apply prefix_dir.
Qed.

(** X18. [remove_chunked] reports whether the key was indexed; afterwards
    the key has no index entry, range and whole-file reads report it
    absent, a second [remove_chunked] returns false, and no chunk file of
    the key is left. *)
Theorem remove_chunked_then e k now a b d :
  fst (remove_chunked e k) = StdMap.mem k (file_metadata_ e)
  /\ get_metadata (snd (remove_chunked e k)) k = None
  /\ get_chunk_range (snd (remove_chunked e k)) now k a b d
     = Ok (None, snd (remove_chunked e k))
  /\ get_full_file (snd (remove_chunked e k)) now k d
     = Ok (None, snd (remove_chunked e k))
  /\ fst (remove_chunked (snd (remove_chunked e k)) k) = false
  /\ (fst (remove_chunked e k) = true ->
      forall i p,
        get_chunk_path e k i = Ok p ->
        StdMap.find p (chunk_files (snd (remove_chunked e k))) = None).
Proof.
  assert (Hgone : get_metadata (snd (remove_chunked e k)) k = None).
  { unfold remove_chunked, get_metadata.
    destruct (StdMap.find k (file_metadata_ e)) eqn:Hk; cbn [snd].
    - unfold save_metadata.
      cbn [file_metadata_ with_file_metadata with_chunk_files].
      apply find_erase_same.
    - exact Hk. }
  split; [|split; [exact Hgone|]].
  - unfold remove_chunked, StdMap.mem.
    destruct (StdMap.find k (file_metadata_ e)); reflexivity.
  - unfold get_metadata in Hgone.
    split; [unfold get_chunk_range; rewrite Hgone; reflexivity|].
    split; [unfold get_full_file; rewrite Hgone; reflexivity|].
    split; [unfold remove_chunked at 1; rewrite Hgone; reflexivity|].
    unfold remove_chunked.
    destruct (StdMap.find k (file_metadata_ e)); cbn [fst snd];
      [|discriminate].
    intros _ i p Hp. unfold save_metadata.
    cbn [chunk_files with_file_metadata with_chunk_files].
    apply (find_filter_out
             (fun path =>
                negb (String.prefix (chunks_dir_ e ++ "/" ++ k ++ "/") path))).
    rewrite (get_chunk_path_in_dir e k i p Hp). reflexivity.
Qed.

(** ** Heat *)

Lemma ltb_leb (x y : float) : (x <? y)%float = true -> (x <=? y)%float = true.
Proof.
  rewrite ltb_spec, leb_spec. unfold SFltb, SFleb.
  destruct (SFcompare (Prim2SF x) (Prim2SF y)) as [[| |]|];
    congruence.
Qed.

Lemma min_one_capped h : (min_one h <=? 1)%float = true.
Proof.
  unfold min_one. destruct (h <? 1)%float eqn:E.
  - apply ltb_leb. exact E.
  - reflexivity.
Qed.



(** X20. [update_chunk_heat] on an indexed chunk sets its heat to
    [min (1.0, heat + heat_increment)] -- never above 1.0, whatever the
    increment -- and leaves its tier, its sizes and the chunk files
    alone. *)
Theorem update_chunk_heat_capped e k id heat_increment file_meta c :
  get_metadata e k = Some file_meta ->
  StdMap.find id (chunks file_meta) = Some c ->
  chunk_files (update_chunk_heat e k id heat_increment) = chunk_files e
  /\ exists file_meta' c',
       get_metadata (update_chunk_heat e k id heat_increment) k
       = Some file_meta'
       /\ StdMap.find id (chunks file_meta') = Some c'
       /\ heat c' = min_one (heat c + heat_increment)%float
       /\ (heat c' <=? 1)%float = true
       /\ tier c' = tier c
       /\ compressed_size c' = compressed_size c
       /\ original_size c' = original_size c.
Proof.
  unfold get_metadata, update_chunk_heat. intros -> ->.
  cbn [chunk_files file_metadata_ with_file_metadata].
  split; [reflexivity|].
  eexists. eexists. rewrite find_insert_same. split; [reflexivity|].
  cbn [chunks with_chunks]. rewrite find_insert_same.
  split; [reflexivity|].
  cbn [heat with_heat tier compressed_size original_size].
  split; [reflexivity|]. split; [apply min_one_capped|]. auto.
Qed.

Lemma find_map_values {K V W} `{Ord K} (g : V -> W) k (m : list (K * V)) :
  StdMap.find k (map (fun kv => (fst kv, g (snd kv))) m)
  = option_map g (StdMap.find k m).
Proof.
  induction m as [|[k' v] m IH]; simpl.
  - reflexivity.
  - destruct (key_compare k k'); [reflexivity | exact IH | exact IH].
Qed.

(** X21. [decay_all_chunks] scales the heat of every chunk of every file
    and sets the chunk's tier to the tier of the new heat, but rewrites no
    chunk file: the bytes on disk stay compressed as they were while the
    tier handed to [decompress_fn] on the next read is the new one. *)
Theorem decay_all_chunks_retiers e decay_factor k id :
  chunk_files (decay_all_chunks e decay_factor) = chunk_files e
  /\ match get_metadata e k with
     | Some file_meta =>
         exists file_meta',
           get_metadata (decay_all_chunks e decay_factor) k = Some file_meta'
           /\ num_chunks file_meta' = num_chunks file_meta
           /\ match StdMap.find id (chunks file_meta) with
              | Some c =>
                  exists c',
                    StdMap.find id (chunks file_meta') = Some c'
                    /\ heat c' = (heat c * decay_factor)%float
                    /\ tier c' = calculate_tier_from_heat (heat c')
                    /\ compressed_size c' = compressed_size c
                    /\ original_size c' = original_size c
              | None => StdMap.find id (chunks file_meta') = None
              end
     | None => get_metadata (decay_all_chunks e decay_factor) k = None
     end.
Proof.
  split; [reflexivity|].
  unfold get_metadata, decay_all_chunks.
  cbn [file_metadata_ with_file_metadata].
  rewrite (find_map_values
             (fun fm =>
                with_chunks
                  (map (fun ic => (fst ic, decayed decay_factor (snd ic)))
                       (chunks fm)) fm)).
  destruct (StdMap.find k (file_metadata_ e)) as [file_meta|];
    [|reflexivity].
  cbn [option_map]. eexists. split; [reflexivity|].
  cbn [num_chunks chunks with_chunks]. split; [reflexivity|].
  rewrite (find_map_values (decayed decay_factor)).
  destruct (StdMap.find id (chunks file_meta)) as [c|]; [|reflexivity].
  cbn [option_map]. eexists. split; [reflexivity|].
  unfold decayed. cbn [heat tier compressed_size original_size].
  split; [reflexivity|]. split; [|auto].
  destruct (N.eqb_spec (calculate_tier_from_heat (heat c * decay_factor))
              (tier c)); congruence.
Qed.

(** ** When an insert goes through *)

Lemma insert_chunks_ok e k data f count i files cs :
  i + N.of_nat count <= 1000 ->
  exists r, insert_chunks e k data f count i files cs = Ok r.
Proof.
  revert i files cs. induction count as [|count IH]; intros i files cs Hle.
  - eexists. reflexivity.
  - rewrite insert_chunks_step.
    rewrite get_chunk_path_below by lia. cbn [bind]. apply IH. lia.
Qed.

(** X23. With a non-zero chunk size, [insert_chunked] goes through
    exactly for values of at most 1000 chunks, and then indexes the key
    with that many; any longer value makes it throw [std::length_error]
    when it builds the name of chunk 1000. *)
Theorem insert_chunked_outcome e k data f :
  default_chunk_size_ e <> 0 ->
  (chunk_count e data <= 1000 ->
   exists e',
     insert_chunked e k data f = Ok e'
     /\ stored_num_chunks e' k = chunk_count e data)
  /\ (1000 < chunk_count e data ->
      insert_chunked e k data f = Throws "std::length_error"%string).
Proof.
  intros HC. split.
  - intros Hle. unfold insert_chunked.
    destruct (N.eqb_spec (default_chunk_size_ e) 0) as [|_]; [contradiction|].
    fold (chunk_count e data).
    destruct (insert_chunks_ok e k data f (N.to_nat (chunk_count e data)) 0
                (chunk_files e) []) as (r & ->); [lia|].
    cbn [bind]. eexists. split; [reflexivity|].
    unfold stored_num_chunks, get_metadata, save_metadata.
    cbn [file_metadata_ with_file_metadata with_chunk_files].
    rewrite find_insert_same. reflexivity.
  - intros Hgt. apply insert_chunked_too_many; assumption.
Qed.

End ChunkLayerFacts.

(* ================================================================== *)
(** * What survives a sequence of calls *)

Section Durability.
Import DigestiveDatabase StoreApi.
Variable lib : CodecLib.
Variable std_sort :
  (string * N -> string * N -> bool) -> list (string * N) -> list (string * N).
Variable j : string.
Variable p : bytes.
Hypothesis codec : round_trips lib p.

Lemma keeps_reorganize s now :
  keeps lib s j p -> keeps lib (reorganize lib s now) j p.
Proof.
  intros (Hwf & Hdel & Hbuf & Hp & m & Hm & Hsize).
  destruct (reorganize_fields lib s now) as (Em & _ & Eb & _ & Ec).
  assert (Hp' : plaintext_of lib (reorganize lib s now) j = Some p).
  { destruct Hwf as (_ & Hsm & _).
    apply (reorganize_plaintext lib s now j m p); auto. }
  split; [apply well_formed_reorganize; exact Hwf|].
  split; [rewrite Ec; exact Hdel|].
  split; [rewrite Eb; exact Hbuf|].
  split; [exact Hp'|].
  unfold get_metadata in *. rewrite Em.
  pose proof (reorganize_loop_find lib s (metadata_store_ s) (data_store_ s) j)
    as Hf.
  unfold plaintext_of, get_metadata in Hp'. rewrite Em in Hp'.
  destruct (StdMap.find j (fst _)) as [m'|].
  - destruct Hf as (m0 & store' & Hm0 & ->).
    exists (fst (reorganize_entry lib s j m0 store')).
    split; [reflexivity|].
    rewrite Hm in Hm0. injection Hm0 as <-.
    destruct (reorganize_entry_counters lib s j m store') as (_ & _ & ->).
    exact Hsize.
  - destruct (stored_blob _ j); discriminate.
Qed.

Lemma keeps_after_operation s now :
  keeps lib s j p -> keeps lib (after_operation lib s now) j p.
Proof.
  intros Hk. destruct (after_operation_cases lib s now) as [-> | ->].
  - exact Hk.
  - apply keeps_reorganize. exact Hk.
Qed.

Lemma keeps_flush s : keeps lib s j p -> keeps lib (flush s) j p.
Proof.
  intros (Hwf & Hdel & Hbuf & Hp & m & Hm & Hsize).
  destruct (flush_keeps s) as (Em & Ec & _ & _ & _ & Eb).
  pose proof Hwf as (_ & _ & Hsb & _).
  split; [apply well_formed_flush; exact Hwf|].
  split; [rewrite Ec; exact Hdel|].
  split; [rewrite Eb; reflexivity|].
  unfold plaintext_of, get_metadata in *.
  rewrite (stored_blob_flush s j Hsb), Em, Ec.
  split; [exact Hp|]. exists m. auto.
Qed.

Lemma keeps_staged s now k data :
  k <> j -> keeps lib s j p -> keeps lib (staged lib s now k data) j p.
Proof.
  intros Hne (Hwf & Hdel & Hbuf & Hp & m & Hm & Hsize).
  destruct (staged_fields lib s now k data) as (Em & Ec & _).
  destruct (staged_blobs lib s now k data Hwf) as (Hwf' & _ & Hothers).
  split; [exact Hwf'|]. split; [rewrite Ec; exact Hdel|].
  split.
  - unfold staged. destruct (lazy_persistence (config_ s)).
    + set (s' := with_write_buffer _ _ s). destruct (_ <=? _).
      * cbn [write_buffer_ with_metadata_store].
        destruct (flush_keeps s') as (_ & _ & _ & _ & _ & ->). reflexivity.
      * cbn [write_buffer_ with_metadata_store with_write_buffer s'].
        unfold s'. cbn [write_buffer_ with_write_buffer].
        rewrite find_insert_other by exact Hne. exact Hbuf.
    + exact Hbuf.
  - unfold plaintext_of, get_metadata in *.
    rewrite Hothers by congruence. rewrite Em, Ec.
    rewrite find_insert_other by exact Hne.
    split; [exact Hp|]. exists m. auto.
Qed.

Lemma keeps_check_size_limit s :
  keeps lib s j p -> check_size_limit std_sort s = s.
Proof.
  intros (_ & Hdel & _). apply check_size_limit_within. left. exact Hdel.
Qed.

Lemma keeps_erase_everywhere s k :
  k <> j -> keeps lib s j p -> keeps lib (erase_everywhere s k) j p.
Proof.
  intros Hne ((Hd & Hsm & Hb & He) & Hdel & Hbuf & Hp & m & Hm & Hsize).
  split.
  { unfold well_formed, erase_everywhere.
    cbn [data_store_ metadata_store_ write_buffer_ config_
         with_write_buffer with_metadata_store with_data_store].
    split; [apply sorted_erase; exact Hd|].
    split; [apply sorted_erase; exact Hsm|].
    split; [apply sorted_erase; exact Hb|].
    intros Hl. rewrite (He Hl). reflexivity. }
  split; [exact Hdel|].
  unfold plaintext_of, stored_blob, get_metadata, erase_everywhere in *.
  cbn [data_store_ metadata_store_ write_buffer_ config_
       with_write_buffer with_metadata_store with_data_store].
  rewrite !find_erase_other by exact Hne.
  split; [exact Hbuf|]. split; [exact Hp|]. exists m. auto.
Qed.

Lemma keeps_touched s now k m0 :
  StdMap.find k (metadata_store_ s) = Some m0 ->
  keeps lib s j p ->
  keeps lib
    (with_total_accesses (wrap64 (total_accesses_ s + 1))
       (with_metadata_store
          (StdMap.insert k (touched now m0) (metadata_store_ s)) s)) j p.
Proof.
  intros Hk ((Hd & Hsm & Hb & He) & Hdel & Hbuf & Hp & m & Hm & Hsize).
  split.
  { unfold well_formed.
    cbn [data_store_ metadata_store_ write_buffer_ config_
         with_total_accesses with_metadata_store].
    split; [exact Hd|]. split; [apply sorted_insert; exact Hsm|]. auto. }
  split; [exact Hdel|]. split; [exact Hbuf|].
  unfold plaintext_of, stored_blob, get_metadata in *.
  cbn [data_store_ metadata_store_ write_buffer_ config_
       with_total_accesses with_metadata_store].
  destruct (string_dec k j) as [->|Hne].
  - rewrite find_insert_same. rewrite Hm in Hk. injection Hk as <-.
    rewrite Hm in Hp. split; [exact Hp|].
    exists (touched now m). split; [reflexivity | exact Hsize].
  - rewrite find_insert_other by exact Hne.
    split; [exact Hp|]. exists m. auto.
Qed.

Lemma perform_keeps s call s' :
  keeps lib s j p ->
  rewrites j (snd call) = false ->
  perform lib std_sort s call = Ok s' ->
  keeps lib s' j p.
Proof.
  intros Hk. destruct call as [now [k data|k|k| |]]; unfold perform;
    cbn [fst snd rewrites]; intros Hcall.
  - apply String.eqb_neq in Hcall.
    intros Heq. injection Heq as <-. rewrite insert_binary_as_staged.
    pose proof (keeps_staged s now k data Hcall Hk) as Hst.
    rewrite (keeps_check_size_limit _ Hst).
    apply keeps_after_operation. exact Hst.
  - destruct (get_binary lib s now k) as [[r s1]| |] eqn:Hget;
      try discriminate.
    cbn [bind snd]. intros Heq. injection Heq as <-.
    destruct (get_binary_shape lib s now k r s1 Hget)
      as [(_ & [-> | ->]) | (s0 & m0 & Hs0 & _ & Hm0 & _ & ->)].
    + exact Hk.
    + apply keeps_flush. exact Hk.
    + apply keeps_after_operation. apply keeps_touched; [exact Hm0|].
      destruct Hs0 as [-> | ->]; [exact Hk | apply keeps_flush; exact Hk].
  - apply String.eqb_neq in Hcall.
    intros Heq. injection Heq as <-. unfold remove. cbn [snd].
    apply keeps_after_operation, keeps_erase_everywhere; assumption.
  - intros Heq. injection Heq as <-. apply keeps_flush. exact Hk.
  - intros Heq. injection Heq as <-. apply keeps_reorganize. exact Hk.
Qed.

Lemma run_keeps s calls s' :
  keeps lib s j p ->
  Forall (fun call => rewrites j (snd call) = false) calls ->
  run lib std_sort s calls = Ok s' ->
  keeps lib s' j p.
Proof.
  revert s. induction calls as [|call rest IH]; intros s Hk Hall; simpl.
  - intros Heq. injection Heq as <-. exact Hk.
  - inversion Hall as [|? ? Hcall Hrest]; subst.
    destruct (perform lib std_sort s call) as [s1| |] eqn:Hp;
      try discriminate.
    cbn [bind]. apply IH; [|exact Hrest].
    apply (perform_keeps s call s1 Hk Hcall Hp).
Qed.

End Durability.

Section DurabilityTheorem.
Import DigestiveDatabase StoreApi.

(** X22. In a store that deletes nothing, what a key holds survives every
    sequence of calls that neither inserts nor removes that key -- reads
    of it, traffic on other keys, flushes, and reorganizations that
    recompress it: if the key decoded to [p] before, with [p]'s length on
    record and its blob in the data map, a read after the calls returns
    [p], provided the built-in codecs give [p] back. *)
Theorem run_keeps_plaintext lib std_sort s calls s' j m p now :
  well_formed s ->
  allow_deletion (config_ s) = false ->
  StdMap.find j (write_buffer_ s) = None ->
  get_metadata s j = Some m ->
  plaintext_of lib s j = Some p ->
  size_of p = original_size m ->
  round_trips lib p ->
  Forall (fun call => rewrites j (snd call) = false) calls ->
  run lib std_sort s calls = Ok s' ->
  plaintext_of lib s' j = Some p
  /\ exists s'', get_binary lib s' now j = Ok (Some p, s'').
Proof.
  intros Hwf Hdel Hbuf Hm Hp Hsize Hcodec Hall Hrun.
  assert (Hk : keeps lib s j p).
  { split; [exact Hwf|]. split; [exact Hdel|]. split; [exact Hbuf|].
    split; [exact Hp|]. exists m. auto. }
  destruct (run_keeps lib std_sort j p Hcodec s calls s' Hk Hall Hrun)
    as (_ & _ & Hbuf' & Hp' & _).
  split; [exact Hp'|].
  apply get_binary_plaintext; assumption.
Qed.

End DurabilityTheorem.

(* ================================================================== *)
(** * What reaches the disk *)

Section Persistence.
Import DigestiveDatabase StoreApi.
Variable lib : CodecLib.
Variable std_sort :
  (string * N -> string * N -> bool) -> list (string * N) -> list (string * N).

Lemma after_operation_manual_disk s now :
  reorg_strategy (config_ s) = MANUAL ->
  db_path_ (after_operation lib s now) = db_path_ s
  /\ config_ (after_operation lib s now) = config_ s.
Proof.
  intros Hm. rewrite (after_operation_manual lib s now Hm). split; reflexivity.
Qed.

Lemma perform_manual_disk s call s' :
  reorg_strategy (config_ s) = MANUAL ->
  allow_deletion (config_ s) = false ->
  snd call <> Reorganize ->
  perform lib std_sort s call = Ok s' ->
  db_path_ s' = db_path_ s /\ config_ s' = config_ s.
Proof.
  intros Hm Hdel.
  destruct (flush_keeps s) as (_ & Hfc & Hfd & _).
  destruct call as [now [k data|k|k| |]]; unfold perform; cbn [fst snd];
    intros Hcall.
  - intros Heq. injection Heq as <-. rewrite insert_binary_as_staged.
    destruct (staged_fields lib s now k data) as (_ & Ec & Ed & _).
    rewrite check_size_limit_within by (left; rewrite Ec; exact Hdel).
    destruct (after_operation_manual_disk (staged lib s now k data) now)
      as (-> & ->); [rewrite Ec; exact Hm|]. auto.
  - destruct (get_binary lib s now k) as [[r s1]| |] eqn:Hget;
      try discriminate.
    cbn [bind snd]. intros Heq. injection Heq as <-.
    destruct (get_binary_shape lib s now k r s1 Hget)
      as [(_ & [-> | ->]) | (s0 & m & Hs0 & _ & _ & _ & ->)]; auto.
    match goal with
    | |- context [after_operation lib ?x now] => set (s2 := x)
    end.
    assert (H2 : db_path_ s2 = db_path_ s /\ config_ s2 = config_ s)
      by (unfold s2; destruct Hs0 as [-> | ->]; cbn; auto).
    destruct H2 as (Ed & Ec).
    destruct (after_operation_manual_disk s2 now) as (-> & ->);
      [rewrite Ec; exact Hm|]. auto.
  - intros Heq. injection Heq as <-. unfold remove. cbn [snd].
    destruct (after_operation_manual_disk (erase_everywhere s k) now)
      as (-> & ->); [exact Hm|]. auto.
  - intros Heq. injection Heq as <-. auto.
  - congruence.
Qed.

(** X24. Under [MANUAL] reorganization, in a store that deletes nothing,
    no insert, read, remove or [flush] writes to the store directory:
    [data.db] and [metadata.db] stay as they were until [reorganize] or the
    destructor runs. [flush] moves the buffer into the data map in memory
    only. *)
Theorem nothing_written_before_reorganize s calls s' :
  reorg_strategy (config_ s) = MANUAL ->
  allow_deletion (config_ s) = false ->
  Forall (fun call => snd call <> Reorganize) calls ->
  run lib std_sort s calls = Ok s' ->
  db_path_ s' = db_path_ s.
Proof.
  revert s. induction calls as [|call rest IH]; intros s Hm Hdel Hall; simpl.
  - intros Heq. injection Heq as <-. reflexivity.
  - inversion Hall as [|? ? Hcall Hrest]; subst.
    destruct (perform lib std_sort s call) as [s1| |] eqn:Hp;
      try discriminate.
    cbn [bind]. intros Hrun.
    destruct (perform_manual_disk s call s1 Hm Hdel Hcall Hp) as (Ed & Ec).
    rewrite <- Ed. apply IH; try assumption; rewrite Ec; assumption.
Qed.

End Persistence.

(* ================================================================== *)
(** * More runs *)

Section StoreRuns.
Import DigestiveDatabase StoreApi Scenario Cases.

#[local] Abbreviation isort := (@insertion_sort (string * N)).

Lemma round_trips_framing (data : bytes) : round_trips framing_lib data.
Proof.
  intros algo. unfold decompress_with_algo, compress_with_algo.
  destruct algo; cbn; try reflexivity;
    rewrite N.leb_refl; apply filled_buffer_exact.
Defined.

(** X1, witness: a store with one staged write. *)
Lemma flush_moves_buffer_witness :
  StdMap.sorted (write_buffer_ lazy_one) = true
  /\ write_buffer_ (flush lazy_one) = []
  /\ stored_blob (flush lazy_one) "k"%string = stored_blob lazy_one "k"%string.
Proof.
  split; [reflexivity|].
  destruct (flush_moves_buffer lazy_one eq_refl) as (H1 & H2 & _).
  split; [exact H1 | apply H2].
Defined.

(** X2, witness: three calls on a fresh store. *)
Lemma fresh_store_stays_covered_witness :
  exists s',
    run framing_lib isort counting_store three_calls = Ok s'
    /\ covered s'
    /\ get_binary framing_lib s' 4 "zz"%string <> Undefined.
Proof.
  eexists. split; [reflexivity|].
  destruct (fresh_store_stays_covered framing_lib isort
              (every_n_config 2 false SIZE_MAX) 0 0 three_calls _ eq_refl)
    as (Hcov & Hget).
  split; [exact Hcov | apply Hget].
Defined.

(** X3, witness. *)
Lemma every_n_ops_counter_bounded_witness :
  reorg_strategy (config_ counting_store) = EVERY_N_OPS
  /\ operations_since_reorg_ counting_store
     < reorg_operation_threshold (config_ counting_store)
  /\ exists s',
       run framing_lib isort counting_store three_calls = Ok s'
       /\ operations_since_reorg_ s' < reorg_operation_threshold (config_ s').
Proof.
  split; [reflexivity|]. split; [reflexivity|].
  eexists. split; [reflexivity|].
  apply (every_n_ops_counter_bounded framing_lib isort counting_store
           three_calls _ eq_refl eq_refl eq_refl).
Defined.

(** X4, witness. *)
Lemma write_buffer_unused_witness :
  lazy_persistence (every_n_config 2 false SIZE_MAX) = false
  /\ exists s',
       run framing_lib isort counting_store three_calls = Ok s'
       /\ write_buffer_ s' = [].
Proof.
  split; [reflexivity|].
  eexists. split; [reflexivity|].
  apply (write_buffer_unused framing_lib isort empty_dir
           (every_n_config 2 false SIZE_MAX) 0 three_calls _
           eq_refl eq_refl).
Defined.

(** X5, witness: key ["a"], read once out of one access, moves to tier 0. *)
Lemma reorganize_settles_witness :
  StdMap.sorted (metadata_store_ warm_a_cold_b) = true
  /\ StdMap.find "a"%string (data_store_ warm_a_cold_b) <> None
  /\ exists m',
       get_metadata (reorganize framing_lib warm_a_cold_b 9) "a"%string
       = Some m'
       /\ settled (reorganize framing_lib warm_a_cold_b 9) m'.
Proof.
  split; [reflexivity|]. split; [discriminate|].
  eexists. split; [reflexivity|].
  apply (reorganize_settles framing_lib warm_a_cold_b 9 "a"%string _
           eq_refl ltac:(discriminate) eq_refl).
Defined.

(** X6, witness. *)
Lemma reorganize_keeps_plaintext_witness :
  StdMap.sorted (metadata_store_ warm_a_cold_b) = true
  /\ StdMap.find "a"%string (write_buffer_ warm_a_cold_b) = None
  /\ plaintext_of framing_lib warm_a_cold_b "a"%string = Some [Byte.x41]
  /\ plaintext_of framing_lib (reorganize framing_lib warm_a_cold_b 9)
       "a"%string
     = Some [Byte.x41].
Proof.
  split; [reflexivity|]. split; [reflexivity|]. split; [reflexivity|].
  destruct (reorganize_keeps_plaintext framing_lib warm_a_cold_b 9
              "a"%string _ [Byte.x41] eq_refl eq_refl eq_refl eq_refl eq_refl
              (round_trips_framing [Byte.x41])) as (H & _).
  exact H.
Defined.

(** X8, witness: the first read of ["b"] is the fourth counted call and
    reorganizes. *)
Lemma get_binary_repeatable_witness :
  well_formed warm_a_cold_b
  /\ get_binary framing_lib warm_a_cold_b 4 "b"%string
     = Ok (Some [Byte.x42], after_read_b)
  /\ exists s2,
       get_binary framing_lib after_read_b 5 "b"%string
       = Ok (Some [Byte.x42], s2).
Proof.
  assert (Hwf : well_formed warm_a_cold_b)
    by (repeat split; reflexivity).
  assert (Hget : get_binary framing_lib warm_a_cold_b 4 "b"%string
                 = Ok (Some [Byte.x42], after_read_b))
    by (vm_compute; reflexivity).
  split; [exact Hwf|]. split; [exact Hget|].
  apply (get_binary_repeatable framing_lib warm_a_cold_b 4 5 "b"%string
           _ [Byte.x42] after_read_b Hwf eq_refl Hget eq_refl
           (round_trips_framing [Byte.x42])).
Defined.

(** X10, witness. *)
Lemma insert_then_get_string_witness :
  well_formed lazy_one
  /\ within_limit lazy_one
  /\ returned (get framing_lib
                 (insert framing_lib isort lazy_one 1 "j"%string "hi"%string)
                 2 "j"%string)
     = Ok (Some "hi"%string).
Proof.
  split; [exact well_formed_lazy_one|].
  split; [exact within_limit_lazy_one|].
  apply (insert_then_get_string framing_lib isort lazy_one 1 2 "j"%string
           "hi"%string well_formed_lazy_one within_limit_lazy_one).
  intros _. reflexivity.
Defined.

(** X12, witness: the staged write of [lazy_one] is there after a restart. *)
Lemma reopen_restores_witness :
  well_formed lazy_one
  /\ Forall DiskImage.fits (data_store_ (flush lazy_one))
  /\ StdMap.size (metadata_store_ lazy_one) < 2 ^ 32
  /\ stored_blob (open (close lazy_one) lazy_config 7) "k"%string
     = stored_blob lazy_one "k"%string.
Proof.
  assert (Hfits : Forall DiskImage.fits (data_store_ (flush lazy_one)))
    by (repeat constructor).
  assert (Hkeys : Forall (fun kv => N.of_nat (String.length (fst kv)) < 2 ^ 32)
                         (metadata_store_ lazy_one))
    by (repeat constructor).
  split; [exact well_formed_lazy_one|].
  split; [exact Hfits|]. split; [reflexivity|].
  destruct (reopen_restores lazy_one lazy_config 7 well_formed_lazy_one
              Hfits Hkeys eq_refl) as (_ & H & _).
  apply H.
Defined.

(** X22, witness: key ["a"] through reads, other keys' inserts and
    removes, a flush and two reorganizations. *)
Lemma run_keeps_plaintext_witness :
  well_formed warm_a_cold_b
  /\ allow_deletion (config_ warm_a_cold_b) = false
  /\ plaintext_of framing_lib warm_a_cold_b "a"%string = Some [Byte.x41]
  /\ run framing_lib isort warm_a_cold_b traffic = Ok after_traffic
  /\ plaintext_of framing_lib after_traffic "a"%string = Some [Byte.x41].
Proof.
  assert (Hwf : well_formed warm_a_cold_b)
    by (repeat split; reflexivity).
  assert (Hrun : run framing_lib isort warm_a_cold_b traffic
                 = Ok after_traffic)
    by (vm_compute; reflexivity).
  split; [exact Hwf|]. split; [reflexivity|]. split; [reflexivity|].
  split; [exact Hrun|].
  apply (run_keeps_plaintext framing_lib isort warm_a_cold_b traffic
           after_traffic "a"%string _ [Byte.x41] 10 Hwf eq_refl eq_refl
           eq_refl eq_refl eq_refl (round_trips_framing [Byte.x41])).
  - repeat constructor.
  - exact Hrun.
Defined.

(** X24, witness: a staged write, a second one and a flush; the
    directory of [lazy_one] is still empty. *)
Lemma nothing_written_before_reorganize_witness :
  reorg_strategy (config_ lazy_one) = MANUAL
  /\ allow_deletion (config_ lazy_one) = false
  /\ exists s',
       run framing_lib isort lazy_one
         [(1, Insert "j" [Byte.x42]); (2, Flush)] = Ok s'
       /\ db_path_ s' = empty_dir.
Proof.
  split; [reflexivity|]. split; [reflexivity|].
  eexists. split; [reflexivity|].
  apply (nothing_written_before_reorganize framing_lib isort lazy_one
           [(1, Insert "j"%string [Byte.x42]); (2, Flush)] _
           eq_refl eq_refl).
  - repeat (constructor; [discriminate|]). constructor.
  - reflexivity.
Defined.

End StoreRuns.

Section ImageRuns.
Import DiskImage Cases.

Lemma fits_two_records : Forall fits two_records.
Proof. repeat constructor. Defined.

(** X13, witness: two records and one stray byte. *)
Lemma data_db_round_trip_witness :
  Forall fits two_records
  /\ size_of [Byte.x00] < 4
  /\ load_data_db (data_db_image two_records ++ [Byte.x00]) [] = Ok two_records.
Proof.
  split; [exact fits_two_records|]. split; [reflexivity|].
  apply (data_db_round_trip two_records [Byte.x00] []
           fits_two_records eq_refl).
Defined.

(** X14, witness: a value of three bytes of which one reached the disk. *)
Lemma data_db_cut_in_value_witness :
  Forall fits two_records
  /\ load_data_db
       (data_db_image two_records
        ++ le_bytes 4 1 ++ list_byte_of_string "c"
        ++ le_bytes 4 3 ++ [Byte.x43]) []
     = Ok (two_records ++ [("c"%string, [Byte.x43; Byte.x00; Byte.x00])]).
Proof.
  split; [exact fits_two_records|].
  apply (data_db_cut_in_value two_records "c"%string 3 [Byte.x43] []
           fits_two_records eq_refl eq_refl eq_refl).
Defined.

(** X15, witness: a key of two bytes of which one reached the disk. *)
Lemma data_db_cut_before_value_witness :
  Forall fits two_records
  /\ load_data_db
       (data_db_image two_records ++ le_bytes 4 2 ++ [Byte.x63]) []
     = Undefined.
Proof.
  split; [exact fits_two_records|].
  apply (data_db_cut_before_value two_records 2 [Byte.x63] []
           fits_two_records eq_refl eq_refl).
Defined.

End ImageRuns.

Section ChunkRuns.
Import ChunkingEngine Scenario Cases.


(** X17, witness. *)
Lemma insert_chunked_empty_witness :
  default_chunk_size_ tiny_engine <> 0
  /\ exists e',
       insert_chunked tiny_engine "k" [] plain_compress = Ok e'
       /\ get_full_file e' 7 "k" plain_decompress = Ok (None, e').
Proof.
  assert (HC : default_chunk_size_ tiny_engine <> 0) by discriminate.
  split; [exact HC|].
  destruct (insert_chunked_empty tiny_engine "k"%string plain_compress
              plain_decompress 7 HC) as (e' & Hins & _ & _ & Hget).
  exists e'. split; [exact Hins | exact Hget].
Defined.


(** X20, witness: an increment far above what is left to 1.0. *)
Lemma update_chunk_heat_capped_witness :
  exists file_meta c,
    get_metadata two_chunks "k" = Some file_meta
    /\ StdMap.find 0 (chunks file_meta) = Some c
    /\ chunk_files (update_chunk_heat two_chunks "k" 0 5)
       = chunk_files two_chunks.
Proof.
  eexists. eexists. split; [reflexivity|]. split; [reflexivity|].
  apply (update_chunk_heat_capped two_chunks "k"%string 0 5%float _ _
           eq_refl eq_refl).
Defined.

(** X23, witness: a thousand and one one-byte chunks. *)
Lemma insert_chunked_outcome_witness :
  default_chunk_size_ tiny_engine <> 0
  /\ 1000 < chunk_count tiny_engine long_value
  /\ insert_chunked tiny_engine "k" long_value plain_compress
     = Throws "std::length_error"%string.
Proof.
  assert (HC : default_chunk_size_ tiny_engine <> 0) by discriminate.
  assert (Hn : 1000 < chunk_count tiny_engine long_value)
    by (vm_compute; reflexivity).
  split; [exact HC|]. split; [exact Hn|].
  destruct (insert_chunked_outcome tiny_engine "k"%string long_value
              plain_compress HC) as (_ & Hthrow).
  apply Hthrow. exact Hn.
Defined.

(** C2, at the failing input. With the largest chunk size and a value of
    two bytes, [S + C - 1] is 2^64 and wraps to zero: [insert_chunked]
    goes through, writes no chunk file and stores [num_chunks = 0], where
    [ceil (S / C)] is 1. The range [0 .. 0], inside the bounds the claim
    gives, is refused, and so is the whole-file read, although the codec is
    the identity and the slice the claim names is the whole value. *)
Theorem get_chunk_range_count_wraps :
  default_chunk_size_ wide_engine = 2 ^ 64 - 1
  /\ insert_chunked wide_engine "k" [Byte.x41; Byte.x42] plain_compress
     = Ok wide_inserted
  /\ (size_of [Byte.x41; Byte.x42] + default_chunk_size_ wide_engine - 1)
     / default_chunk_size_ wide_engine = 1
  /\ chunk_count wide_engine [Byte.x41; Byte.x42] = 0
  /\ stored_num_chunks wide_inserted "k" = 0
  /\ chunk_files wide_inserted = []
  /\ returned (get_chunk_range wide_inserted 9 "k" 0 0 plain_decompress)
     = Ok None
  /\ returned (get_full_file wide_inserted 9 "k" plain_decompress)
     = Ok None
  /\ slice [Byte.x41; Byte.x42] (0 * default_chunk_size_ wide_engine)
       (N.min ((0 + 1) * default_chunk_size_ wide_engine)
              (size_of [Byte.x41; Byte.x42])
        - 0 * default_chunk_size_ wide_engine)
     = [Byte.x41; Byte.x42].
Proof.
  repeat split; vm_compute; reflexivity.
Qed.

End ChunkRuns.
